(* ===== verification/_CoqProject ===== *)
-Q . S2P
Prelude.v
Modes.v
Format.v
Audio.v
Timer.v
TimerRun.v
TimerSpec.v
Json.v
Alarms.v
AlarmRun.v
App.v
Electron.v
Build.v
View.v
Title.v
Schema.v
