(* ===== verification/Prelude.v ===== *)
(** * Tomidoro: a verification development

    Tomidoro is a desktop Pomodoro timer.  Its logic lives in one React
    component, [src/src/App.jsx] ([function App]), run inside an Electron
    window created by [src/electron/main.cjs]; [src/vite.config.js] is the
    build configuration.  The development models the component the way
    React runs it: every [useState] hook and every [useRef] becomes a field
    of a record, every handler a total function on that record, and every
    [useEffect] a function that runs after the render whose dependencies
    changed ("commit").  Time is [Date.now()] in milliseconds, an integer
    of [Z]; the timer's arithmetic ([Math.ceil], [Math.max]) is written out
    on [Z].

    ** Parts of the program and the files that model them

    - [Prelude] (this file): the scope [tomi_scope], the JavaScript number
      helpers the component uses ([Math.ceil(d / 1000)] as [ceil_div],
      the truthiness and numeric coercion of a ref that holds a number or
      [null]), their lemmas, the hint database [tomi] and the tactics.
    - [Modes]: the [MODES] table (App.jsx lines 5-26): the enumeration
      [Mode] of the four presets, [ModeInfo] with label, duration and
      colour, [Object.keys(MODES)] as [mode_keys].
    - [Format]: [formatTime] (lines 28-37), with [padStart] and
      [Number.prototype.toString] on non-negative integers, a parser of
      its output and the round trip.
    - [Audio]: the [HTMLAudioElement] held in [audioRef] (line 59), as far
      as the component uses it: [play()], [pause()], [currentTime = 0],
      [loop], [volume], [src].  A browser collaborator, not repository
      code: it is not in the map.
    - [Timer]: the timer engine.  [Module Timer] holds the record of the
      timer state ([mode], [timeLeft], [customTime], [isActive],
      [isAlarmRinging], the refs [endTimeRef] and [timerRef]), the
      handlers [switchMode], [toggleTimer], [resetTimer], [stopAlarm],
      [adjustTime], [handleTimerFinished], the interval callback of the
      timer effect ([tick]), the visibility handler
      ([handleVisibilityChange]) and the effect itself ([timer_effect],
      run by [commit] when [isActive] or the mode changed).
    - [TimerRun]: the timer as a transition system: a world (timer, audio
      element, clock, [document.hidden], notification permission, the
      notifications raised) and a step relation with one rule per event
      (a click on a control, an interval tick, a visibility change, time
      passing); reachability from the first render, the invariant and its
      preservation, runs of ticks.
    - [TimerSpec]: the abstract state machine of the timer's contract
      (Idle / Running / Ringing) and the refinement theorem: every step of
      the component is a step of the abstract machine or a stutter.
    - [Json]: [JSON.stringify] of the alarm list (an array of objects
      [{id, name, data}], line 245) and [JSON.parse] on the texts that
      denote such lists, with the round trip.  Browser functions, not in
      the map.
    - [Alarms]: [Module Alarms], the alarm settings: the hooks
      [isOptionsOpen], [customAlarms], [selectedAlarm] (lines 46-54) with
      their lazy initial states read from [localStorage] (a [gmap] from
      keys to strings), the pending file readers, the handlers
      [selectAlarm], [deleteAlarm], [handleFileChange] and
      [reader_onload], and the three effects of lines 69-88
      ([commit_alarms]: save the list when the array changed, save the
      selection when it changed, point the audio element at the selected
      sound).  [localStorage] has a quota ([Quota], in characters of keys
      and values): [setItem] throws past it, and nothing in the component
      catches the throw.
    - [AlarmRun]: the settings dialog as a transition system: the events
      of the view ([AEvent]), which of them the view offers ([enabled]),
      reachability from a mount and the invariant (storage in step,
      selection valid, element on the selected sound).
    - [App]: the whole component: the timer world and the alarm settings
      share one audio element; a step is a timer step or a dialog event
      whose saves fit the quota.  An event whose save throws unmounts the
      component: [unmount_cleanup] runs the cleanup functions of the
      effects (lines 95-98, 132, 147) and [crash] is what remains.
    - [Electron]: [Module Electron], the main process of
      [src/electron/main.cjs]: the script (hardware acceleration, the
      single-instance lock, the registrations), [createWindow] with its
      options and window-open handler, the listeners of [second-instance],
      [whenReady], [activate] and [window-all-closed], and the events of
      the application as a step relation from the script.  The section
      variables are [app.isPackaged], [__dirname] and [process.platform].
    - [Build]: [Module Build], [src/vite.config.js]: the configuration
      record and its value, with Vite's defaults for the options it
      leaves out.  It gives [path.join] and the resolution of a page's
      references their meaning on path segments.  It relates [base] to
      the page the packaged window loads, and the dev server's port to
      the URL of the dev window.  [esbuild.drop] is a pass on a syntax of
      handler bodies ([Stmt]) whose semantics are the statements run and
      the console output.
    - [View]: [Module View], the JSX [App] returns (lines 299-652) as a
      tree of elements carrying the attributes that depend on the state
      and the message each handler sends; it ties the markup to the
      guards of [TimerRun] and [AlarmRun], to the steps of [App], and to
      the window-open handler of [Electron].
    - [Title]: [document.title], written by the interval callback,
      [handleTimerFinished] and the title effect, over the steps of
      [App].
    - [Schema]: the types of the two [localStorage] values the component
      reads back, and their preservation across sessions.

    ** How the parts interact

    The timer engine and the settings never read each other's state: the
    only shared resource is the element in [audioRef], which the timer
    plays, pauses and rewinds, and whose [src] the settings effect assigns.
    [Audio.AudioDevice] is that interface (with [AudioLaws]); the timer's
    theorems are proved against it, [AudioEl] discharges it, and [App]
    shows that each half preserves the other's invariant and that an
    assignment of [src] silences a ringing alarm.

    ** Order of the plan

    1. timer engine; 2. alarm settings; 3. persistence; 4. the view's
    event dispatch; 5. the component as a whole; 6. the Electron main
    process; 7. the rendered markup; 8. the document title and the
    schema of the storage; 9. the build configuration and what it fixes
    for the main process and the bundle.  All are done; what is left out
    is listed below, with the reason.

    ** What the theorems show

    - functional behaviour of every timer handler, on every branch
      ([Timer]);
    - the drift-freedom of the countdown: a tick's result depends only on
      the end instant and the clock, so missed or delayed ticks change
      nothing ([TimerRun]);
    - the invariant of reachable states: the interval runs iff the timer
      is active, an active timer has an end instant, the displayed
      seconds never under-report the true remaining time, the audio plays
      only while the alarm rings ([TimerRun]);
    - the alarm fires exactly when the clock passes the end instant, and
      exactly once in a run of ticks ([TimerRun]);
    - pausing never shortens the countdown ([TimerRun]).  In every
      reachable state where the countdown ended while the page was
      hidden, a pause between the visibility resync (which shows [00:00])
      and the next tick loses the alarm;
    - refinement of the abstract contract ([TimerSpec]);
    - [formatTime] parses back, hence is injective, and has the shape
      MM:SS or H:MM:SS ([Format]);
    - for the settings ([Alarms], [AlarmRun]):
      - the JSON round trip ([Json]);
      - while the component is mounted, the storage holds the state
        within the quota, and a reload restores the settings;
      - a deletion is persisted and never overflows the quota;
      - files over 2 MB are rejected;
      - a stored list that is not JSON text aborts the mount;
      - a reader restores an alarm deleted during the read;
    - both invariants together, the silencing of a ringing alarm by a
      deletion in the dialog, and what an upload past the quota does: it
      unmounts the component, whose cleanups silence the alarm and stop
      the interval, and the upload is lost on reload ([App]);
    - the main process keeps at most one window, always with the options
      and the page of [createWindow].  A locked-out process quits and
      opens no window even if [ready] fires before the quit; a second launch
      focuses the window; pages never open windows and only [https:]
      links reach the browser; closing the last window quits except on
      macOS ([Electron]);
    - the view offers exactly the controls the guards admit, the dialog
      marks the selection (exactly once when ids are distinct), and the
      links reach the browser through the main process's handler
      ([View]);
    - the title is the constant ["Tomidoro"] from the first render on,
      against the comments of the interval callback ([Title]); the storage of every reachable state is well typed and
      mounts the next session into a valid start ([Schema]);
    - the packaged window loads the built page, and the page's asset
      references ([base './']) and the icon name the files the build
      wrote (with [base '/'] they would miss).  The dev window shows the
      dev server exactly when port 5173 was free.  For bodies whose
      console calls evaluate no call, the bundle that esbuild's [drop]
      produces runs the statements of the source in the same order, and
      neither logs nor stops at [debugger] ([Build]).

    ** Modelling choices and bounds

    - One event is handled at a time and React renders and runs the
      effects of that event before the next one (React 18 batches the
      setters of one handler).  A handler reads the state of the render it
      belongs to and writes refs at once, which the functions reproduce by
      reading the old record and building the new one.
    - [Date.now()] is an integer of milliseconds, [diff / 1000] is exact
      division and [Math.ceil] its ceiling: exact for the timer's
      magnitudes (durations far below 2^53 ms).
    - Fuel: only [Json.json_decode] recurses on something that is not a
      subterm; it gives [parse_items] the length of the text as fuel,
      which is enough because every item consumes at least one character
      (the round trip proves it on every list).  Every handler is
      straight-line code; runs of ticks are lists of instants.
    - Characters are 8-bit ([ascii]); file contents are the data URL
      [readAsDataURL] produced, taken as given.
    - Paths are lists of segments.  [Electron] keeps [path.join]
      symbolic ([Join]) and [Build] interprets it; the project root is
      any list of plain names, with [main.cjs] in [root/electron].  The
      dev server tries [length busy + 1] ports, enough for one of them
      to be free (pigeonhole, [Build.try_ports_enough]).
    - Vite, esbuild, Node's [path] and the browser are libraries: their
      behaviour is modelled from their documentation and is not in the
      map.  Vite's own output (the hashed asset names) is any plain
      file name.
    - The storage quota is a parameter ([Quota]).  The sessions of the
      examples use the 5 MiB of the common browsers, and a quota of 64
      characters for the upload that overflows.
    - [JSON.parse] is [Json.json_decode].  It agrees with the browser on
      the texts [JSON.stringify] writes and on the texts whose first
      character can start no JSON text.  It also rejects JSON with white
      space or with other values, which the component never writes.
    - The cleanup functions of the effects are modelled where they run.
      The timer effect's runs before the effect runs again
      ([timer_effect] clears the interval).  All of them run at the
      unmount that follows a save that throws ([App.unmount_cleanup]).
      Closing the window destroys the page without running them.
    - Not modelled: the CSS text and the SVG data of the icons, which
      are constant markup with no behaviour. *)

From stdpp Require Export base list strings gmap.
From Stdlib Require Export ZArith Lia.

Declare Scope tomi_scope.
Delimit Scope tomi_scope with tomi.
Open Scope Z_scope.

(** ** JavaScript number helpers *)

(** [Math.ceil(a / b)] for integers [a], [b] with [b > 0]. *)
Definition ceil_div (a b : Z) : Z := - ((- a) / b).

Notation "a /^ b" := (ceil_div a b) (at level 40, left associativity) : tomi_scope.
Open Scope tomi_scope.

(** A ref that holds a number or [null]: [ref.current] in a boolean
    position ([if (!ref.current)]) and in an arithmetic one
    ([ref.current - now], where [null] is coerced to [0]). *)
Definition ref_truthy (r : option Z) : bool :=
  match r with Some e => negb (e =? 0) | None => false end.

Definition ref_num (r : option Z) : Z :=
  match r with Some e => e | None => 0 end.

(** [Math.max(0, Math.ceil(d / 1000))]: whole seconds left when [d]
    milliseconds remain. *)
Definition seconds_remaining (d : Z) : Z := Z.max 0 (d /^ 1000).

(** ** Lemmas on the helpers *)

Create HintDb tomi.
Create Rewrite HintDb tomi_rw.

Lemma ceil_div_spec a b : 0 < b -> b * (a /^ b) - b < a <= b * (a /^ b).
Proof.
  intros Hb. unfold ceil_div.
  pose proof (Z.div_mod (- a) b ltac:(lia)).
  pose proof (Z.mod_pos_bound (- a) b Hb). lia.
Qed.

Lemma ceil_div_le_iff a b k : 0 < b -> (a /^ b <= k <-> a <= b * k).
Proof.
  intros Hb. pose proof (ceil_div_spec a b Hb). split; intros H'.
  - nia.
  - destruct (Z.le_gt_cases (a /^ b) k) as [|Hgt]; [done|].
    assert (b * k <= b * (a /^ b) - b) by nia. lia.
Qed.

Lemma ceil_div_add_mul a b k : 0 < b -> (a + b * k) /^ b = a /^ b + k.
Proof.
  intros Hb. unfold ceil_div.
  replace (- (a + b * k)) with (- a + (- k) * b) by lia.
  rewrite Z.div_add by lia. lia.
Qed.

Lemma ceil_div_mul b k : 0 < b -> (b * k) /^ b = k.
Proof.
  intros Hb. replace (b * k) with (0 + b * k) by lia.
  rewrite ceil_div_add_mul by done. done.
Qed.

Lemma ceil_div_mono a a' b : 0 < b -> a <= a' -> a /^ b <= a' /^ b.
Proof.
  intros Hb Ha. apply ceil_div_le_iff; [done|].
  pose proof (ceil_div_spec a' b Hb). lia.
Qed.

Lemma seconds_remaining_nonneg d : 0 <= seconds_remaining d.
Proof. unfold seconds_remaining. lia. Qed.

Lemma seconds_remaining_zero_iff d : seconds_remaining d <= 0 <-> d <= 0.
Proof.
  unfold seconds_remaining. rewrite Z.max_lub_iff.
  rewrite (ceil_div_le_iff d 1000 0) by lia. lia.
Qed.

(** The whole seconds shown never under-report the milliseconds left. *)
Lemma seconds_remaining_covers d : d <= 1000 * seconds_remaining d.
Proof.
  unfold seconds_remaining. pose proof (ceil_div_spec d 1000 ltac:(lia)). lia.
Qed.

Lemma seconds_remaining_mono d d' : d <= d' -> seconds_remaining d <= seconds_remaining d'.
Proof.
  intros H. unfold seconds_remaining.
  pose proof (ceil_div_mono d d' 1000 ltac:(lia) H). lia.
Qed.

Lemma seconds_remaining_whole k : 0 <= k -> seconds_remaining (1000 * k) = k.
Proof. intros Hk. unfold seconds_remaining. rewrite ceil_div_mul by lia. lia. Qed.

Lemma ref_truthy_pos e : 0 < e -> ref_truthy (Some e) = true.
Proof. intros H. simpl. destruct (Z.eqb_spec e 0); [lia | done]. Qed.

#[export] Hint Resolve seconds_remaining_nonneg seconds_remaining_covers : tomi.
#[export] Hint Resolve ref_truthy_pos : tomi.

(** ** Tactics *)

(** Split every boolean test on integers in the goal and in the
    hypotheses into the propositions they decide. *)
Ltac z_cases :=
  repeat match goal with
  | |- context [Z.gtb ?a ?b] => rewrite (Z.gtb_ltb a b)
  | |- context [Z.geb ?a ?b] => rewrite (Z.geb_leb a b)
  | |- context [Z.eqb ?a ?b] => destruct (Z.eqb_spec a b)
  | |- context [Z.leb ?a ?b] => destruct (Z.leb_spec a b)
  | |- context [Z.ltb ?a ?b] => destruct (Z.ltb_spec a b)
  | H : context [Z.eqb ?a ?b] |- _ => destruct (Z.eqb_spec a b)
  | H : context [Z.leb ?a ?b] |- _ => destruct (Z.leb_spec a b)
  | H : context [Z.ltb ?a ?b] |- _ => destruct (Z.ltb_spec a b)
  end.

(** Case on the [if]s of a goal whose condition is a boolean variable or
    test, closing what [simplify_eq] and [lia] close. *)
Ltac if_cases :=
  repeat (case_match; simplify_eq/=); try lia.

(** [lia] after turning [/] and [mod] into their Euclidean equations
    (this [lia] does not do it by itself). *)
Ltac zlia := Z.div_mod_to_equations; lia.

(** ** Strings *)

(** stdpp keeps [String.append] from unfolding under [simpl]; this is its
    defining equation. *)
Lemma string_app_cons (x : Ascii.ascii) (a b : string) : String x a +:+ b = String x (a +:+ b).
Proof. reflexivity. Qed.

Lemma string_app_nil_l (a : string) : EmptyString +:+ a = a.
Proof. reflexivity. Qed.

Lemma string_app_assoc (a b c : string) : (a +:+ b) +:+ c = a +:+ (b +:+ c).
Proof. induction a as [|x a IH]; [done|]. rewrite !string_app_cons. congruence. Qed.

Lemma string_length_app (a b : string) :
  String.length (a +:+ b) = (String.length a + String.length b)%nat.
Proof. induction a as [|x a IH]; [done|]. rewrite string_app_cons. simpl. lia. Qed.

Lemma string_app_nil_r (a : string) : a +:+ EmptyString = a.
Proof. induction a as [|x a IH]; [done|]. rewrite !string_app_cons. congruence. Qed.

#[export] Hint Rewrite string_app_cons string_app_nil_l string_app_assoc string_app_nil_r : tomi_rw.
