(* ===== verification/Modes.v ===== *)
(** * The timer presets: [MODES] of App.jsx (lines 5-26)

    The component keys its presets by strings ([mode] is a string state
    that only ever holds a key of [MODES], since [switchMode] is only
    called from the tabs rendered by [Object.keys(MODES).map]); the model
    makes the key an enumeration with the source's four constructors and
    keeps the table's three fields. *)

From S2P Require Import Prelude.
Open Scope Z_scope.

Inductive Mode := Pomodoro | Short | Long | Custom.

#[export] Instance Mode_eq_dec : EqDecision Mode.
Proof. solve_decision. Defined.

(** The key of a mode in [MODES]. *)
Definition mode_key (m : Mode) : string :=
  match m with
  | Pomodoro => "pomodoro" | Short => "short" | Long => "long" | Custom => "custom"
  end.

(** [MODES[key]] for an arbitrary string: [undefined] outside the four keys. *)
Definition mode_of_key (k : string) : option Mode :=
  if decide (k = "pomodoro") then Some Pomodoro
  else if decide (k = "short") then Some Short
  else if decide (k = "long") then Some Long
  else if decide (k = "custom") then Some Custom
  else None.

Record ModeInfo := { label : string; time : Z; color : string }.

Definition MODES (m : Mode) : ModeInfo :=
  match m with
  | Pomodoro => {| label := "Pomodoro"; time := 25 * 60; color := "var(--color-pomodoro)" |}
  | Short => {| label := "Short Break"; time := 5 * 60; color := "var(--color-short)" |}
  | Long => {| label := "Long Break"; time := 15 * 60; color := "var(--color-long)" |}
  | Custom => {| label := "Custom"; time := 0; color := "var(--color-custom)" |}
  end.

(** [Object.keys(MODES)]: the tabs, in the order the object literal
    declares them. *)
Definition mode_keys : list Mode := [Pomodoro; Short; Long; Custom].

(** The duration a mode restarts from, written three times in the
    component ([switchMode], [toggleTimer], [resetTimer]):
    [mode === 'custom' ? customTime : MODES[mode].time]. *)
Definition mode_duration (m : Mode) (customTime : Z) : Z :=
  if decide (m = Custom) then customTime else time (MODES m).

(** ** Facts about the table *)

Lemma mode_of_key_key m : mode_of_key (mode_key m) = Some m.
Proof. by destruct m. Qed.

Lemma mode_keys_complete m : m ∈ mode_keys.
Proof. destruct m; set_solver. Qed.

Lemma mode_keys_NoDup : NoDup mode_keys.
Proof. apply (bool_decide_unpack _). by vm_compute. Qed.

Lemma mode_time_nonneg m : 0 <= time (MODES m).
Proof. destruct m; simpl; lia. Qed.

Lemma mode_duration_nonneg m c : 0 <= c -> 0 <= mode_duration m c.
Proof. intros. unfold mode_duration. case_decide; [done | apply mode_time_nonneg]. Qed.

Lemma mode_duration_fixed m c : m <> Custom -> mode_duration m c = time (MODES m).
Proof. intros. unfold mode_duration. by case_decide. Qed.

Lemma mode_duration_custom c : mode_duration Custom c = c.
Proof. done. Qed.

#[export] Hint Resolve mode_time_nonneg mode_duration_nonneg : tomi.
#[export] Hint Rewrite mode_duration_custom : tomi_rw.
