(* ===== verification/Format.v ===== *)
(** * The clock display: [formatTime] (App.jsx lines 28-37)

    [formatTime(seconds)] prints [H:MM:SS] from one hour on and [MM:SS]
    below, with [Math.floor], [%], [Number.prototype.toString] and
    [String.prototype.padStart(2, '0')].  The file models those four
    JavaScript operations on integers, defines a parser of the display
    ([parseTime], a specification, not code) and proves that the display
    of a non-negative number of seconds parses back to it: the display is
    injective, and has three fields exactly from one hour on. *)

From S2P Require Import Prelude.
From Stdlib Require Import Ascii DecimalString DecimalN DecimalFacts.
Open Scope Z_scope.

(** ** The JavaScript string operations *)

(** Decimal digits of a natural number, most significant first. *)
Definition digits (n : N) : string := NilEmpty.string_of_uint (N.to_uint n).

(** [z.toString()] for an integer [z]. *)
Definition js_toString (z : Z) : string :=
  if z <? 0 then String "-"%char (digits (Z.to_N (- z))) else digits (Z.to_N z).

(** [s.padStart(len, c)] with a one-character pad string. *)
Definition padStart (s : string) (len : nat) (c : ascii) : string :=
  if (String.length s <? len)%nat
  then Nat.iter (len - String.length s) (String c) s else s.

Definition formatTime (seconds : Z) : string :=
  let h := seconds / 3600 in
  let m := Z.rem seconds 3600 / 60 in
  let s := Z.rem seconds 60 in
  if 0 <? h
  then js_toString h +:+ ":" +:+ padStart (js_toString m) 2 "0"%char +:+ ":"
         +:+ padStart (js_toString s) 2 "0"%char
  else padStart (js_toString m) 2 "0"%char +:+ ":" +:+ padStart (js_toString s) 2 "0"%char.

(** ** A reader of the display *)

Fixpoint split_colon (s : string) : list string :=
  match s with
  | EmptyString => [""%string]
  | String c rest =>
      if Ascii.eqb c ":"%char then ""%string :: split_colon rest
      else match split_colon rest with
           | w :: ws => String c w :: ws
           | [] => [String c ""%string]
           end
  end.

Definition parse_N (s : string) : option N := N.of_uint <$> NilEmpty.uint_of_string s.

Definition parseTime (s : string) : option Z :=
  match split_colon s with
  | [m; sec] => m' ← parse_N m; s' ← parse_N sec; Some (Z.of_N m' * 60 + Z.of_N s')
  | [h; m; sec] =>
      h' ← parse_N h; m' ← parse_N m; s' ← parse_N sec;
      Some (Z.of_N h' * 3600 + Z.of_N m' * 60 + Z.of_N s')
  | _ => None
  end.

(** ** Lemmas on digit strings *)

Fixpoint no_colon (s : string) : bool :=
  match s with
  | EmptyString => true
  | String c rest => negb (Ascii.eqb c ":"%char) && no_colon rest
  end.

Lemma split_colon_no_colon s : no_colon s = true -> split_colon s = [s].
Proof.
  induction s as [|c s IH]; simpl; [done|].
  intros [Hc Hs]%andb_prop. apply negb_true_iff in Hc. rewrite Hc, IH by done. done.
Qed.

Lemma split_colon_app s t :
  no_colon s = true -> split_colon (s +:+ String ":"%char t) = s :: split_colon t.
Proof.
  induction s as [|c s IH]; simpl; [done|].
  intros [Hc Hs]%andb_prop. apply negb_true_iff in Hc. rewrite Hc, IH by done. done.
Qed.

Lemma split_colon_sep s t :
  no_colon s = true -> split_colon (s +:+ ":" +:+ t) = s :: split_colon t.
Proof. apply split_colon_app. Qed.

Lemma no_colon_digits d : no_colon (NilEmpty.string_of_uint d) = true.
Proof. induction d; simpl; done. Qed.

Lemma string_of_uint_iter_D0 k d :
  NilEmpty.string_of_uint (Nat.iter k Decimal.D0 d)
  = Nat.iter k (String "0"%char) (NilEmpty.string_of_uint d).
Proof. induction k; simpl; [done|]. by rewrite IHk. Qed.

Lemma js_toString_nonneg z : 0 <= z -> js_toString z = digits (Z.to_N z).
Proof. intros. unfold js_toString. z_cases; [lia | done]. Qed.

(** A zero-padded non-negative number reads back as itself. *)
Lemma digits_nonempty n : digits n <> "".
Proof.
  unfold digits. pose proof (DecimalN.Unsigned.of_to n) as E. intros H.
  destruct (N.to_uint n) eqn:Hu; try discriminate H.
  simpl in E. subst n. vm_compute in Hu. discriminate Hu.
Qed.

(** [Date.now().toString()] is never the empty string. *)
Lemma js_toString_nonempty z : js_toString z <> "".
Proof. unfold js_toString. z_cases; [discriminate | apply digits_nonempty]. Qed.

Lemma parse_padStart_digits z k :
  0 <= z -> parse_N (padStart (js_toString z) k "0"%char) = Some (Z.to_N z).
Proof.
  intros Hz. rewrite js_toString_nonneg by done. unfold padStart, digits.
  assert (Hit : forall j, parse_N (Nat.iter j (String "0"%char)
             (NilEmpty.string_of_uint (N.to_uint (Z.to_N z)))) = Some (Z.to_N z)).
  { intros j. rewrite <- string_of_uint_iter_D0. unfold parse_N.
    rewrite NilEmpty.usu. simpl. f_equal.
    rewrite <- Unsigned.of_uint_norm, unorm_iter_D0, Unsigned.of_uint_norm.
    apply Unsigned.of_to. }
  destruct (_ <? _)%nat; [apply Hit | apply (Hit 0%nat)].
Qed.

Lemma no_colon_padStart z k : 0 <= z -> no_colon (padStart (js_toString z) k "0"%char) = true.
Proof.
  intros Hz. rewrite js_toString_nonneg by done. unfold padStart, digits.
  destruct (_ <? _)%nat; [|apply no_colon_digits].
  rewrite <- string_of_uint_iter_D0. apply no_colon_digits.
Qed.

Lemma no_colon_js_toString z : 0 <= z -> no_colon (js_toString z) = true.
Proof. intros Hz. rewrite js_toString_nonneg by done. apply no_colon_digits. Qed.

#[export] Hint Resolve no_colon_padStart no_colon_js_toString : tomi.

(** The fields of the display of [n] seconds, as [formatTime] computes
    them. *)
Lemma formatTime_fields n :
  0 <= n ->
  split_colon (formatTime n) =
    (if 0 <? n / 3600 then [js_toString (n / 3600)] else [])
    ++ [padStart (js_toString (Z.rem n 3600 / 60)) 2 "0"%char;
        padStart (js_toString (Z.rem n 60)) 2 "0"%char].
Proof.
  intros Hn. rewrite !Z.rem_mod_nonneg by lia.
  assert (0 <= n mod 3600 / 60) by zlia.
  assert (0 <= n mod 60) by zlia.
  unfold formatTime. cbv zeta. rewrite !Z.rem_mod_nonneg by lia.
  destruct (0 <? n / 3600) eqn:Hh; z_cases;
    rewrite !split_colon_sep, split_colon_no_colon by auto with tomi zarith; done.
Qed.

Lemma parse_js_toString z : 0 <= z -> parse_N (js_toString z) = Some (Z.to_N z).
Proof. intros Hz. exact (parse_padStart_digits z 0 Hz). Qed.

(** ** The display reads back *)

(** The display parses back (shared form). *)
Lemma parse_formatTime n : 0 <= n -> parseTime (formatTime n) = Some n.
Proof.
  intros Hn. unfold parseTime. rewrite formatTime_fields by done.
  rewrite !Z.rem_mod_nonneg by lia.
  assert (0 <= n mod 3600 / 60) by zlia. assert (0 <= n mod 60) by zlia.
  destruct (0 <? n / 3600) eqn:Hh; z_cases; simpl;
    rewrite ?parse_js_toString, !parse_padStart_digits by lia; simpl;
    rewrite ?Z2N.id by lia; f_equal; zlia.
Qed.

(** C17: the display of a non-negative number of seconds parses back to
    that number: [formatTime] loses nothing. *)
Theorem formatTime_roundtrip n : 0 <= n -> parseTime (formatTime n) = Some n.
Proof. apply parse_formatTime. Qed.

(** Two non-negative numbers of seconds with the same display are
    equal: the display never shows two different times alike. *)
Corollary formatTime_inj n n' :
  0 <= n -> 0 <= n' -> formatTime n = formatTime n' -> n = n'.
Proof.
  intros Hn Hn' Heq. apply (f_equal parseTime) in Heq.
  rewrite !parse_formatTime in Heq by done. congruence.
Qed.

(** C18: The display has the three fields [H:MM:SS] exactly from one hour on,
    and the two fields [MM:SS] below. *)
Theorem formatTime_shape n :
  0 <= n -> length (split_colon (formatTime n)) = if n <? 3600 then 2%nat else 3%nat.
Proof.
  intros Hn. rewrite formatTime_fields by done.
  destruct (0 <? n / 3600) eqn:Hh; z_cases; simpl; try done; exfalso; zlia.
Qed.

(** ** Witnesses *)

Lemma formatTime_roundtrip_witness : 0 <= 3725 /\ parseTime (formatTime 3725) = Some 3725.
Proof. split; [lia | apply (formatTime_roundtrip 3725); lia]. Defined.

Lemma formatTime_inj_witness :
  0 <= 59 /\ 0 <= 59 /\ formatTime 59 = formatTime 59 /\ 59 = 59.
Proof. refine (conj _ (conj _ (conj eq_refl (formatTime_inj 59 59 _ _ eq_refl)))); lia. Defined.

Lemma formatTime_shape_witness :
  0 <= 3600 /\ length (split_colon (formatTime 3600)) = if 3600 <? 3600 then 2%nat else 3%nat.
Proof. split; [lia | apply (formatTime_shape 3600); lia]. Defined.
