(* ===== verification/Audio.v ===== *)
(** * The audio collaborator

    The component keeps one [HTMLAudioElement] in [audioRef] (App.jsx line
    59) and uses five of its operations: [play()] (which returns a promise
    that rejects when the source cannot be played), [pause()],
    [currentTime = 0], [src = ...] and the [loop]/[volume] settings.

    [AudioDevice] is the interface the timer engine is proved against:
    what the engine needs of the device is whether it is playing and which
    source it holds, and the laws [AudioLaws] say how each operation
    changes them.  [AudioEl]
    is the browser element as far as the component uses it; its instance
    discharges the laws.  The element is a browser collaborator, not code
    of the repository. *)

From S2P Require Import Prelude.
From Stdlib Require Import QArith.
Open Scope Z_scope.

Class AudioDevice (A : Type) := {
  audio_play : bool -> A -> A;   (** [play()]; the flag says whether the source plays *)
  audio_pause : A -> A;          (** [pause()] *)
  audio_rewind : A -> A;         (** [currentTime = 0] *)
  audio_set_src : string -> A -> A;  (** [src = url] *)
  audio_playing : A -> bool;     (** [!paused] *)
  audio_at_start : A -> bool;    (** [currentTime === 0] *)
  audio_src : A -> string        (** [src] *)
}.

Class AudioLaws (A : Type) `{AudioDevice A} := {
  play_ok_playing a : audio_playing (audio_play true a) = true;
  play_fail_same a : audio_play false a = a;
  pause_not_playing a : audio_playing (audio_pause a) = false;
  rewind_playing a : audio_playing (audio_rewind a) = audio_playing a;
  rewind_at_start a : audio_at_start (audio_rewind a) = true;
  set_src_silent url a : audio_playing (audio_set_src url a) = false;
  set_src_src url a : audio_src (audio_set_src url a) = url;
  play_src ok a : audio_src (audio_play ok a) = audio_src a;
  pause_src a : audio_src (audio_pause a) = audio_src a;
  rewind_src a : audio_src (audio_rewind a) = audio_src a
}.

(** ** The HTMLAudioElement *)

Record AudioEl := mkAudio {
  src : string;
  paused : bool;
  at_start : bool;   (** [currentTime] is [0] *)
  loop : bool;
  volume : Q
}.

(** [new Audio(url)]: paused at the start of the source, volume 1. *)
Definition new_audio (url : string) : AudioEl :=
  {| src := url; paused := true; at_start := true; loop := false; volume := 1 |}.

(** [play()]: when the source can be played the element leaves the paused
    state and the position moves on; when the promise rejects nothing
    changes (the rejection is caught and logged by the component). *)
Definition el_play (ok : bool) (a : AudioEl) : AudioEl :=
  if ok then {| src := src a; paused := false; at_start := false; loop := loop a; volume := volume a |}
  else a.

Definition el_pause (a : AudioEl) : AudioEl :=
  {| src := src a; paused := true; at_start := at_start a; loop := loop a; volume := volume a |}.

Definition el_rewind (a : AudioEl) : AudioEl :=
  {| src := src a; paused := paused a; at_start := true; loop := loop a; volume := volume a |}.

(** [src = url]: assigning the attribute, even to the value it holds,
    runs the media element load algorithm, which pauses the element and
    moves it back to the start. *)
Definition el_set_src (url : string) (a : AudioEl) : AudioEl :=
  {| src := url; paused := true; at_start := true; loop := loop a; volume := volume a |}.

(** The configuration effect of App.jsx lines 91-94 ([loop = true],
    [volume = 0.6]). *)
Definition el_configure (a : AudioEl) : AudioEl :=
  {| src := src a; paused := paused a; at_start := at_start a; loop := true; volume := 3 # 5 |}.

(** [audioRef] after the mount: [new Audio(defaultAlarmSound)] (line 59)
    configured by the effect of lines 91-94. *)
Definition audioRef_initial : AudioEl := el_configure (new_audio "/alarm.wav").

#[export] Instance AudioEl_device : AudioDevice AudioEl := {
  audio_play := el_play;
  audio_pause := el_pause;
  audio_rewind := el_rewind;
  audio_set_src := el_set_src;
  audio_playing a := negb (paused a);
  audio_at_start := at_start;
  audio_src := src
}.

#[export] Instance AudioEl_laws : AudioLaws AudioEl.
Proof. split; intros; try destruct ok; by destruct a. Qed.

Lemma el_configure_playing a : audio_playing (el_configure a) = audio_playing a.
Proof. done. Qed.

(** Rewrite with the laws of the device in the goal. *)
Ltac audio_simpl :=
  repeat first [ rewrite play_ok_playing | rewrite play_fail_same | rewrite pause_not_playing
               | rewrite rewind_playing | rewrite rewind_at_start | rewrite set_src_silent
               | rewrite set_src_src | rewrite play_src | rewrite pause_src | rewrite rewind_src ].
