(* ===== verification/Timer.v ===== *)
(** * The timer engine of App.jsx

    [TimerState] gathers the hooks of [App] that the timer reads and
    writes: the states [mode], [timeLeft], [customTime], [isActive],
    [isAlarmRinging] (lines 40-44) and the refs [endTimeRef] (the end
    instant in milliseconds, or [null]) and [timerRef] (whether an
    interval is scheduled).  The audio element is any [AudioDevice].

    A handler reads the state of the render it belongs to, so each
    function below reads the old record and returns the new one; the
    refs it writes change at once, the states at the next render.  After
    the render, [commit] runs the timer effect (lines 102-133) when its
    dependencies [isActive] and [currentMode] changed. *)

From S2P Require Import Prelude Modes Audio.
Open Scope Z_scope.

Module Timer.

Record TimerState := mkTimer {
  mode : Mode;
  timeLeft : Z;
  customTime : Z;
  isActive : bool;
  isAlarmRinging : bool;
  endTimeRef : option Z;
  timerRef : bool
}.

(** A system notification: title and body. *)
Definition Note := (string * string)%type.

(** The first render: 25:00 in pomodoro mode, custom time 0, no interval. *)
Definition initial : TimerState :=
  {| mode := Pomodoro; timeLeft := time (MODES Pomodoro); customTime := time (MODES Custom);
     isActive := false; isAlarmRinging := false; endTimeRef := None; timerRef := false |}.

Section Handlers.
Context {A : Type} `{AudioDevice A}.

(** [stopAlarm] (lines 220-224). *)
Definition stopAlarm (t : TimerState) (a : A) : TimerState * A :=
  ({| mode := mode t; timeLeft := timeLeft t; customTime := customTime t;
      isActive := isActive t; isAlarmRinging := false;
      endTimeRef := endTimeRef t; timerRef := timerRef t |},
   audio_rewind (audio_pause a)).

(** [switchMode(newMode)] (lines 172-183). *)
Definition switchMode (newMode : Mode) (t : TimerState) (a : A) : TimerState * A :=
  let '(t1, a1) := stopAlarm t a in
  ({| mode := newMode; timeLeft := mode_duration newMode (customTime t);
      customTime := customTime t1; isActive := false; isAlarmRinging := isAlarmRinging t1;
      endTimeRef := None; timerRef := timerRef t1 |}, a1).

(** [toggleTimer] (lines 185-207), at the instant [now] of [Date.now()]. *)
Definition toggleTimer (now : Z) (t : TimerState) (a : A) : TimerState * A :=
  if isAlarmRinging t then stopAlarm t a
  else if negb (isActive t) && (timeLeft t =? 0) then
    let duration := mode_duration (mode t) (customTime t) in
    if duration <=? 0 then (t, a)
    else ({| mode := mode t; timeLeft := duration; customTime := customTime t;
             isActive := true; isAlarmRinging := isAlarmRinging t;
             endTimeRef := Some (now + duration * 1000); timerRef := timerRef t |}, a)
  else ({| mode := mode t; timeLeft := timeLeft t; customTime := customTime t;
           isActive := negb (isActive t); isAlarmRinging := isAlarmRinging t;
           endTimeRef := if negb (isActive t) then Some (now + timeLeft t * 1000) else None;
           timerRef := timerRef t |}, a).

(** [resetTimer] (lines 209-218). *)
Definition resetTimer (t : TimerState) (a : A) : TimerState * A :=
  let '(t1, a1) := stopAlarm t a in
  ({| mode := mode t1; timeLeft := mode_duration (mode t) (customTime t);
      customTime := customTime t1; isActive := false; isAlarmRinging := isAlarmRinging t1;
      endTimeRef := None; timerRef := timerRef t1 |}, a1).

(** [adjustTime(amount)] (lines 227-233). *)
Definition adjustTime (amount : Z) (t : TimerState) (a : A) : TimerState * A :=
  if bool_decide (mode t <> Custom) || isActive t then (t, a)
  else
    let newTime := Z.max 0 (customTime t + amount) in
    ({| mode := mode t; timeLeft := newTime; customTime := newTime;
        isActive := isActive t; isAlarmRinging := isAlarmRinging t;
        endTimeRef := endTimeRef t; timerRef := timerRef t |}, a).

(** [handleTimerFinished] (lines 150-163): [granted] is
    [Notification.permission === 'granted'], [ok] whether the selected
    source plays. *)
Definition handleTimerFinished (granted ok : bool) (t : TimerState) (a : A)
    : TimerState * A * option Note :=
  ({| mode := mode t; timeLeft := 0; customTime := customTime t;
      isActive := false; isAlarmRinging := true;
      endTimeRef := endTimeRef t; timerRef := false |},
   audio_play ok a,
   if granted then Some ("Timer Finished!", label (MODES (mode t)) +:+ " is over.")
   else None).

(** The interval callback of the timer effect (lines 108-126), run at
    [now] with [document.hidden] = [hidden]. *)
Definition tick (now : Z) (hidden granted ok : bool) (t : TimerState) (a : A)
    : TimerState * A * option Note :=
  let secondsRemaining := seconds_remaining (ref_num (endTimeRef t) - now) in
  let t1 := if hidden then t
            else {| mode := mode t; timeLeft := secondsRemaining; customTime := customTime t;
                    isActive := isActive t; isAlarmRinging := isAlarmRinging t;
                    endTimeRef := endTimeRef t; timerRef := timerRef t |} in
  if secondsRemaining <=? 0 then handleTimerFinished granted ok t1 a else (t1, a, None).

End Handlers.

(** [handleVisibilityChange] (lines 137-144), run when the page becomes
    [hidden] or visible at [now]. *)
Definition handleVisibilityChange (now : Z) (hidden : bool) (t : TimerState) : TimerState :=
  if negb hidden && isActive t && ref_truthy (endTimeRef t) then
    {| mode := mode t; timeLeft := seconds_remaining (ref_num (endTimeRef t) - now);
       customTime := customTime t; isActive := isActive t; isAlarmRinging := isAlarmRinging t;
       endTimeRef := endTimeRef t; timerRef := timerRef t |}
  else t.

(** The body of the timer effect (lines 102-133) after the cleanup of its
    previous run, which clears the interval. *)
Definition timer_effect (now : Z) (t : TimerState) : TimerState :=
  if isActive t then
    {| mode := mode t; timeLeft := timeLeft t; customTime := customTime t;
       isActive := true; isAlarmRinging := isAlarmRinging t;
       endTimeRef := if ref_truthy (endTimeRef t) then endTimeRef t
                     else Some (now + timeLeft t * 1000);
       timerRef := true |}
  else
    {| mode := mode t; timeLeft := timeLeft t; customTime := customTime t;
       isActive := false; isAlarmRinging := isAlarmRinging t;
       endTimeRef := None; timerRef := false |}.

(** The render after a handler: the effect runs when [isActive] or
    [currentMode] (one object per mode) changed. *)
Definition commit (now : Z) (old new : TimerState) : TimerState :=
  if bool_decide (isActive old = isActive new) && bool_decide (mode old = mode new)
  then new else timer_effect now new.

(** ** Functional behaviour of the handlers *)

Section HandlerFacts.
Context {A : Type} `{AudioLaws A}.
Implicit Types (a : A) (t : TimerState).

(** The duration a timer restarts from in its current mode. *)
Definition duration (t : TimerState) : Z := mode_duration (mode t) (customTime t).

(** C11: [switchMode] from any state resets the countdown to the new
    mode's duration, stops the timer and silences the alarm. *)
Theorem switchMode_spec m t a :
  let '(t', a') := switchMode m t a in
  mode t' = m /\ timeLeft t' = mode_duration m (customTime t) /\
  customTime t' = customTime t /\ isActive t' = false /\ isAlarmRinging t' = false /\
  endTimeRef t' = None /\ audio_playing a' = false /\ audio_at_start a' = true.
Proof.
  unfold switchMode, stopAlarm. simpl. audio_simpl. by repeat split.
Qed.

(** C15: [resetTimer] restores the current mode's duration, stops the timer
    and silences the alarm. *)
Theorem resetTimer_spec t a :
  let '(t', a') := resetTimer t a in
  mode t' = mode t /\ timeLeft t' = duration t /\ customTime t' = customTime t /\
  isActive t' = false /\ isAlarmRinging t' = false /\ endTimeRef t' = None /\
  audio_playing a' = false /\ audio_at_start a' = true.
Proof.
  unfold resetTimer, stopAlarm, duration. simpl. audio_simpl. by repeat split.
Qed.

(** While the alarm rings, the primary control only dismisses it. *)
Lemma toggle_ringing_eq now t a :
  isAlarmRinging t = true -> toggleTimer now t a = stopAlarm t a.
Proof. intros Hr. unfold toggleTimer. by rewrite Hr. Qed.

(** From [00:00] the primary control re-arms the mode's duration, or does
    nothing when that duration is not positive. *)
Lemma toggle_from_zero_eq now t a :
  isAlarmRinging t = false -> isActive t = false -> timeLeft t = 0 ->
  toggleTimer now t a =
    if duration t <=? 0 then (t, a)
    else ({| mode := mode t; timeLeft := duration t; customTime := customTime t;
             isActive := true; isAlarmRinging := false;
             endTimeRef := Some (now + duration t * 1000); timerRef := timerRef t |}, a).
Proof. intros Hr Ha Hz. unfold toggleTimer, duration. rewrite Hr, Ha, Hz. done. Qed.

(** Otherwise it starts or pauses: a start anchors the end instant
    [timeLeft] seconds after [now], a pause drops it. *)
Lemma toggle_start_pause_eq now t a :
  isAlarmRinging t = false -> (isActive t = true \/ timeLeft t <> 0) ->
  toggleTimer now t a =
    ({| mode := mode t; timeLeft := timeLeft t; customTime := customTime t;
        isActive := negb (isActive t); isAlarmRinging := false;
        endTimeRef := if isActive t then None else Some (now + timeLeft t * 1000);
        timerRef := timerRef t |}, a).
Proof.
  intros Hr Hcase. unfold toggleTimer. rewrite Hr.
  destruct (isActive t), (Z.eqb_spec (timeLeft t) 0); naive_solver.
Qed.

(** C16: [adjustTime] changes the custom duration and the display only in
    custom mode while stopped, and clamps both at [0]. *)
Theorem adjustTime_spec amount t a :
  let '(t', a') := adjustTime amount t a in
  a' = a /\ isActive t' = isActive t /\ isAlarmRinging t' = isAlarmRinging t /\
  endTimeRef t' = endTimeRef t /\
  if bool_decide (mode t = Custom) && negb (isActive t)
  then customTime t' = Z.max 0 (customTime t + amount) /\ timeLeft t' = customTime t'
  else customTime t' = customTime t /\ timeLeft t' = timeLeft t.
Proof.
  unfold adjustTime.
  destruct (decide (mode t = Custom)) as [Hc|Hc];
    [rewrite (bool_decide_false (mode t <> Custom)), (bool_decide_true (mode t = Custom)) by tauto
    |rewrite (bool_decide_true (mode t <> Custom)), (bool_decide_false (mode t = Custom)) by tauto];
    destruct (isActive t) eqn:Ha; simpl; by repeat split.
Qed.

(** The end instant as the interval callback reads it. *)
Definition end_of (t : TimerState) : Z := ref_num (endTimeRef t).

(** The state [handleTimerFinished] leaves. *)
Definition finished (t : TimerState) : TimerState :=
  {| mode := mode t; timeLeft := 0; customTime := customTime t;
     isActive := false; isAlarmRinging := true; endTimeRef := endTimeRef t; timerRef := false |}.

Definition finish_note (granted : bool) (m : Mode) : option Note :=
  if granted then Some ("Timer Finished!", label (MODES m) +:+ " is over.") else None.

(** Helper form of [tick_finishes], shared by the proofs of the other files. *)
Lemma tick_after_end_eq now hidden granted ok t a :
  end_of t <= now ->
  tick now hidden granted ok t a = (finished t, audio_play ok a, finish_note granted (mode t)).
Proof.
  intros Hle. unfold tick.
  assert (Hz : seconds_remaining (ref_num (endTimeRef t) - now) <= 0)
    by (apply seconds_remaining_zero_iff; unfold end_of in Hle; lia).
  apply Z.leb_le in Hz. rewrite Hz. by destruct hidden.
Qed.

(** A tick before the end instant only refreshes the display, when the
    page is visible. *)
Lemma tick_before_end_eq now hidden granted ok t a :
  now < end_of t ->
  tick now hidden granted ok t a =
    (if hidden then t
     else {| mode := mode t; timeLeft := seconds_remaining (end_of t - now);
             customTime := customTime t; isActive := isActive t;
             isAlarmRinging := isAlarmRinging t; endTimeRef := endTimeRef t;
             timerRef := timerRef t |}, a, None).
Proof.
  intros Hlt. unfold tick, end_of in *.
  assert (Hz : ~ seconds_remaining (ref_num (endTimeRef t) - now) <= 0)
    by (rewrite seconds_remaining_zero_iff; lia).
  apply Z.leb_nle in Hz. by rewrite Hz.
Qed.

(** C8: the countdown read after [e] milliseconds: a visible tick [e]
    milliseconds after a start that anchored [T] seconds shows
    [T - floor(e / 1000)] seconds, whatever ticks came before. *)
Theorem countdown_after_start start T e granted ok t a :
  endTimeRef t = Some (start + 1000 * T) -> 0 <= e < 1000 * T ->
  timeLeft (tick (start + e) false granted ok t a).1.1 = T - e / 1000.
Proof.
  intros HE He. rewrite tick_before_end_eq by (unfold end_of; rewrite HE; simpl; lia).
  simpl. unfold end_of, seconds_remaining. rewrite HE. simpl.
  replace (start + 1000 * T - (start + e)) with (- e + 1000 * T) by lia.
  rewrite ceil_div_add_mul by lia. unfold ceil_div. rewrite Z.opp_involutive.
  assert (e / 1000 < T) by (apply Z.div_lt_upper_bound; lia). lia.
Qed.

(** C9: a tick at or after the end instant finishes the countdown: the
    timer stops, the interval is cleared, the alarm rings and plays, and a
    notification is raised when permitted. *)
Theorem tick_finishes now hidden granted ok t a :
  end_of t <= now ->
  tick now hidden granted ok t a = (finished t, audio_play ok a, finish_note granted (mode t)).
Proof. apply tick_after_end_eq. Qed.

End HandlerFacts.

(** ** Witnesses *)

(** A pomodoro started at instant [0]: it ends at [1500000]. *)
Definition demo_running : TimerState :=
  {| mode := Pomodoro; timeLeft := 1500; customTime := 0; isActive := true;
     isAlarmRinging := false; endTimeRef := Some 1500000; timerRef := true |}.

Definition demo_ringing : TimerState :=
  {| mode := Pomodoro; timeLeft := 0; customTime := 0; isActive := false;
     isAlarmRinging := true; endTimeRef := None; timerRef := false |}.

Lemma tick_finishes_witness :
  end_of demo_running <= 1500200 /\
  tick 1500200 false true true demo_running audioRef_initial =
    (finished demo_running, audio_play true audioRef_initial, finish_note true Pomodoro).
Proof.
  split; [vm_compute; congruence|].
  apply (tick_finishes 1500200 false true true demo_running audioRef_initial). vm_compute; congruence.
Defined.

Lemma countdown_after_start_witness :
  endTimeRef demo_running = Some (0 + 1000 * 1500) /\ 0 <= 61500 < 1000 * 1500 /\
  timeLeft (tick (0 + 61500) false true true demo_running audioRef_initial).1.1 = 1500 - 61500 / 1000.
Proof.
  refine (conj eq_refl (conj (conj _ _)
    (countdown_after_start 0 1500 61500 true true demo_running audioRef_initial eq_refl (conj _ _))));
    vm_compute; congruence.
Defined.

Lemma switchMode_spec_witness :
  AudioLaws AudioEl /\
  (let '(t', a') := switchMode Short demo_running audioRef_initial in
   mode t' = Short /\ timeLeft t' = mode_duration Short (customTime demo_running) /\
   customTime t' = customTime demo_running /\ isActive t' = false /\ isAlarmRinging t' = false /\
   endTimeRef t' = None /\ audio_playing a' = false /\ audio_at_start a' = true).
Proof. exact (conj AudioEl_laws (switchMode_spec Short demo_running audioRef_initial)). Defined.

Lemma resetTimer_spec_witness :
  AudioLaws AudioEl /\
  (let '(t', a') := resetTimer demo_ringing audioRef_initial in
   mode t' = mode demo_ringing /\ timeLeft t' = duration demo_ringing /\
   customTime t' = customTime demo_ringing /\ isActive t' = false /\ isAlarmRinging t' = false /\
   endTimeRef t' = None /\ audio_playing a' = false /\ audio_at_start a' = true).
Proof. exact (conj AudioEl_laws (resetTimer_spec demo_ringing audioRef_initial)). Defined.

Lemma adjustTime_spec_witness :
  AudioLaws AudioEl /\
  (let '(t', a') := adjustTime (-999999) (fst (switchMode Custom demo_running audioRef_initial)) audioRef_initial in
   a' = audioRef_initial /\ isActive t' = false /\ isAlarmRinging t' = false /\ endTimeRef t' = None /\
   if bool_decide (Custom = Custom) && negb false
   then customTime t' = Z.max 0 (0 + -999999) /\ timeLeft t' = customTime t'
   else customTime t' = 0 /\ timeLeft t' = 0).
Proof.
  exact (conj AudioEl_laws
    (adjustTime_spec (-999999) (fst (switchMode Custom demo_running audioRef_initial)) audioRef_initial)).
Defined.

End Timer.
