(* ===== verification/TimerRun.v ===== *)
(** * The timer engine as a transition system

    A [World] is what the timer engine sees: its state, the audio element,
    the clock ([Date.now()]), [document.hidden], the notification
    permission and the notifications raised so far.  [step] has one rule
    per event that reaches the engine: a click on one of its controls
    (only while the page is visible), a tick of the scheduled interval, a
    visibility change, time passing and a change of permission.  Each
    handler is followed by [commit], the render that runs the timer effect.

    The file proves the invariant of every reachable world ([timer_inv])
    and what follows from it: the display never under-reports the time
    left, pausing never shortens the countdown, missed ticks change
    nothing, and a run of ticks rings the alarm exactly once. *)

From S2P Require Import Prelude Modes Audio Timer.
Open Scope Z_scope.
Import Timer.

(** The controls of the engine: the tabs, the start/pause button, the
    reset button, the stop-alarm button and the six adjustment buttons. *)
Inductive Intent :=
  | ISwitch (m : Mode)
  | IToggle
  | IReset
  | IStopAlarm
  | IAdjust (amount : Z).

Section Run.
Context {A : Type} `{AudioLaws A}.
Implicit Types (a : A) (t : TimerState).

Record World := mkWorld {
  timer : TimerState;
  audio : A;
  clock : Z;
  hidden : bool;
  granted : bool;
  notes : list Note
}.

Definition handle_intent (i : Intent) (now : Z) t a : TimerState * A :=
  match i with
  | ISwitch m => switchMode m t a
  | IToggle => toggleTimer now t a
  | IReset => resetTimer t a
  | IStopAlarm => stopAlarm t a
  | IAdjust amount => adjustTime amount t a
  end.

(** A control clicked at the world's clock, then the render. *)
Definition user_step (i : Intent) (w : World) : World :=
  let '(t', a') := handle_intent i (clock w) (timer w) (audio w) in
  {| timer := commit (clock w) (timer w) t'; audio := a'; clock := clock w;
     hidden := hidden w; granted := granted w; notes := notes w |}.

(** The interval fires at the world's clock, then the render. *)
Definition tick_step (ok : bool) (w : World) : World :=
  let '(t', a', n) := tick (clock w) (hidden w) (granted w) ok (timer w) (audio w) in
  {| timer := commit (clock w) (timer w) t'; audio := a'; clock := clock w;
     hidden := hidden w; granted := granted w; notes := option_list n ++ notes w |}.

(** [visibilitychange]: the page becomes hidden or visible. *)
Definition visibility_step (h : bool) (w : World) : World :=
  {| timer := handleVisibilityChange (clock w) h (timer w); audio := audio w;
     clock := clock w; hidden := h; granted := granted w; notes := notes w |}.

Definition set_clock (now : Z) (w : World) : World :=
  {| timer := timer w; audio := audio w; clock := now;
     hidden := hidden w; granted := granted w; notes := notes w |}.

Definition set_granted (g : bool) (w : World) : World :=
  {| timer := timer w; audio := audio w; clock := clock w;
     hidden := hidden w; granted := g; notes := notes w |}.

Inductive step : World -> World -> Prop :=
  | step_user i w : hidden w = false -> step w (user_step i w)
  | step_tick ok w : timerRef (timer w) = true -> step w (tick_step ok w)
  | step_visibility h w : step w (visibility_step h w)
  | step_elapse d w : 0 <= d -> step w (set_clock (clock w + d) w)
  | step_permission g w : step w (set_granted g w).

(** The mount at instant [start]: the first render, then its effects (the
    timer effect with [isActive] false); [a0] is the configured element. *)
Definition init_world (a0 : A) (start : Z) (h g : bool) : World :=
  {| timer := timer_effect start initial; audio := a0; clock := start;
     hidden := h; granted := g; notes := [] |}.

Inductive reachable (a0 : A) : World -> Prop :=
  | reach_init start h g : 0 <= start -> reachable a0 (init_world a0 start h g)
  | reach_step w w' : reachable a0 w -> step w w' -> reachable a0 w'.

(** ** The invariant *)

Record timer_inv (now : Z) t a : Prop := {
  inv_clock : 0 <= now;
  inv_timeLeft : 0 <= timeLeft t;
  inv_customTime : 0 <= customTime t;
  inv_interval : timerRef t = isActive t;
  inv_active_end : isActive t = true ->
    exists E, endTimeRef t = Some E /\ 0 < E /\ E - now <= 1000 * timeLeft t;
  inv_idle_end : isActive t = false -> endTimeRef t = None;
  inv_active_silent : isActive t = true -> isAlarmRinging t = false;
  inv_audio : audio_playing a = true -> isAlarmRinging t = true
}.

Definition world_inv (w : World) : Prop := timer_inv (clock w) (timer w) (audio w).

(** What a handler's result must satisfy for the render to restore the
    invariant. *)
Record pre_commit (now : Z) (t t' : TimerState) (a' : A) : Prop := {
  pc_clock : 0 <= now;
  pc_timeLeft : 0 <= timeLeft t';
  pc_customTime : 0 <= customTime t';
  pc_active_end : isActive t' = true ->
    exists E, endTimeRef t' = Some E /\ 0 < E /\ E - now <= 1000 * timeLeft t';
  pc_active_silent : isActive t' = true -> isAlarmRinging t' = false;
  pc_audio : audio_playing a' = true -> isAlarmRinging t' = true;
  pc_same_deps : isActive t = isActive t' -> mode t = mode t' ->
    timerRef t' = timerRef t /\ (isActive t' = false -> endTimeRef t' = None)
}.

Lemma commit_inv now t t' a' :
  timerRef t = isActive t -> pre_commit now t t' a' ->
  timer_inv now (commit now t t') a'.
Proof.
  intros Hr [Hc Htl Hct Hend Hsil Hau Hdeps]. unfold commit.
  destruct (bool_decide _ && bool_decide _) eqn:Hd.
  - apply andb_true_iff in Hd as [Hd1 Hd2].
    apply bool_decide_eq_true in Hd1, Hd2. destruct (Hdeps Hd1 Hd2) as [Hr' Hn].
    split; auto; congruence.
  - unfold timer_effect. destruct (isActive t') eqn:Ha; split; simpl; auto; try done.
    destruct (Hend eq_refl) as (E & -> & HE & Hle).
    rewrite ref_truthy_pos by done. eauto.
Qed.

(** ** Each handler prepares the invariant *)

(** Close the obligations of [pre_commit] left after unfolding a handler:
    apply the hypotheses whose premises hold, then [congruence]/[lia]. *)
Local Ltac pc_solve :=
  repeat split; intros; simpl in *;
  repeat match goal with
    | H : ?x = ?x -> _ |- _ => specialize (H eq_refl)
    | H : ?P -> _, H' : ?P |- _ => specialize (H H')
    end;
  try done; try congruence; try lia.

Lemma stopAlarm_pre now t a :
  timer_inv now t a -> pre_commit now t (stopAlarm t a).1 (stopAlarm t a).2.
Proof. intros []; split; simpl; audio_simpl; auto; done. Qed.

Lemma switchMode_pre m now t a :
  timer_inv now t a -> pre_commit now t (switchMode m t a).1 (switchMode m t a).2.
Proof. intros []. unfold switchMode, stopAlarm. split; simpl; audio_simpl; auto with tomi; intros; discriminate. Qed.

Lemma resetTimer_pre now t a :
  timer_inv now t a -> pre_commit now t (resetTimer t a).1 (resetTimer t a).2.
Proof. intros []. unfold resetTimer, stopAlarm. split; simpl; audio_simpl; auto with tomi; intros; discriminate. Qed.

Lemma adjustTime_pre amount now t a :
  timer_inv now t a -> pre_commit now t (adjustTime amount t a).1 (adjustTime amount t a).2.
Proof.
  intros []. unfold adjustTime.
  destruct (bool_decide _ || isActive t) eqn:Hg; [split; auto|].
  apply orb_false_iff in Hg as [_ Hact].
  split; simpl; rewrite ?Hact; auto; try done; lia.
Qed.

Lemma toggleTimer_pre now t a :
  timer_inv now t a -> pre_commit now t (toggleTimer now t a).1 (toggleTimer now t a).2.
Proof.
  intros Hi. destruct (isAlarmRinging t) eqn:Hr.
  { rewrite toggle_ringing_eq by done. by apply stopAlarm_pre. }
  destruct Hi as [Hc Htl Hct Href Hend Hidle Hsil Hau].
  destruct (isActive t) eqn:Ha.
  - rewrite toggle_start_pause_eq by auto.
    split; simpl; rewrite ?Ha; auto; try done; pc_solve.
  - destruct (Z.eqb_spec (timeLeft t) 0) as [Hz|Hnz].
    + rewrite toggle_from_zero_eq by done.
      destruct (Z.leb_spec (duration t) 0); [split; auto; pc_solve|].
      split; simpl; auto; try done; try lia.
      * intros _. exists (now + duration t * 1000). split; [done | lia].
      * pc_solve.
    + rewrite toggle_start_pause_eq by auto.
      split; simpl; rewrite ?Ha; auto; try done; try (pc_solve).
      exists (now + timeLeft t * 1000). split; [done | lia].
Qed.

Lemma intent_pre i now t a :
  timer_inv now t a ->
  pre_commit now t (handle_intent i now t a).1 (handle_intent i now t a).2.
Proof.
  destruct i; simpl.
  - apply switchMode_pre.
  - apply toggleTimer_pre.
  - apply resetTimer_pre.
  - apply stopAlarm_pre.
  - apply adjustTime_pre.
Qed.

(** An active timer's end instant, as the invariant provides it. *)
Lemma inv_end now t a :
  timer_inv now t a -> timerRef t = true ->
  isActive t = true /\ endTimeRef t = Some (end_of t) /\ 0 < end_of t /\
  end_of t - now <= 1000 * timeLeft t.
Proof.
  intros Hi Hr. assert (Ha : isActive t = true) by (rewrite <- (inv_interval _ _ _ Hi); done).
  destruct (inv_active_end _ _ _ Hi Ha) as (E & HE & Hpos & Hle).
  unfold end_of. rewrite HE. simpl. auto.
Qed.

Lemma tick_pre now hidden granted ok t a :
  timer_inv now t a -> timerRef t = true ->
  let '(t', a', _) := tick now hidden granted ok t a in pre_commit now t t' a'.
Proof.
  intros Hi Hr. destruct (inv_end now t a Hi Hr) as (Ha & HE & Hpos & Hle).
  destruct Hi as [Hc Htl Hct Href Hend Hidle Hsil Hau].
  destruct (Z.le_gt_cases (end_of t) now) as [Hfin|Hrun].
  - rewrite tick_after_end_eq by done. unfold finished.
    split; simpl; auto; try done; try pc_solve.
  - rewrite tick_before_end_eq by lia. destruct hidden.
    + split; auto; pc_solve.
    + split; simpl; auto with tomi; try pc_solve.
      exists (end_of t). split; [done|].
      split; [done | apply seconds_remaining_covers].
Qed.

Lemma visibility_inv now h t a :
  timer_inv now t a -> timer_inv now (handleVisibilityChange now h t) a.
Proof.
  intros Hi. unfold handleVisibilityChange.
  destruct (negb h && isActive t && ref_truthy (endTimeRef t)) eqn:Hc; [|done].
  apply andb_true_iff in Hc as [[_ Ha]%andb_true_iff _].
  destruct Hi as [Hc Htl Hct Href Hend Hidle Hsil Hau].
  destruct (Hend Ha) as (E & HE & Hpos & Hle).
  split; simpl; auto with tomi.
  intros _. exists E. rewrite HE. split; [done|]. split; [done | apply seconds_remaining_covers].
Qed.

Lemma elapse_inv now d t a : 0 <= d -> timer_inv now t a -> timer_inv (now + d) t a.
Proof.
  intros Hd [Hc Htl Hct Href Hend Hidle Hsil Hau]. split; auto; try lia.
  intros Ha. destruct (Hend Ha) as (E & ? & ? & ?). exists E. split; [done | lia].
Qed.

(** ** Runs of ticks *)

(** The interval fires at each instant of [ts] in turn, as long as it is
    scheduled; a cleared interval fires no more. *)
Fixpoint run_ticks (ok : bool) (ts : list Z) (w : World) : World :=
  match ts with
  | [] => w
  | n :: ts' =>
      let w1 := set_clock n w in
      run_ticks ok ts' (if timerRef (timer w1) then tick_step ok w1 else w1)
  end.

(** The world a tick before the end instant leaves: the clock moved and,
    on a visible page, the seconds shown refreshed. *)
Lemma tick_step_before_end ok n w :
  n < end_of (timer w) ->
  tick_step ok (set_clock n w) =
    {| timer := if hidden w then timer w
                else {| mode := mode (timer w);
                        timeLeft := seconds_remaining (end_of (timer w) - n);
                        customTime := customTime (timer w); isActive := isActive (timer w);
                        isAlarmRinging := isAlarmRinging (timer w);
                        endTimeRef := endTimeRef (timer w); timerRef := timerRef (timer w) |};
       audio := audio w; clock := n; hidden := hidden w; granted := granted w;
       notes := notes w |}.
Proof.
  intros Hlt. unfold tick_step. simpl. rewrite tick_before_end_eq by done. simpl.
  unfold commit. destruct (hidden w); simpl; rewrite !bool_decide_true by done; done.
Qed.

(** A tick at or after the end instant: the world [tick_finishes] leaves,
    after the render. *)
Lemma tick_step_after_end ok n w :
  end_of (timer w) <= n ->
  tick_step ok (set_clock n w) =
    {| timer := commit n (timer w) (finished (timer w)); audio := audio_play ok (audio w);
       clock := n; hidden := hidden w; granted := granted w;
       notes := option_list (finish_note (granted w) (mode (timer w))) ++ notes w |}.
Proof. intros Hle. unfold tick_step. simpl. by rewrite tick_after_end_eq. Qed.

(** Once the interval is cleared, ticks only move the clock. *)
Lemma run_ticks_idle ok ts w :
  timerRef (timer w) = false ->
  timer (run_ticks ok ts w) = timer w /\ audio (run_ticks ok ts w) = audio w /\
  notes (run_ticks ok ts w) = notes w.
Proof.
  revert w. induction ts as [|n ts IH]; intros w Hr; simpl; [done|].
  rewrite Hr. exact (IH (set_clock n w) Hr).
Qed.

(** C3: ticks missed before the end instant change nothing: whatever ticks
    were delivered before the end instant, the next tick at [n] leaves the
    same world as if it were the only one.  The countdown is anchored to
    the end instant, not decremented per tick. *)
Theorem missed_ticks_irrelevant ok ts n w :
  timerRef (timer w) = true -> Forall (fun m => m < end_of (timer w)) ts ->
  tick_step ok (set_clock n (run_ticks ok ts w)) = tick_step ok (set_clock n w).
Proof.
  revert w. induction ts as [|m ts IH]; intros w Hr Hts; simpl; [done|].
  apply Forall_cons in Hts as [Hm Hts]. simpl in Hm. rewrite Hr, (tick_step_before_end ok m w) by done.
  rewrite IH by (destruct (hidden w); unfold end_of in *; simpl; done).
  destruct (Z.lt_ge_cases n (end_of (timer w))) as [Hn|Hn].
  - rewrite !tick_step_before_end by (destruct (hidden w); done). by destruct (hidden w).
  - rewrite !tick_step_after_end by (destruct (hidden w); done).
    unfold commit, finished. by destruct (hidden w).
Qed.

(** C4: a run of ticks from a running timer rings the alarm exactly when
    one of the ticks comes at or after the end instant, and then raises
    exactly one notification (when permitted): later ticks find the
    interval cleared. *)
Theorem run_ticks_rings_once ok ts w :
  timerRef (timer w) = true -> isActive (timer w) = true -> isAlarmRinging (timer w) = false ->
  let w' := run_ticks ok ts w in
  isAlarmRinging (timer w') = existsb (fun n => end_of (timer w) <=? n) ts /\
  length (notes w') =
    (length (notes w) + if existsb (fun n => (end_of (timer w) <=? n)%Z) ts && granted w
                        then 1 else 0)%nat.
Proof.
  revert w. induction ts as [|m ts IH]; intros w Hr Ha Hring; simpl; [rewrite Hring; lia|].
  rewrite Hr. destruct (Z.leb_spec (end_of (timer w)) m) as [Hm|Hm]; simpl.
  - rewrite tick_step_after_end by done.
    edestruct (run_ticks_idle ok ts) as (-> & _ & ->);
      [unfold commit, finished; rewrite Ha; simpl; try rewrite bool_decide_false by done; done|].
    unfold commit, finished. rewrite Ha. simpl. try rewrite bool_decide_false by done. simpl.
    unfold finish_note. destruct (granted w); simpl; lia.
  - rewrite tick_step_before_end by done.
    match goal with |- context [run_ticks ok ts ?W] => destruct (IH W) as [IH1 IH2] end;
      destruct (hidden w); done.
Qed.

(** ** The invariant of reachable worlds *)

Section Reach.
Variable a0 : A.
Hypothesis a0_silent : audio_playing a0 = false.

Lemma init_inv start h g : 0 <= start -> world_inv (init_world a0 start h g).
Proof.
  intros Hs. split; simpl; try done; try lia. by rewrite a0_silent.
Qed.

Lemma step_inv w w' : world_inv w -> step w w' -> world_inv w'.
Proof.
  intros Hi Hs. destruct Hs as [i w Hh|ok w Hr|h w|d w Hd|g w]; unfold world_inv in *.
  - unfold user_step. pose proof (intent_pre i (clock w) (timer w) (audio w) Hi) as Hp.
    destruct (handle_intent _ _ _ _) as [t' a']. simpl.
    apply commit_inv; [apply Hi | done].
  - unfold tick_step. pose proof (tick_pre (clock w) (hidden w) (granted w) ok _ _ Hi Hr) as Hp.
    destruct (tick _ _ _ _ _ _) as [[t' a'] n]. simpl.
    apply commit_inv; [apply Hi | done].
  - by apply visibility_inv.
  - by apply elapse_inv.
  - done.
Qed.

(** The invariant holds along every run from the mount. *)
Lemma reachable_world_inv w : reachable a0 w -> world_inv w.
Proof.
  induction 1 as [start h g Hs|w w' _ IH Hstep].
  - by apply init_inv.
  - by apply (step_inv w).
Qed.

(** ** Pausing never shortens the countdown *)

Lemma toggle_resume_end r t a :
  0 <= r -> 0 <= timeLeft t -> isActive t = false -> isAlarmRinging t = false ->
  isActive (commit r t (toggleTimer r t a).1) = true ->
  end_of (commit r t (toggleTimer r t a).1) = r + 1000 * (if timeLeft t =? 0 then duration t else timeLeft t).
Proof.
  intros Hr Htl Ha Hring Hact. destruct (Z.eqb_spec (timeLeft t) 0) as [Hz|Hnz].
  - rewrite toggle_from_zero_eq in * by done.
    destruct (Z.leb_spec (duration t) 0) as [Hd|Hd]; simpl in *.
    + unfold commit in Hact. rewrite !bool_decide_true in Hact by done. simpl in Hact. congruence.
    + unfold commit, timer_effect, end_of. rewrite Ha. simpl.
      destruct (negb _); simpl; lia.
  - rewrite toggle_start_pause_eq in * by auto. rewrite Ha in *. simpl in *.
    unfold commit, timer_effect, end_of. rewrite Ha. simpl.
    destruct (negb _); simpl; lia.
Qed.

(** The timer a pause leaves: stopped, no interval, no end instant, the
    seconds shown kept. *)
Definition paused (t : TimerState) : TimerState :=
  {| mode := mode t; timeLeft := timeLeft t; customTime := customTime t;
     isActive := false; isAlarmRinging := false; endTimeRef := None; timerRef := false |}.

Lemma toggle_pause_timer now t a :
  isActive t = true -> isAlarmRinging t = false ->
  commit now t (toggleTimer now t a).1 = paused t /\ (toggleTimer now t a).2 = a.
Proof.
  intros Ha Hr. rewrite toggle_start_pause_eq by auto. rewrite Ha. simpl.
  unfold commit. rewrite Ha. simpl. done.
Qed.

(** C6: pausing a running timer at [p] and resuming it at any later [r]
    never ends earlier than the countdown would have ended without the
    pause, shifted by the paused time [r - p]. *)
Theorem pause_never_shortens w r :
  reachable a0 w -> hidden w = false -> isActive (timer w) = true -> clock w <= r ->
  let w2 := user_step IToggle (set_clock r (user_step IToggle w)) in
  isActive (timer w2) = true ->
  end_of (timer w) + (r - clock w) <= end_of (timer w2).
Proof.
  intros Hreach Hh Ha Hr. pose proof (reachable_world_inv w Hreach) as Hi.
  destruct (inv_end _ _ _ Hi ltac:(by rewrite (inv_interval _ _ _ Hi))) as (_ & HE & Hpos & Hle).
  pose proof (inv_active_silent _ _ _ Hi Ha) as Hring.
  pose proof (inv_clock _ _ _ Hi). pose proof (inv_timeLeft _ _ _ Hi).
  pose proof (mode_duration_nonneg (mode (timer w)) (customTime (timer w)) (inv_customTime _ _ _ Hi)).
  destruct (toggle_pause_timer (clock w) (timer w) (audio w) Ha Hring) as [Hp Ha'].
  unfold user_step at 2. simpl. destruct (toggleTimer _ _ _) as [t1 a1]. simpl in *. subst a1.
  rewrite Hp. unfold user_step, set_clock. simpl.
  pose proof (toggle_resume_end r (paused (timer w)) (audio w)) as Hres.
  destruct (toggleTimer r _ _) as [t2 a2]. simpl in *. intros Hact.
  rewrite Hres by (auto; lia). unfold duration. simpl.
  destruct (Z.eqb_spec (timeLeft (timer w)) 0); lia.
Qed.

(** The resync of a page that comes back after the end instant shows
    [00:00] and leaves the countdown running. *)
Lemma resync_after_end (now : Z) t :
  isActive t = true -> (exists E, endTimeRef t = Some E /\ 0 < E) -> end_of t <= now ->
  handleVisibilityChange now false t =
    {| mode := mode t; timeLeft := 0; customTime := customTime t; isActive := true;
       isAlarmRinging := isAlarmRinging t; endTimeRef := endTimeRef t; timerRef := timerRef t |}.
Proof.
  intros Ha (E & HE & Hpos) Hle. unfold handleVisibilityChange, end_of in *. rewrite Ha, HE in *.
  rewrite ref_truthy_pos by done. simpl. f_equal.
  pose proof (seconds_remaining_nonneg (E - now)).
  pose proof (proj2 (seconds_remaining_zero_iff (E - now)) ltac:(simpl in Hle; lia)). lia.
Qed.

(** C7: a countdown that ends while the page is hidden, with no tick
    since, loses its alarm when the user pauses between the visibility
    resync and the next tick.  The resync shows [00:00] without calling
    [handleTimerFinished]; the pause then stops the timer at [00:00] and
    clears the interval, so no tick is left to finish it: no alarm rings,
    no notification is raised, the element is untouched, and the next
    click on start counts the whole duration of the mode again. *)
Theorem pause_at_zero_loses_alarm w :
  reachable a0 w -> hidden w = true -> isActive (timer w) = true -> end_of (timer w) <= clock w ->
  let w' := user_step IToggle (visibility_step false w) in
  timeLeft (timer w') = 0 /\ isActive (timer w') = false /\ timerRef (timer w') = false /\
  isAlarmRinging (timer w') = false /\ notes w' = notes w /\ audio w' = audio w /\
  timeLeft (timer (user_step IToggle w')) = (if duration (timer w) <=? 0 then 0 else duration (timer w)).
Proof.
  intros Hreach Hh Ha He w'. pose proof (reachable_world_inv w Hreach) as Hi.
  destruct (inv_active_end _ _ _ Hi Ha) as (E & HE & Hpos & _).
  pose proof (inv_active_silent _ _ _ Hi Ha) as Hr.
  assert (Hv : timer (visibility_step false w) = _) by exact (resync_after_end _ _ Ha ltac:(eauto) He).
  destruct (toggle_pause_timer (clock w) (timer (visibility_step false w)) (audio w)) as [Hp Hpa];
    [by rewrite Hv|by rewrite Hv|].
  assert (Hw' : timer w' = paused (timer (visibility_step false w)) /\ audio w' = audio w /\ notes w' = notes w).
  { unfold w', user_step. simpl. destruct (toggleTimer _ _ _) as [t1 a1] eqn:Et. simpl in *. by subst. }
  destruct Hw' as (Ht' & Ha' & Hn'). rewrite Hv in Ht'. rewrite Ht', Ha', Hn'.
  do 6 (split; [done|]).
  unfold user_step at 1, handle_intent. rewrite Ht', toggle_from_zero_eq by done. unfold duration. simpl.
  destruct (Z.leb_spec (mode_duration (mode (timer w)) (customTime (timer w))) 0); simpl;
    unfold commit, timer_effect; simpl; by rewrite ?bool_decide_true.
Qed.

(** C1: every world reachable from the mount satisfies the invariant: the
    interval is scheduled exactly while the timer is active, an active
    timer has a positive end instant no further than the seconds shown,
    a stopped one has none, an active timer is not ringing, the custom
    duration and the seconds shown are never negative, and the audio
    plays only while the alarm rings. *)
Theorem reachable_inv w : reachable a0 w -> world_inv w.
Proof. apply reachable_world_inv. Qed.

End Reach.

End Run.

Arguments World : clear implicits.

(** ** A scenario and the witnesses *)

(** The mount at [0] on a visible page with notifications permitted, and
    a pomodoro started at once: it ends at [1500000]. *)
Definition demo_w0 : World AudioEl := init_world audioRef_initial 0 false true.
Definition demo_w1 : World AudioEl := user_step IToggle demo_w0.
(** The same countdown 25 minutes later, before the interval fires. *)
Definition demo_w2 : World AudioEl := set_clock (clock demo_w1 + 1500000) demo_w1.

Lemma demo_w1_reachable : reachable audioRef_initial demo_w1.
Proof. apply (reach_step _ demo_w0); [apply reach_init; lia | by apply step_user]. Qed.

Lemma demo_w2_reachable : reachable audioRef_initial demo_w2.
Proof. apply (reach_step _ demo_w1); [apply demo_w1_reachable | apply step_elapse; lia]. Qed.

Lemma reachable_inv_witness :
  audio_playing audioRef_initial = false /\ reachable audioRef_initial demo_w2 /\ world_inv demo_w2.
Proof.
  refine (conj eq_refl (conj demo_w2_reachable
    (reachable_inv audioRef_initial eq_refl demo_w2 demo_w2_reachable))).
Defined.

Lemma pause_never_shortens_witness :
  audio_playing audioRef_initial = false /\ reachable audioRef_initial demo_w1 /\
  hidden demo_w1 = false /\ isActive (timer demo_w1) = true /\ clock demo_w1 <= 60000 /\
  (let w2 := user_step IToggle (set_clock 60000 (user_step IToggle demo_w1)) in
   isActive (timer w2) = true ->
   end_of (timer demo_w1) + (60000 - clock demo_w1) <= end_of (timer w2)).
Proof.
  refine (conj eq_refl (conj demo_w1_reachable (conj eq_refl (conj eq_refl (conj _
    (pause_never_shortens audioRef_initial eq_refl demo_w1 60000 demo_w1_reachable eq_refl eq_refl _)))))).
  all: vm_compute; congruence.
Defined.

Lemma missed_ticks_irrelevant_witness :
  timerRef (timer demo_w1) = true /\ Forall (fun m => m < end_of (timer demo_w1)) [200; 400; 1499999] /\
  tick_step true (set_clock 1500000 (run_ticks true [200; 400; 1499999] demo_w1)) =
  tick_step true (set_clock 1500000 demo_w1).
Proof.
  assert (Hf : Forall (fun m => m < end_of (timer demo_w1)) [200; 400; 1499999])
    by (repeat constructor).
  exact (conj eq_refl (conj Hf (missed_ticks_irrelevant true _ 1500000 demo_w1 eq_refl Hf))).
Defined.

Lemma run_ticks_rings_once_witness :
  timerRef (timer demo_w1) = true /\ isActive (timer demo_w1) = true /\
  isAlarmRinging (timer demo_w1) = false /\
  (let w' := run_ticks true [1000; 1500000; 1500200] demo_w1 in
   isAlarmRinging (timer w') = existsb (fun n => end_of (timer demo_w1) <=? n) [1000; 1500000; 1500200] /\
   length (notes w') =
     (length (notes demo_w1) +
      if existsb (fun n => (end_of (timer demo_w1) <=? n)%Z) [1000; 1500000; 1500200]%Z && granted demo_w1
      then 1 else 0)%nat).
Proof.
  exact (conj eq_refl (conj eq_refl (conj eq_refl
    (run_ticks_rings_once true [1000; 1500000; 1500200] demo_w1 eq_refl eq_refl eq_refl)))).
Defined.

(** A countdown that ends while the page is hidden, then a pause in the
    window between the visibility resync (which shows [00:00] without
    finishing) and the next tick. *)
Definition demo_hidden : World AudioEl := visibility_step true demo_w1.
Definition demo_ended : World AudioEl := set_clock (clock demo_hidden + 1500000) demo_hidden.
Definition demo_shown : World AudioEl := visibility_step false demo_ended.
Definition demo_paused : World AudioEl := user_step IToggle demo_shown.

Lemma pause_at_zero_loses_alarm_witness :
  AudioLaws AudioEl /\ reachable audioRef_initial demo_ended /\ hidden demo_ended = true /\
  isActive (timer demo_ended) = true /\ end_of (timer demo_ended) <= clock demo_ended /\
  (let w' := user_step IToggle (visibility_step false demo_ended) in
   timeLeft (timer w') = 0 /\ isActive (timer w') = false /\ timerRef (timer w') = false /\
   isAlarmRinging (timer w') = false /\ notes w' = notes demo_ended /\ audio w' = audio demo_ended /\
   timeLeft (timer (user_step IToggle w')) =
     (if duration (timer demo_ended) <=? 0 then 0 else duration (timer demo_ended))).
Proof.
  assert (Hr : reachable audioRef_initial demo_ended).
  { apply (reach_step _ demo_hidden); [|apply step_elapse; lia].
    apply (reach_step _ demo_w1); [apply demo_w1_reachable | apply step_visibility]. }
  assert (Hh : hidden demo_ended = true) by reflexivity.
  assert (Ha : isActive (timer demo_ended) = true) by reflexivity.
  assert (He : end_of (timer demo_ended) <= clock demo_ended) by (vm_compute; congruence).
  exact (conj AudioEl_laws (conj Hr (conj Hh (conj Ha (conj He
    (pause_at_zero_loses_alarm audioRef_initial eq_refl demo_ended Hr Hh Ha He)))))).
Defined.


