(* ===== verification/TimerSpec.v ===== *)
(** * The contract of the timer engine and its refinement

    The timer's contract is a machine with three phases: [Idle] with the
    seconds to count, [Running] towards an end instant, [Ringing] once the
    end instant is reached.  [astep now] is one transition of the contract
    taken at the instant [now]: start (anchoring the end instant [now]
    plus the seconds), pause (keeping at least the time that was left),
    reset and mode switch (back to the mode's duration), adjustment of the
    custom duration while stopped, finishing at or after the end instant,
    dismissal of the alarm, and stuttering.

    [abs] reads the phase off the component's state, and [refinement]
    proves that every step of a reachable world of [TimerRun] is a step of
    the contract at the new world's clock. *)

From S2P Require Import Prelude Modes Audio Timer TimerRun.
Open Scope Z_scope.
Import Timer.

Inductive Phase :=
  | Idle (secs : Z)
  | Running (endAt : Z)
  | Ringing (secs : Z).

Record AState := mkA { amode : Mode; acustom : Z; phase : Phase }.

Inductive astep (now : Z) : AState -> AState -> Prop :=
  | a_stutter s : astep now s s
  | a_mode m m' c p : astep now (mkA m c p) (mkA m' c (Idle (mode_duration m' c)))
  | a_start m c secs : 0 < secs ->
      astep now (mkA m c (Idle secs)) (mkA m c (Running (now + 1000 * secs)))
  | a_restart m c : 0 < mode_duration m c ->
      astep now (mkA m c (Idle 0)) (mkA m c (Running (now + 1000 * mode_duration m c)))
  | a_pause m c E secs : 0 <= secs -> E - now <= 1000 * secs ->
      astep now (mkA m c (Running E)) (mkA m c (Idle secs))
  | a_reset m c p : astep now (mkA m c p) (mkA m c (Idle (mode_duration m c)))
  | a_adjust_idle c c' secs : 0 <= c' ->
      astep now (mkA Custom c (Idle secs)) (mkA Custom c' (Idle c'))
  | a_adjust_ringing c c' secs : 0 <= c' ->
      astep now (mkA Custom c (Ringing secs)) (mkA Custom c' (Ringing c'))
  | a_finish m c E : E <= now -> astep now (mkA m c (Running E)) (mkA m c (Ringing 0))
  | a_dismiss m c secs : astep now (mkA m c (Ringing secs)) (mkA m c (Idle secs)).

(** The phase of the component's state. *)
Definition abs (t : TimerState) : AState :=
  {| amode := mode t; acustom := customTime t;
     phase := if isAlarmRinging t then Ringing (timeLeft t)
              else if isActive t then Running (end_of t) else Idle (timeLeft t) |}.

(** The render changes nothing the contract sees, as long as an active
    timer's end instant is a truthy number. *)
Lemma abs_commit now old new :
  (isActive new = true -> ref_truthy (endTimeRef new) = true) ->
  abs (commit now old new) = abs new.
Proof.
  intros Ht. unfold commit. destruct (_ && _); [done|].
  unfold timer_effect, abs, end_of. destruct (isActive new) eqn:Ha; simpl; [|done].
  by rewrite Ht.
Qed.

Section Refinement.
Context {A : Type} `{AudioLaws A}.
Implicit Types (a : A) (t : TimerState).

Lemma toggle_refines now t a :
  timer_inv now t a ->
  astep now (abs t) (abs (commit now t (toggleTimer now t a).1)).
Proof.
  intros Hi. pose proof (toggleTimer_pre now t a Hi) as Hp.
  rewrite abs_commit by (intros Ha; destruct (pc_active_end _ _ _ _ Hp Ha) as (E & -> & HE & _);
                         by apply ref_truthy_pos).
  destruct Hi as [Hc Htl Hct Href Hend Hidle Hsil Hau].
  destruct (isAlarmRinging t) eqn:Hr.
  { rewrite toggle_ringing_eq by done. unfold abs. simpl. rewrite Hr.
    destruct (isActive t) eqn:Ha; [specialize (Hsil eq_refl); congruence|]. apply a_dismiss. }
  destruct (isActive t) eqn:Ha.
  - rewrite toggle_start_pause_eq by auto. rewrite Ha. unfold abs. simpl. rewrite Hr, Ha.
    destruct (Hend eq_refl) as (E & HE & _ & Hle). unfold end_of. rewrite HE.
    by apply a_pause.
  - destruct (Z.eqb_spec (timeLeft t) 0) as [Hz|Hnz].
    + rewrite toggle_from_zero_eq by done. unfold abs, duration. rewrite Hr, Ha, Hz.
      destruct (Z.leb_spec (mode_duration (mode t) (customTime t)) 0); simpl.
      * rewrite Hr, Ha, Hz. apply a_stutter.
      * unfold end_of. simpl. rewrite Z.mul_comm. by apply a_restart.
    + rewrite toggle_start_pause_eq by auto. rewrite Ha. unfold abs. simpl. rewrite Hr, Ha.
      unfold end_of. simpl. rewrite Z.mul_comm. apply a_start. lia.
Qed.

Lemma adjust_refines now amount t a :
  timer_inv now t a -> astep now (abs t) (abs (adjustTime amount t a).1).
Proof.
  intros Hi. unfold adjustTime.
  destruct (bool_decide (mode t <> Custom) || isActive t) eqn:Hg; [apply a_stutter|].
  apply orb_false_iff in Hg as [Hm Ha]. apply bool_decide_eq_false in Hm.
  assert (Hc : mode t = Custom) by (destruct (decide (mode t = Custom)); tauto).
  unfold abs. simpl. rewrite Hc, Ha.
  destruct (isAlarmRinging t); [apply a_adjust_ringing | apply a_adjust_idle]; lia.
Qed.

Lemma user_refines i w :
  world_inv w -> astep (clock w) (abs (timer w)) (abs (timer (user_step i w))).
Proof.
  intros Hi. pose proof (intent_pre i (clock w) (timer w) (audio w) Hi) as Hp.
  unfold user_step. destruct (handle_intent i _ _ _) as [t' a'] eqn:Eh. simpl in *.
  rewrite abs_commit by (intros Ha; destruct (pc_active_end _ _ _ _ Hp Ha) as (E & -> & HE & _);
                         by apply ref_truthy_pos).
  destruct i; simpl in Eh.
  - unfold switchMode, stopAlarm in Eh. injection Eh as <- _. unfold abs. simpl. apply a_mode.
  - pose proof (toggle_refines (clock w) (timer w) (audio w) Hi) as Hr. rewrite Eh in Hr. simpl in Hr.
    rewrite abs_commit in Hr; [done|].
    intros Ha. destruct (pc_active_end _ _ _ _ Hp Ha) as (E & -> & HE & _). by apply ref_truthy_pos.
  - unfold resetTimer, stopAlarm in Eh. injection Eh as <- _. unfold abs. simpl. apply a_reset.
  - unfold stopAlarm in Eh. injection Eh as <- _. unfold abs. simpl.
    destruct (isAlarmRinging (timer w)) eqn:Hr; [|apply a_stutter].
    destruct (isActive (timer w)) eqn:Ha;
      [rewrite (inv_active_silent _ _ _ Hi Ha) in Hr; discriminate|].
    apply a_dismiss.
  - pose proof (adjust_refines (clock w) amount (timer w) (audio w) Hi) as Hr.
    by rewrite Eh in Hr.
Qed.

Lemma set_clock_same (w : World A) : set_clock (clock w) w = w.
Proof. by destruct w. Qed.

Lemma user_step_clock i (w : World A) : clock (user_step i w) = clock w.
Proof. unfold user_step. by destruct (handle_intent _ _ _ _). Qed.

Lemma tick_refines ok (w : World A) :
  world_inv w -> timerRef (timer w) = true ->
  astep (clock w) (abs (timer w)) (abs (timer (tick_step ok w))).
Proof.
  intros Hi Hr. destruct (inv_end _ _ _ Hi Hr) as (Ha & HE & Hpos & Hle).
  pose proof (inv_active_silent _ _ _ Hi Ha) as Hring.
  replace (tick_step ok w) with (tick_step ok (set_clock (clock w) w)) by (by rewrite set_clock_same).
  assert (Habs : abs (timer w) = mkA (mode (timer w)) (customTime (timer w)) (Running (end_of (timer w))))
    by (unfold abs; by rewrite Hring, Ha).
  rewrite Habs.
  destruct (Z.le_gt_cases (end_of (timer w)) (clock w)) as [Hfin|Hrun].
  - rewrite tick_step_after_end by done. simpl. unfold commit, finished. rewrite Ha. simpl.
    by apply a_finish.
  - rewrite tick_step_before_end by done. simpl. rewrite <- Habs.
    destruct (hidden w); [apply a_stutter|]. unfold abs, end_of. simpl. rewrite Hring, Ha.
    apply a_stutter.
Qed.

Lemma visibility_refines now h t a :
  timer_inv now t a -> astep now (abs t) (abs (handleVisibilityChange now h t)).
Proof.
  intros Hi. unfold handleVisibilityChange. destruct (_ && _ && _) eqn:Hc; [|apply a_stutter].
  apply andb_true_iff in Hc as [[_ Ha]%andb_true_iff _].
  pose proof (inv_active_silent _ _ _ Hi Ha) as Hring.
  match goal with |- astep _ _ (abs ?x) =>
    replace (abs x) with (abs t) by (unfold abs, end_of; simpl; by rewrite Hring, Ha) end.
  apply a_stutter.
Qed.

(** A step of a reachable world is a step of the contract. *)
Lemma step_refines a0 (w w' : World A) :
  audio_playing a0 = false -> reachable a0 w -> step w w' ->
  astep (clock w') (abs (timer w)) (abs (timer w')).
Proof.
  intros Ha0 Hreach Hs. pose proof (reachable_world_inv a0 Ha0 w Hreach) as Hi.
  destruct Hs as [i w Hh|ok w Hr|h w|d w Hd|g w].
  - rewrite user_step_clock. by apply user_refines.
  - unfold tick_step at 1. destruct (tick _ _ _ _ _ _) as [[??]?]; simpl. by apply tick_refines.
  - by apply (visibility_refines _ _ _ (audio w)).
  - apply a_stutter.
  - apply a_stutter.
Qed.

(** C2: the component refines its contract: every step of a reachable
    world (a click, a tick, a visibility change, time passing) is a step
    of the Idle/Running/Ringing machine at the new world's clock, or
    leaves the phase unchanged. *)
Theorem refinement a0 (w w' : World A) :
  audio_playing a0 = false -> reachable a0 w -> step w w' ->
  astep (clock w') (abs (timer w)) (abs (timer w')).
Proof. apply step_refines. Qed.

(** In the contract, the only way into [Ringing] is finishing a
    [Running] phase at or after its end instant. *)
Lemma astep_enters_ringing now s s' secs :
  astep now s s' -> (forall x, phase s <> Ringing x) -> phase s' = Ringing secs ->
  exists E, phase s = Running E /\ E <= now.
Proof.
  destruct 1; simpl; intros Hn Hp; try congruence; try (exfalso; by eapply Hn); eauto.
Qed.

(** C5: the alarm starts ringing only at a step taken when the clock has
    reached the end instant of a running countdown. *)
Theorem alarm_starts_only_at_end a0 (w w' : World A) :
  audio_playing a0 = false -> reachable a0 w -> step w w' ->
  isAlarmRinging (timer w) = false -> isAlarmRinging (timer w') = true ->
  isActive (timer w) = true /\ end_of (timer w) <= clock w'.
Proof.
  intros Ha0 Hreach Hs Hr Hr'. pose proof (step_refines a0 w w' Ha0 Hreach Hs) as Hst.
  edestruct (astep_enters_ringing _ _ _ (timeLeft (timer w')) Hst) as (E & HE & Hle).
  - unfold abs. simpl. rewrite Hr. by destruct (isActive (timer w)).
  - unfold abs. simpl. by rewrite Hr'.
  - unfold abs in HE. simpl in HE. rewrite Hr in HE.
    destruct (isActive (timer w)); [|done]. injection HE as ->. done.
Qed.

End Refinement.

(** The phases the contract reaches from the first render. *)
Inductive areachable : AState -> Prop :=
  | ar_init : areachable (abs initial)
  | ar_step now s s' : areachable s -> astep now s s' -> areachable s'.

(** Every reachable world of the component shows a phase the contract
    reaches. *)
Lemma reachable_abs {A} `{AudioLaws A} a0 (w : World A) :
  audio_playing a0 = false -> reachable a0 w -> areachable (abs (timer w)).
Proof.
  intros Ha0. induction 1 as [start h g Hs|w w' Hreach IH Hstep].
  - apply ar_init.
  - eapply ar_step; [exact IH|]. by apply (step_refines a0).
Qed.

(** ** Witnesses *)

Lemma refinement_witness :
  audio_playing audioRef_initial = false /\ reachable audioRef_initial demo_w2 /\
  step demo_w2 (tick_step true demo_w2) /\
  astep (clock (tick_step true demo_w2)) (abs (timer demo_w2)) (abs (timer (tick_step true demo_w2))).
Proof.
  assert (Hs : step demo_w2 (tick_step true demo_w2)) by (apply step_tick; reflexivity).
  exact (conj eq_refl (conj demo_w2_reachable (conj Hs
    (refinement audioRef_initial demo_w2 _ eq_refl demo_w2_reachable Hs)))).
Defined.

Lemma alarm_starts_only_at_end_witness :
  audio_playing audioRef_initial = false /\ reachable audioRef_initial demo_w2 /\
  step demo_w2 (tick_step true demo_w2) /\
  isAlarmRinging (timer demo_w2) = false /\ isAlarmRinging (timer (tick_step true demo_w2)) = true /\
  isActive (timer demo_w2) = true /\ end_of (timer demo_w2) <= clock (tick_step true demo_w2).
Proof.
  assert (Hs : step demo_w2 (tick_step true demo_w2)) by (apply step_tick; reflexivity).
  exact (conj eq_refl (conj demo_w2_reachable (conj Hs (conj eq_refl (conj eq_refl
    (alarm_starts_only_at_end audioRef_initial demo_w2 _ eq_refl demo_w2_reachable Hs eq_refl eq_refl)))))).
Defined.
