(* ===== verification/Json.v ===== *)
(** * The JSON text of the custom alarm list

    The component persists its alarm list with
    [JSON.stringify(customAlarms)] and reads it back with
    [JSON.parse(saved)] (App.jsx lines 48-51 and 69-71).  Each alarm is an
    object literal [{ id, name, data }] (line 245), so the text is an
    array of objects with the three string members in that order.

    [json_alarms] is [JSON.stringify] on such lists, with the escapes the
    standard prescribes (backslash-quote, backslash-backslash, [\b], [\f],
    [\n], [\r], [\t] and [\u00XX] for the other control characters).
    [json_decode] is [JSON.parse] restricted to the texts that denote such
    a list without white space; it fails ([None], where [JSON.parse]
    throws) on any other text.  Both are browser functions, not repository
    code; the file proves the round trip the persistence relies on.
    Characters are the 8-bit [ascii] of the Standard Library.  The
    decoder reads the items after the first with fuel; the last section
    proves that the fuel it gives is never the reason of a failure. *)

From S2P Require Import Prelude.
From Stdlib Require Import Ascii.
Open Scope nat_scope.

Record Alarm := mkAlarm { id : string; name : string; data : string }.

#[export] Instance Alarm_eq_dec : EqDecision Alarm.
Proof. solve_decision. Defined.

(** The double quote, character 34. *)
Definition quote : ascii := ascii_of_nat 34.

(** ** JSON.stringify *)

Definition hex_digit (n : nat) : ascii :=
  ascii_of_nat (if (n <? 10)%nat then 48 + n else 87 + n).

Definition escape_char (c : ascii) : string :=
  match nat_of_ascii c with
  | 34 => String "\" (String quote EmptyString)
  | 92 => String "\" (String "\" EmptyString)
  | 8 => "\b" | 12 => "\f" | 10 => "\n" | 13 => "\r" | 9 => "\t"
  | n => if (n <? 32)%nat
         then String "\" (String "u" (String "0" (String "0"
                (String (hex_digit (n / 16)) (String (hex_digit (n mod 16)) EmptyString)))))
         else String c EmptyString
  end.

Fixpoint escape_string (s : string) : string :=
  match s with
  | EmptyString => EmptyString
  | String c r => escape_char c +:+ escape_string r
  end.

Definition json_string (s : string) : string :=
  String quote (escape_string s +:+ String quote EmptyString).

Definition json_key (k : string) : string := json_string k +:+ ":".

Definition json_alarm (a : Alarm) : string :=
  "{" +:+ json_key "id" +:+ json_string (id a) +:+ "," +:+ json_key "name" +:+
  json_string (name a) +:+ "," +:+ json_key "data" +:+ json_string (data a) +:+ "}".

(** The members after the first, each preceded by a comma. *)
Fixpoint json_items (l : list Alarm) : string :=
  match l with
  | [] => EmptyString
  | a :: l' => "," +:+ json_alarm a +:+ json_items l'
  end.

Definition json_alarms (l : list Alarm) : string :=
  match l with
  | [] => "[]"
  | a :: l' => "[" +:+ json_alarm a +:+ json_items l' +:+ "]"
  end.

(** ** JSON.parse *)

Definition hex_val (c : ascii) : option nat :=
  let n := nat_of_ascii c in
  if (48 <=? n)%nat && (n <=? 57)%nat then Some (n - 48)%nat
  else if (97 <=? n)%nat && (n <=? 102)%nat then Some (n - 87)%nat
  else if (65 <=? n)%nat && (n <=? 70)%nat then Some (n - 55)%nat
  else None.

Definition simple_escape (e : ascii) : option ascii :=
  match nat_of_ascii e with
  | 34 => Some quote | 92 => Some "\"%char | 47 => Some "/"%char
  | 98 => Some (ascii_of_nat 8) | 102 => Some (ascii_of_nat 12) | 110 => Some (ascii_of_nat 10)
  | 114 => Some (ascii_of_nat 13) | 116 => Some (ascii_of_nat 9)
  | _ => None
  end.

Definition cons_fst (c : ascii) (o : option (string * string)) : option (string * string) :=
  match o with Some (x, rest) => Some (String c x, rest) | None => None end.

(** The characters of a string literal after its opening quote, up to
    and without the closing quote, and the text after it. *)
Fixpoint parse_chars (s : string) : option (string * string) :=
  match s with
  | EmptyString => None
  | String c r =>
      if Ascii.eqb c quote then Some (EmptyString, r)
      else if Ascii.eqb c "\"%char then
        match r with
        | EmptyString => None
        | String e r' =>
            match simple_escape e with
            | Some c' => cons_fst c' (parse_chars r')
            | None =>
                if Ascii.eqb e "u"%char then
                  match r' with
                  | String h1 (String h2 (String h3 (String h4 r''))) =>
                      match hex_val h1, hex_val h2, hex_val h3, hex_val h4 with
                      | Some a, Some b, Some c1, Some d =>
                          let n := (((a * 16 + b) * 16 + c1) * 16 + d)%nat in
                          if (n <? 256)%nat then cons_fst (ascii_of_nat n) (parse_chars r'')
                          else None
                      | _, _, _, _ => None
                      end
                  | _ => None
                  end
                else None
            end
        end
      else if (nat_of_ascii c <? 32)%nat then None
      else cons_fst c (parse_chars r)
  end.

Definition parse_string (s : string) : option (string * string) :=
  match s with
  | String q r => if Ascii.eqb q quote then parse_chars r else None
  | EmptyString => None
  end.

Fixpoint expect (lit s : string) : option string :=
  match lit, s with
  | EmptyString, _ => Some s
  | String c l, String d s' => if Ascii.eqb c d then expect l s' else None
  | String _ _, EmptyString => None
  end.

Definition parse_alarm (s : string) : option (Alarm * string) :=
  s1 ← expect ("{" +:+ json_key "id") s;
  '(i, s2) ← parse_string s1;
  s3 ← expect ("," +:+ json_key "name") s2;
  '(n, s4) ← parse_string s3;
  s5 ← expect ("," +:+ json_key "data") s4;
  '(d, s6) ← parse_string s5;
  s7 ← expect "}" s6;
  Some (mkAlarm i n d, s7).

Fixpoint parse_items (fuel : nat) (s : string) : option (list Alarm * string) :=
  match fuel with
  | O => None
  | S f =>
      match s with
      | String c r =>
          if Ascii.eqb c "]"%char then Some ([], r)
          else if Ascii.eqb c ","%char then
            '(a, r1) ← parse_alarm r; '(l, r2) ← parse_items f r1; Some (a :: l, r2)
          else None
      | EmptyString => None
      end
  end.

(** The characters a JSON text can start with: white space, and the
    first character of a value ([[], [{], a quote, a digit, [-], and the
    [t], [f], [n] of the literals).  [JSON.parse] throws on a text that
    starts with any other character. *)
Definition json_start (c : ascii) : bool :=
  let n := nat_of_ascii c in
  (n =? 32) || (n =? 9) || (n =? 10) || (n =? 13) || (n =? 91) || (n =? 123) || (n =? 34) ||
  (n =? 45) || ((48 <=? n) && (n <=? 57)) || (n =? 116) || (n =? 102) || (n =? 110).

Definition json_decode (text : string) : option (list Alarm) :=
  s1 ← expect "[" text;
  '(l, rest) ←
    match s1 with
    | String c r =>
        if Ascii.eqb c "]"%char then Some ([], r)
        else '(a, r1) ← parse_alarm s1; '(l, r2) ← parse_items (String.length s1) r1;
             Some (a :: l, r2)
    | EmptyString => None
    end;
  match rest with EmptyString => Some l | _ => None end.

(** ** The round trip *)

(** One escaped character reads back as itself (all 256 cases computed). *)
Lemma parse_escape_char c t : parse_chars (escape_char c +:+ t) = cons_fst c (parse_chars t).
Proof. destruct c as [[] [] [] [] [] [] [] []]; reflexivity. Qed.

Lemma parse_escape_string s t :
  parse_chars (escape_string s +:+ String quote t) = Some (s, t).
Proof.
  induction s as [|c s IH]; [reflexivity|]. simpl.
  rewrite string_app_assoc, parse_escape_char, IH. reflexivity.
Qed.

Lemma parse_string_json s t : parse_string (json_string s +:+ t) = Some (s, t).
Proof.
  unfold json_string. rewrite string_app_cons, string_app_assoc. simpl.
  apply parse_escape_string.
Qed.

Lemma expect_app lit s : expect lit (lit +:+ s) = Some s.
Proof.
  induction lit as [|c l IH]; [done|]. rewrite string_app_cons. simpl.
  by rewrite Ascii.eqb_refl.
Qed.

Lemma parse_alarm_json a t : parse_alarm (json_alarm a +:+ t) = Some (a, t).
Proof.
  assert (E : json_alarm a +:+ t =
    ("{" +:+ json_key "id") +:+ (json_string (id a) +:+ (("," +:+ json_key "name") +:+
    (json_string (name a) +:+ (("," +:+ json_key "data") +:+ (json_string (data a) +:+ ("}" +:+ t))))))).
  { unfold json_alarm. by autorewrite with tomi_rw. }
  rewrite E. unfold parse_alarm.
  do 3 (rewrite expect_app; cbn -[parse_string expect json_key json_string];
        rewrite parse_string_json; cbn -[parse_string expect json_key json_string]).
  rewrite expect_app. simpl. by destruct a.
Qed.

Lemma json_items_length l : length l <= String.length (json_items l).
Proof.
  induction l as [|a l IH]; simpl; [lia|].
  rewrite string_app_cons, string_length_app. simpl. lia.
Qed.

Lemma parse_items_json fuel l t :
  length l < fuel -> parse_items fuel (json_items l +:+ String "]" t) = Some (l, t).
Proof.
  revert fuel. induction l as [|a l IH]; intros [|fuel] Hf; simpl in *; try lia; [done|].
  rewrite string_app_nil_l, string_app_assoc, parse_alarm_json. simpl.
  rewrite IH by lia. done.
Qed.

(** [JSON.parse(JSON.stringify(l))] gives back the alarm list [l]. *)
Lemma json_roundtrip l : json_decode (json_alarms l) = Some l.
Proof.
  destruct l as [|a l]; [reflexivity|]. unfold json_decode, json_alarms.
  rewrite expect_app.
  assert (Hd : exists r, json_alarm a +:+ json_items l +:+ "]" = String "{" r)
    by (eexists; reflexivity).
  destruct Hd as [r Hr]. cbn -[parse_items parse_alarm]. rewrite Hr. cbn -[parse_items parse_alarm].
  rewrite <- Hr, parse_alarm_json. cbn -[parse_items]. rewrite parse_items_json; [done|].
  apply (f_equal String.length) in Hr. rewrite !string_length_app in Hr.
  pose proof (json_items_length l). simpl in Hr. lia.
Qed.

(** ** The fuel of [json_decode] is enough *)

Lemma expect_length lit s r : expect lit s = Some r -> String.length r + String.length lit = String.length s.
Proof.
  revert s. induction lit as [|c l IH]; intros s H; simpl in H.
  - injection H as <-. simpl. lia.
  - destruct s as [|d s']; [done|]. destruct (Ascii.eqb c d); [|done]. apply IH in H. simpl. lia.
Qed.

Lemma cons_fst_some c o x r : cons_fst c o = Some (x, r) -> exists x', o = Some (x', r).
Proof. destruct o as [[??]|]; simpl; [intros [= _ ->]; eauto|done]. Qed.

Lemma parse_chars_length s x r : parse_chars s = Some (x, r) -> String.length r < String.length s.
Proof.
  remember (String.length s) as n eqn:Hn. revert s x r Hn.
  induction n as [n IH] using lt_wf_ind. intros [|c s] x r Hn H; [done|]. simpl in H, Hn.
  destruct (Ascii.eqb c quote); [injection H as _ <-; lia|].
  destruct (Ascii.eqb c "\"%char).
  - destruct s as [|e s]; [done|]. simpl in Hn.
    destruct (simple_escape e).
    + apply cons_fst_some in H as [x' H]. apply (IH (String.length s)) in H; try lia.
    + destruct (Ascii.eqb e "u"%char); [|done].
      destruct s as [|h1 [|h2 [|h3 [|h4 s]]]]; try done. simpl in Hn.
      destruct (hex_val h1), (hex_val h2), (hex_val h3), (hex_val h4); try done.
      case_match; [|done]. apply cons_fst_some in H as [x' H]. apply (IH (String.length s)) in H; try lia.
  - destruct (nat_of_ascii c <? 32); [done|].
    apply cons_fst_some in H as [x' H]. apply (IH (String.length s)) in H; try lia.
Qed.

Lemma parse_string_length s x r : parse_string s = Some (x, r) -> String.length r < String.length s.
Proof.
  destruct s as [|q s]; [done|]. simpl. destruct (Ascii.eqb q quote); [|done].
  intros H. apply parse_chars_length in H. lia.
Qed.

Lemma parse_alarm_length s a r : parse_alarm s = Some (a, r) -> String.length r < String.length s.
Proof.
  unfold parse_alarm. intros H.
  destruct (expect _ s) as [s1|] eqn:E1; [|done]. cbn -[expect parse_string json_key] in H. apply expect_length in E1.
  destruct (parse_string s1) as [[i s2]|] eqn:E2; [|done]. cbn -[expect parse_string json_key] in H. apply parse_string_length in E2.
  destruct (expect _ s2) as [s3|] eqn:E3; [|done]. cbn -[expect parse_string json_key] in H. apply expect_length in E3.
  destruct (parse_string s3) as [[n s4]|] eqn:E4; [|done]. cbn -[expect parse_string json_key] in H. apply parse_string_length in E4.
  destruct (expect _ s4) as [s5|] eqn:E5; [|done]. cbn -[expect parse_string json_key] in H. apply expect_length in E5.
  destruct (parse_string s5) as [[d s6]|] eqn:E6; [|done]. cbn -[expect parse_string json_key] in H. apply parse_string_length in E6.
  destruct (expect _ s6) as [s7|] eqn:E7; [|done]. cbn -[expect parse_string json_key] in H. apply expect_length in E7.
  injection H as _ <-. simpl in *. lia.
Qed.

Lemma parse_items_fuel_mono f s :
  String.length s < f -> forall g, f <= g -> parse_items g s = parse_items f s.
Proof.
  revert s. induction f as [|f IH]; intros s Hs g Hg; [lia|].
  destruct g as [|g]; [lia|]. simpl. destruct s as [|c r]; [done|]. simpl in Hs.
  destruct (Ascii.eqb c "]"%char); [done|]. destruct (Ascii.eqb c ","%char); [|done].
  destruct (parse_alarm r) as [[a r1]|] eqn:Ha; [|done]. simpl.
  apply parse_alarm_length in Ha. by rewrite (IH r1 ltac:(lia) g ltac:(lia)).
Qed.


(** The reading of the list items terminates on its own: the fuel only
    bounds the number of items, and any fuel above the length of the text
    gives the same result as the length plus one.  [json_decode] gives the
    items after the first one the length of a longer text, so its answer
    never comes from running out of fuel. *)
Theorem parse_items_fuel_enough s fuel :
  String.length s < fuel -> parse_items fuel s = parse_items (S (String.length s)) s.
Proof. intros Hf. apply parse_items_fuel_mono; lia. Qed.

Definition demo_items : string := json_items [mkAlarm "1" "bell.mp3" "data:audio/mpeg;base64,SUQz"] +:+ "]".

Lemma parse_items_fuel_enough_witness :
  String.length demo_items < 500 /\
  parse_items 500 demo_items = parse_items (S (String.length demo_items)) demo_items.
Proof.
  assert (H : String.length demo_items < 500) by (vm_compute; lia).
  exact (conj H (parse_items_fuel_enough demo_items 500 H)).
Defined.

(** ** Lengths of the stored text *)

Lemma escape_char_length c : 1 <= String.length (escape_char c).
Proof. destruct c as [[] [] [] [] [] [] [] []]; simpl; lia. Qed.

Lemma escape_string_length s : String.length s <= String.length (escape_string s).
Proof.
  induction s as [|c s IH]; simpl; [lia|]. rewrite string_length_app.
  pose proof (escape_char_length c). lia.
Qed.

(** An item holds its id and at least 29 characters of syntax. *)
Lemma json_alarm_length a : String.length (id a) + 29 <= String.length (json_alarm a).
Proof.
  unfold json_alarm, json_key, json_string. rewrite !string_length_app. simpl.
  rewrite !string_length_app. simpl.
  pose proof (escape_string_length (id a)). lia.
Qed.

Lemma json_alarms_length l :
  String.length (json_alarms l) = match l with [] => 2 | _ => S (String.length (json_items l)) end.
Proof.
  destruct l as [|a l]; [done|]. simpl. rewrite !string_length_app. simpl. lia.
Qed.

Section Filter.
Context (P : Alarm -> Prop) `{!forall x, Decision (P x)}.

Lemma json_items_filter l : String.length (json_items (filter P l)) <= String.length (json_items l).
Proof.
  induction l as [|a l IH]; [done|]. rewrite filter_cons. simpl.
  case_decide; simpl; rewrite ?string_length_app; simpl; lia.
Qed.

Lemma json_items_filter_removed l x :
  x ∈ l -> ~ P x -> String.length (json_items (filter P l)) + S (String.length (json_alarm x)) <=
                    String.length (json_items l).
Proof.
  induction l as [|a l IH]; [by intros ?%elem_of_nil|]. intros [->|Hx]%elem_of_cons Hp;
    rewrite filter_cons; cbn -[json_alarm].
  - rewrite decide_False by done. rewrite !string_length_app. pose proof (json_items_filter l). cbn [String.length]. lia.
  - specialize (IH Hx Hp). case_decide; cbn -[json_alarm]; rewrite ?string_length_app; cbn [String.length]; lia.
Qed.

(** Removing items never lengthens the stored text; removing [x] shortens
    it by the length of [x]'s item at least. *)
Lemma json_alarms_filter l : String.length (json_alarms (filter P l)) <= String.length (json_alarms l).
Proof.
  destruct l as [|b l]; [done|]. rewrite !json_alarms_length. pose proof (json_items_filter (b :: l)).
  destruct (filter P (b :: l)); simpl in *; lia.
Qed.

Lemma json_alarms_filter_removed l x :
  x ∈ l -> ~ P x ->
  String.length (json_alarms (filter P l)) + String.length (json_alarm x) <= String.length (json_alarms l).
Proof.
  intros Hx Hp. pose proof (json_items_filter_removed l x Hx Hp) as Hi.
  destruct l as [|b l]; [by apply elem_of_nil in Hx|]. rewrite !json_alarms_length.
  destruct (filter P (b :: l)); simpl in *; lia.
Qed.

End Filter.
