(* ===== verification/Alarms.v ===== *)
(** * Custom alarm settings and their persistence

    The hooks of [App] that hold the alarm settings: [customAlarms] and
    [selectedAlarm] (lazy initial states read from [localStorage], lines
    48-54), [isOptionsOpen] (line 47), the file readers started by
    [handleFileChange] and not yet loaded, and the identity of the array
    held in [customAlarms] ([alarmsVersion]: React compares effect
    dependencies with [Object.is], and every [setCustomAlarms] passes a new
    array).  [localStorage] is a finite map from keys to strings.

    The handlers are [selectAlarm] (the [onClick] of an alarm item),
    [deleteAlarm] (lines 257-262), [handleFileChange] (lines 235-241) and
    [reader_onload] (lines 244-252), which runs later, when the browser has
    read the file, with the alarm list of the render that started the
    read.  [commit_alarms] runs the three effects of lines 69-88 after a
    render: save the list, save the selection, point the audio element at
    the selected sound.

    [localStorage.setItem] throws a [QuotaExceededError] when the keys and
    values of the origin would exceed its quota ([Quota], in characters).
    The code catches it nowhere: an effect that throws stops the effects
    after it, and React, with no error boundary above [App], unmounts the
    component.  [commit_alarms] reports whether an effect threw, with the
    storage as the throw left it. *)

From S2P Require Import Prelude Format Audio Json.
Open Scope Z_scope.

Module Alarms.

(** The storage quota of the origin, in characters of keys and values. *)
Class Quota := quota : nat.

(** The 5 MiB the common browsers give an origin, used by the sessions
    of the examples. *)
Definition browser_quota : Quota := 5242880%nat.

(** A file picked in the file input: name, size in bytes, and the data URL
    [readAsDataURL] produces for it. *)
Record File := mkFile { fname : string; fsize : Z; fdataURL : string }.

(** A [FileReader] started by [handleFileChange]: the alarm list its
    [onload] closure captured, and the file. *)
Record Pending := mkPending { snapshot : list Alarm; pfile : File }.

Record AlarmState := mkAlarms {
  customAlarms : list Alarm;
  alarmsVersion : nat;
  selectedAlarm : string;
  isOptionsOpen : bool;
  readers : list Pending
}.

(** The bundled URL of [/alarm.wav] (line 2). *)
Definition defaultAlarmSound : string := "/alarm.wav".

Definition too_large_message : string := "File is too large! Please choose a file under 2MB.".

(** ** The first render (lines 47-54) *)

(** [saved ? JSON.parse(saved) : []]; [None] when [JSON.parse] throws,
    which aborts the render of the whole component. *)
Definition load_customAlarms (st : gmap string string) : option (list Alarm) :=
  match st !! "customAlarms" with
  | Some saved => if bool_decide (saved = "") then Some [] else json_decode saved
  | None => Some []
  end.

(** [localStorage.getItem('selectedAlarm') || 'default']. *)
Definition load_selectedAlarm (st : gmap string string) : string :=
  match st !! "selectedAlarm" with
  | Some s => if bool_decide (s = "") then "default" else s
  | None => "default"
  end.

Definition mount_state (st : gmap string string) : option AlarmState :=
  l ← load_customAlarms st;
  Some {| customAlarms := l; alarmsVersion := 0; selectedAlarm := load_selectedAlarm st;
          isOptionsOpen := false; readers := [] |}.

(** ** Handlers *)

Definition setOptionsOpen (b : bool) (al : AlarmState) : AlarmState :=
  {| customAlarms := customAlarms al; alarmsVersion := alarmsVersion al;
     selectedAlarm := selectedAlarm al; isOptionsOpen := b; readers := readers al |}.

(** [setSelectedAlarm(k)], the [onClick] of an item of the list. *)
Definition selectAlarm (k : string) (al : AlarmState) : AlarmState :=
  {| customAlarms := customAlarms al; alarmsVersion := alarmsVersion al;
     selectedAlarm := k; isOptionsOpen := isOptionsOpen al; readers := readers al |}.

(** [deleteAlarm(id)] (lines 257-262). *)
Definition deleteAlarm (k : string) (al : AlarmState) : AlarmState :=
  {| customAlarms := filter (fun a => id a <> k) (customAlarms al);
     alarmsVersion := S (alarmsVersion al);
     selectedAlarm := if bool_decide (selectedAlarm al = k) then "default" else selectedAlarm al;
     isOptionsOpen := isOptionsOpen al; readers := readers al |}.

(** [handleFileChange(event)] (lines 235-241, 253): no file, a file over
    2 MB (an alert, nothing else), or a reader started with the current
    list captured. *)
Definition handleFileChange (file : option File) (al : AlarmState) : AlarmState * option string :=
  match file with
  | None => (al, None)
  | Some f =>
      if fsize f >? 2 * 1024 * 1024 then (al, Some too_large_message)
      else ({| customAlarms := customAlarms al; alarmsVersion := alarmsVersion al;
               selectedAlarm := selectedAlarm al; isOptionsOpen := isOptionsOpen al;
               readers := readers al ++ [mkPending (customAlarms al) f] |}, None)
  end.

(** [reader.onload] (lines 244-252) of the [k]-th pending reader, at the
    instant [now] of [Date.now()]. *)
Definition reader_onload (now : Z) (k : nat) (al : AlarmState) : AlarmState :=
  match readers al !! k with
  | None => al
  | Some p =>
      let newAlarm := {| id := js_toString now; name := fname (pfile p); data := fdataURL (pfile p) |} in
      {| customAlarms := snapshot p ++ [newAlarm]; alarmsVersion := S (alarmsVersion al);
         selectedAlarm := id newAlarm; isOptionsOpen := isOptionsOpen al;
         readers := delete k (readers al) |}
  end.

(** ** The storage *)

(** The characters the storage holds: every key and every value. *)
Definition storage_size (st : gmap string string) : nat :=
  map_fold (fun k v acc => String.length k + String.length v + acc)%nat 0%nat st.

(** [localStorage.setItem(k, v)]: the new storage, or [None] when it
    would exceed the quota and the call throws, leaving the storage as it
    was. *)
Definition setItem `{Quota} (k v : string) (st : gmap string string) : option (gmap string string) :=
  let st' := <[k:=v]> st in
  if (storage_size st' <=? quota)%nat then Some st' else None.

(** ** Effects (lines 69-88) *)

Section Effects.
Context {A : Type} `{AudioDevice A} `{Quota}.

(** The effect of lines 79-88: the default sound, the selected custom
    alarm's data, or nothing when the selected id is in no alarm. *)
Definition src_effect (al : AlarmState) (a : A) : A :=
  if bool_decide (selectedAlarm al = "default") then audio_set_src defaultAlarmSound a
  else match find (fun x => bool_decide (id x = selectedAlarm al)) (customAlarms al) with
       | Some x => audio_set_src (data x) a
       | None => a
       end.

(** The render after a handler: each effect runs when one of its
    dependencies changed ([customAlarms] by identity, [selectedAlarm] by
    value), in the order the component declares them.  The result is the
    storage, the element, and whether a [setItem] threw; a throw skips
    the effects after it. *)
Definition commit_alarms (old new : AlarmState) (st : gmap string string) (a : A)
    : gmap string string * A * bool :=
  let list_changed := negb (Nat.eqb (alarmsVersion old) (alarmsVersion new)) in
  let sel_changed := negb (bool_decide (selectedAlarm old = selectedAlarm new)) in
  match (if list_changed then setItem "customAlarms" (json_alarms (customAlarms new)) st else Some st) with
  | None => (st, a, true)
  | Some st1 =>
      match (if sel_changed then setItem "selectedAlarm" (selectedAlarm new) st1 else Some st1) with
      | None => (st1, a, true)
      | Some st2 => (st2, if list_changed || sel_changed then src_effect new a else a, false)
      end
  end.

(** The mount: the first render from the stored settings, then the first
    run of every effect.  [None] when the stored list does not parse or a
    first save throws: the component does not stay mounted. *)
Definition mount (st : gmap string string) (a : A) : option (AlarmState * gmap string string * A) :=
  al ← mount_state st;
  st1 ← setItem "customAlarms" (json_alarms (customAlarms al)) st;
  st2 ← setItem "selectedAlarm" (selectedAlarm al) st1;
  Some (al, st2, src_effect al a).

End Effects.

(** ** Functional behaviour of the handlers *)

(** [deleteAlarm] removes exactly the alarms with that id, keeps the
    others in order, and falls back to the default sound when it removes
    the selected one. *)
Lemma deleteAlarm_spec k al :
  (forall x, x ∈ customAlarms (deleteAlarm k al) <-> x ∈ customAlarms al /\ id x <> k) /\
  selectedAlarm (deleteAlarm k al) =
    (if bool_decide (selectedAlarm al = k) then "default" else selectedAlarm al).
Proof. split; [|done]. intros x. simpl. rewrite list_elem_of_filter. tauto. Qed.

Lemma handleFileChange_too_large f al :
  2 * 1024 * 1024 < fsize f -> handleFileChange (Some f) al = (al, Some too_large_message).
Proof. intros Hf. unfold handleFileChange. z_cases; [done | lia]. Qed.

(** A file within the limit, read to its end with nothing in between:
    the new alarm is appended and selected. *)
Lemma upload_then_load now f al :
  fsize f <= 2 * 1024 * 1024 -> readers al = [] ->
  reader_onload now 0 (handleFileChange (Some f) al).1 =
    {| customAlarms := customAlarms al ++ [mkAlarm (js_toString now) (fname f) (fdataURL f)];
       alarmsVersion := S (alarmsVersion al); selectedAlarm := js_toString now;
       isOptionsOpen := isOptionsOpen al; readers := [] |}.
Proof.
  intros Hf Hr. unfold handleFileChange. z_cases; [lia|]. unfold reader_onload. simpl.
  by rewrite Hr.
Qed.

(** ** Persistence *)

(** The stored settings are those of the state. *)
Definition synced (al : AlarmState) (st : gmap string string) : Prop :=
  st !! "customAlarms" = Some (json_alarms (customAlarms al)) /\
  st !! "selectedAlarm" = Some (selectedAlarm al).

Section Persistence.
Context {A : Type} `{AudioLaws A} `{Quota}.

Lemma storage_size_insert_new st k v :
  st !! k = None -> storage_size (<[k:=v]> st) = (String.length k + String.length v + storage_size st)%nat.
Proof. intros Hk. unfold storage_size. rewrite map_fold_insert_L; [done| |done]. intros. lia. Qed.

(** Replacing a value changes the size by the difference of lengths. *)
Lemma storage_size_replace st k v v' :
  st !! k = Some v ->
  (storage_size (<[k:=v']> st) + String.length v = storage_size st + String.length v')%nat.
Proof.
  intros Hk. rewrite <- (insert_delete_id st k v Hk) at 2. rewrite <- insert_delete_eq.
  rewrite !storage_size_insert_new by apply lookup_delete_eq. lia.
Qed.

Lemma setItem_Some k v st st' :
  setItem k v st = Some st' -> st' = <[k:=v]> st /\ (storage_size st' <= quota)%nat.
Proof. unfold setItem. case_match eqn:E; [|done]. intros [= <-]. split; [done|]. by apply Nat.leb_le. Qed.

(** A shorter value (or the same one) always fits. *)
Lemma setItem_shorter k v v' st :
  st !! k = Some v -> (String.length v' <= String.length v)%nat -> (storage_size st <= quota)%nat ->
  setItem k v' st = Some (<[k:=v']> st).
Proof.
  intros Hk Hl Hs. unfold setItem. pose proof (storage_size_replace st k v v' Hk).
  rewrite (proj2 (Nat.leb_le _ _)) by lia. done.
Qed.

(** Writing back the value a key holds changes nothing. *)
Lemma setItem_same k v st :
  st !! k = Some v -> (storage_size st <= quota)%nat -> setItem k v st = Some st.
Proof. intros Hk Hs. rewrite (setItem_shorter k v v st Hk) by done. by rewrite insert_id. Qed.

Lemma commit_synced old new st (a : A) st' a' :
  synced old st ->
  (alarmsVersion old = alarmsVersion new -> customAlarms old = customAlarms new) ->
  commit_alarms old new st a = (st', a', false) -> synced new st'.
Proof.
  intros [Hl Hs] Hv. unfold commit_alarms, synced.
  destruct (Nat.eqb_spec (alarmsVersion old) (alarmsVersion new)) as [Ev|Ev];
    destruct (decide (selectedAlarm old = selectedAlarm new)) as [Es|Es];
    rewrite ?bool_decide_true, ?bool_decide_false by done; simpl.
  all: repeat match goal with
       | |- context [setItem ?k ?v ?t] =>
           destruct (setItem k v t) as [?|] eqn:?; [|done]
       | H : setItem _ _ _ = Some _ |- _ => apply setItem_Some in H as [-> _]
       end.
  all: intros [= <- _]; split; repeat (rewrite lookup_insert_eq || rewrite lookup_insert_ne by done).
  all: rewrite ?Hl, ?Hs, ?(Hv Ev), ?Es; done.
Qed.

(** The storage stays within the quota, whether an effect threw or not. *)
Lemma commit_fits old new st (a : A) st' a' b :
  (storage_size st <= quota)%nat -> commit_alarms old new st a = (st', a', b) -> (storage_size st' <= quota)%nat.
Proof.
  intros Hs. unfold commit_alarms.
  repeat match goal with
  | |- context [if ?c then _ else _] => destruct c
  | |- context [match setItem ?k ?v ?t with _ => _ end] =>
      let E := fresh in destruct (setItem k v t) as [?|] eqn:E; [apply setItem_Some in E as [-> ?]|]
  end; intros [= <- _ _]; done.
Qed.

Lemma mount_synced st (a : A) al st' a' :
  mount st a = Some (al, st', a') -> synced al st' /\ (storage_size st' <= quota)%nat.
Proof.
  unfold mount. destruct (mount_state st) as [al0|]; simpl; [|done].
  destruct (setItem _ _ st) as [st1|] eqn:E1; simpl; [|done]. apply setItem_Some in E1 as [-> _].
  destruct (setItem _ _ _) as [st2|] eqn:E2; simpl; [|done]. apply setItem_Some in E2 as [-> ?].
  intros [= <- <- _]. unfold synced.
  rewrite lookup_insert_eq, lookup_insert_ne, lookup_insert_eq by done. done.
Qed.

End Persistence.

(** Reading back the settings the state stored gives the state again,
    with the dialog closed and no reader pending. *)
Lemma reload_synced al st :
  synced al st -> selectedAlarm al <> "" ->
  mount_state st = Some {| customAlarms := customAlarms al; alarmsVersion := 0;
                           selectedAlarm := selectedAlarm al; isOptionsOpen := false; readers := [] |}.
Proof.
  intros [Hl Hs] Hne. unfold mount_state, load_customAlarms, load_selectedAlarm.
  rewrite Hl, Hs.
  rewrite (bool_decide_false (json_alarms _ = "")) by (destruct (customAlarms al); discriminate).
  rewrite json_roundtrip, bool_decide_false by done. done.
Qed.

End Alarms.
