(* ===== verification/AlarmRun.v ===== *)
(** * The settings dialog as a transition system

    The events the view of App.jsx dispatches to the alarm settings: the
    settings button (line 305), the close button and the overlay (lines
    587-593), a click on an alarm of the list (lines 603 and 612), its
    delete button (lines 617-620), the file input (line 635) and the
    [onload] of a reader it started.  [enabled] is what the view offers:
    the controls of the dialog exist only while it is open, and only the
    listed alarms can be clicked.  An event runs its handler, then the
    render commits the effects of lines 69-88 ([Alarms.commit_alarms]).
    An event whose commit throws (a [setItem] over the quota) is no step:
    React unmounts the component ([alarm_throws], and [App] for what the
    unmount leaves); the worlds reachable from a mount are those of a
    mounted component.

    The invariant [alarm_inv] of every such world says that the storage
    holds the state and fits the quota, that the selection names the
    default sound or a listed alarm, and that the audio element holds the
    selected sound. *)

From S2P Require Import Prelude Format Audio Json Alarms.
From Stdlib Require Import Ascii.
Open Scope Z_scope.
Import Alarms.

Module AlarmRun.

Inductive AEvent :=
  | AOpen
  | AClose
  | ASelect (k : string)
  | ADelete (k : string)
  | AFile (f : option File)
  | ALoad (now : Z) (k : nat).

(** The selection names the default sound or an alarm of the list. *)
Definition sel_valid (al : AlarmState) : Prop :=
  selectedAlarm al = "default" \/ Exists (fun x => id x = selectedAlarm al) (customAlarms al).

Definition ids_nonempty (l : list Alarm) : Prop := Forall (fun x => id x <> "") l.

(** The stored settings a mount can start from without breaking the
    invariant. *)
Definition settings_ok (al : AlarmState) : bool :=
  bool_decide (sel_valid al /\ ids_nonempty (customAlarms al)).

(** What the view offers in state [al]. *)
Definition enabled (ev : AEvent) (al : AlarmState) : bool :=
  match ev with
  | AOpen => true
  | AClose => isOptionsOpen al
  | ASelect k => isOptionsOpen al &&
      bool_decide (k = "default" \/ Exists (fun x => id x = k) (customAlarms al))
  | ADelete k => isOptionsOpen al && bool_decide (Exists (fun x => id x = k) (customAlarms al))
  | AFile _ => isOptionsOpen al
  | ALoad _ k => bool_decide (k < length (readers al))%nat
  end.

(** The handler of an event: the new state and the message of an
    [alert], if any. *)
Definition handle (ev : AEvent) (al : AlarmState) : AlarmState * option string :=
  match ev with
  | AOpen => (setOptionsOpen true al, None)
  | AClose => (setOptionsOpen false al, None)
  | ASelect k => (selectAlarm k al, None)
  | ADelete k => (deleteAlarm k al, None)
  | AFile f => handleFileChange f al
  | ALoad now k => (reader_onload now k al, None)
  end.

(** The sound the selection denotes, as the effect of lines 79-88 finds it. *)
Definition sound_of (al : AlarmState) : string :=
  if bool_decide (selectedAlarm al = "default") then defaultAlarmSound
  else match find (fun x => bool_decide (id x = selectedAlarm al)) (customAlarms al) with
       | Some x => data x
       | None => defaultAlarmSound
       end.

Section Run.
Context {A : Type} `{AudioDevice A} `{Quota}.

Record AWorld := mkAW {
  alarms : AlarmState;
  store : gmap string string;
  player : A;
  alerts : list string
}.

(** The world after the handler of [ev] and the commit of its render;
    when an effect threw, the storage is the one the throw left. *)
Definition alarm_event (ev : AEvent) (w : AWorld) : AWorld :=
  let '(al', msg) := handle ev (alarms w) in
  let '(st', a', _) := commit_alarms (alarms w) al' (store w) (player w) in
  {| alarms := al'; store := st'; player := a'; alerts := alerts w ++ option_list msg |}.

(** Whether an effect of the commit after [ev] throws. *)
Definition alarm_throws (ev : AEvent) (w : AWorld) : bool :=
  (commit_alarms (alarms w) (handle ev (alarms w)).1 (store w) (player w)).2.

Inductive alarm_step : AWorld -> AWorld -> Prop :=
  | alarm_step_ev ev w : enabled ev (alarms w) = true -> alarm_throws ev w = false ->
      alarm_step w (alarm_event ev w).

Definition mount_world (st : gmap string string) (a0 : A) : option AWorld :=
  '(al, st', a') ← mount st a0; Some {| alarms := al; store := st'; player := a'; alerts := [] |}.

(** Worlds reachable from a mount on settings [settings_ok] with the
    element holding the default sound ([new Audio(defaultAlarmSound)]). *)
Inductive alarm_reach : AWorld -> Prop :=
  | alarm_reach_init st a0 w :
      mount_world st a0 = Some w -> settings_ok (alarms w) = true ->
      audio_src a0 = defaultAlarmSound -> alarm_reach w
  | alarm_reach_step w w' : alarm_reach w -> alarm_step w w' -> alarm_reach w'.

Record settings_inv (al : AlarmState) : Prop := {
  si_sel : sel_valid al;
  si_ids : ids_nonempty (customAlarms al);
  si_readers : Forall (fun p => ids_nonempty (snapshot p)) (readers al)
}.

Record alarm_inv (w : AWorld) : Prop := {
  ai_synced : synced (alarms w) (store w);
  ai_fits : (storage_size (store w) <= quota)%nat;
  ai_settings : settings_inv (alarms w);
  ai_src : audio_src (player w) = sound_of (alarms w)
}.

End Run.

(** ** The handlers keep the settings well formed *)

Lemma find_Exists k (l : list Alarm) :
  Exists (fun x => id x = k) l ->
  exists x, find (fun x => bool_decide (id x = k)) l = Some x /\ id x = k.
Proof.
  induction 1 as [x l Hx|x l _ IH]; simpl; case_bool_decide; eauto; done.
Qed.

Lemma filter_Exists k k' (l : list Alarm) :
  k' <> k -> Exists (fun x => id x = k') l ->
  Exists (fun x => id x = k') (filter (fun a => id a <> k) l).
Proof.
  rewrite !Exists_exists. intros Hk [x [Hx Hid]]. exists x.
  rewrite list_elem_of_filter. naive_solver.
Qed.

Lemma filter_ids_nonempty k (l : list Alarm) :
  ids_nonempty l -> ids_nonempty (filter (fun a => id a <> k) l).
Proof.
  unfold ids_nonempty. rewrite !Forall_forall. intros Hl x. rewrite list_elem_of_filter.
  naive_solver.
Qed.

(** The list changes only with a new array. *)
Lemma handle_deps ev al :
  alarmsVersion al = alarmsVersion (handle ev al).1 -> customAlarms al = customAlarms (handle ev al).1.
Proof.
  destruct ev as [| |k|k|[f|]|now k]; simpl; try done; try lia.
  - unfold handleFileChange. z_cases; done.
  - unfold reader_onload. destruct (readers al !! k); simpl; [lia|done].
Qed.

Lemma handle_settings_inv ev al :
  enabled ev al = true -> settings_inv al -> settings_inv (handle ev al).1.
Proof.
  intros Hen [Hsel Hids Hrd]. destruct ev as [| |k|k|[f|]|now k]; simpl in *.
  - by constructor.
  - by constructor.
  - apply andb_prop in Hen as [_ Hk]. apply bool_decide_eq_true in Hk. by constructor.
  - constructor; simpl; [|by apply filter_ids_nonempty|done].
    unfold sel_valid in *; simpl.
    destruct (decide (selectedAlarm al = k)); [rewrite bool_decide_true by done; by left|].
    rewrite bool_decide_false by done. destruct Hsel as [Hd|Hex]; [by left|right]. by apply filter_Exists.
  - unfold handleFileChange. z_cases; [by constructor|].
    constructor; simpl; try done. apply Forall_app; auto.
  - by constructor.
  - unfold reader_onload. destruct (readers al !! k) as [p|] eqn:Hp; [|by constructor].
    constructor; simpl.
    + right. apply Exists_app. right. by constructor.
    + apply Forall_app. split; [exact (Forall_lookup_1 _ _ _ _ Hrd Hp)|].
      constructor; [apply js_toString_nonempty|done].
    + by apply Forall_delete.
Qed.

Lemma sel_nonempty al : settings_inv al -> selectedAlarm al <> "".
Proof.
  intros [[Hd|Hex] Hids _]; [by rewrite Hd|].
  apply Exists_exists in Hex as [x [Hx <-]]. unfold ids_nonempty in Hids.
  rewrite Forall_forall in Hids. by apply Hids.
Qed.

Lemma sound_of_same al al' :
  customAlarms al = customAlarms al' -> selectedAlarm al = selectedAlarm al' -> sound_of al = sound_of al'.
Proof. unfold sound_of. by intros -> ->. Qed.

Lemma alarm_event_alarms {A} `{AudioDevice A} `{Quota} ev (w : AWorld (A:=A)) :
  alarms (alarm_event ev w) = (handle ev (alarms w)).1.
Proof.
  unfold alarm_event. destruct (handle ev (alarms w)).
  by destruct (commit_alarms _ _ _ _) as [[??]?].
Qed.

Lemma alarm_event_store {A} `{AudioDevice A} `{Quota} ev (w : AWorld (A:=A)) :
  store (alarm_event ev w) = (commit_alarms (alarms w) (handle ev (alarms w)).1 (store w) (player w)).1.1.
Proof.
  unfold alarm_event. destruct (handle ev (alarms w)).
  by destruct (commit_alarms _ _ _ _) as [[??]?].
Qed.

Lemma alarm_event_player {A} `{AudioDevice A} `{Quota} ev (w : AWorld (A:=A)) :
  player (alarm_event ev w) = (commit_alarms (alarms w) (handle ev (alarms w)).1 (store w) (player w)).1.2.
Proof.
  unfold alarm_event. destruct (handle ev (alarms w)).
  by destruct (commit_alarms _ _ _ _) as [[??]?].
Qed.

Lemma commit_alarms_same {A} `{AudioDevice A} `{Quota} al st (a : A) : commit_alarms al al st a = (st, a, false).
Proof. unfold commit_alarms. by rewrite Nat.eqb_refl, bool_decide_true. Qed.

(** ** The audio source follows the selection *)

Section Inv.
Context {A : Type} `{AudioLaws A} `{Quota}.

Lemma src_effect_sound al (a : A) : sel_valid al -> audio_src (src_effect al a) = sound_of al.
Proof.
  intros Hv. unfold src_effect, sound_of.
  destruct (decide (selectedAlarm al = "default")) as [E|E].
  - rewrite !bool_decide_true by done. apply set_src_src.
  - rewrite !bool_decide_false by done. destruct Hv as [|Hex]; [done|].
    destruct (find_Exists _ _ Hex) as [x [-> _]]. apply set_src_src.
Qed.

(** A commit that does not throw leaves the element on the sound of the
    new state. *)
Lemma commit_sound old new st (a : A) st' a' :
  (alarmsVersion old = alarmsVersion new -> customAlarms old = customAlarms new) ->
  sel_valid new -> audio_src a = sound_of old ->
  commit_alarms old new st a = (st', a', false) -> audio_src a' = sound_of new.
Proof.
  intros Hv Hsel Ha. unfold commit_alarms.
  destruct (Nat.eqb_spec (alarmsVersion old) (alarmsVersion new)) as [Ev|Ev];
    destruct (decide (selectedAlarm old = selectedAlarm new)) as [Es|Es];
    rewrite ?bool_decide_true, ?bool_decide_false by done; simpl;
    repeat (case_match; try done); intros [= _ <-];
    [rewrite Ha; apply sound_of_same; auto | ..]; by apply src_effect_sound.
Qed.

Lemma alarm_event_inv ev (w : AWorld) :
  enabled ev (alarms w) = true -> alarm_throws ev w = false -> alarm_inv w -> alarm_inv (alarm_event ev w).
Proof.
  intros Hen Hth [Hs Hfit Hset Hsrc]. unfold alarm_event, alarm_throws in *.
  pose proof (handle_deps ev (alarms w)) as Hd.
  pose proof (handle_settings_inv ev _ Hen Hset) as Hset'.
  destruct (handle ev (alarms w)) as [al' msg]. cbn -[commit_alarms] in *.
  destruct (commit_alarms (alarms w) al' (store w) (player w)) as [[st' a'] b] eqn:Ec.
  simpl in Hth. subst b.
  pose proof (commit_synced _ _ _ _ _ _ Hs Hd Ec) as Hs'.
  pose proof (commit_fits _ _ _ _ _ _ _ Hfit Ec) as Hf'.
  pose proof (commit_sound _ _ _ _ _ _ Hd (si_sel _ Hset') Hsrc Ec) as Ha'. by constructor.
Qed.

Lemma mount_player st (a : A) al st' a' :
  mount st a = Some (al, st', a') -> mount_state st = Some al /\ a' = src_effect al a.
Proof.
  unfold mount. destruct (mount_state st); simpl; [|done].
  destruct (setItem _ _ st); simpl; [|done]. destruct (setItem _ _ _); simpl; [|done].
  by intros [= <- _ <-].
Qed.

Lemma mount_world_player st (a0 : A) w : mount_world st a0 = Some w -> player w = src_effect (alarms w) a0.
Proof.
  unfold mount_world. destruct (mount st a0) as [[[al st'] a']|] eqn:Em; [|done].
  intros [= <-]. simpl. by destruct (mount_player _ _ _ _ _ Em) as [_ ->].
Qed.

Lemma mount_world_inv st (a0 : A) w :
  mount_world st a0 = Some w -> settings_ok (alarms w) = true ->
  audio_src a0 = defaultAlarmSound -> alarm_inv w.
Proof.
  unfold mount_world. destruct (mount st a0) as [[[al st'] a']|] eqn:Em; [|done].
  intros [= <-] Hok Ha0. simpl in *. apply bool_decide_eq_true in Hok as [Hsel Hids].
  destruct (mount_synced st a0 al st' a' Em) as [Hs Hf].
  destruct (mount_player st a0 al st' a' Em) as [Hms ->].
  unfold mount_state in Hms. destruct (load_customAlarms st); simplify_eq/=.
  constructor; simpl; [done|done| by constructor |]. by apply src_effect_sound.
Qed.

(** ** A deletion always fits the quota *)

Lemma delete_version al k : Nat.eqb (alarmsVersion al) (alarmsVersion (deleteAlarm k al)) = false.
Proof. apply Nat.eqb_neq. simpl. lia. Qed.

(** The list a deletion saves is never longer than the stored one. *)
Lemma delete_list_fits (w : AWorld (A:=A)) k :
  alarm_inv w ->
  setItem "customAlarms" (json_alarms (customAlarms (deleteAlarm k (alarms w)))) (store w) =
  Some (<["customAlarms" := json_alarms (customAlarms (deleteAlarm k (alarms w)))]> (store w)).
Proof.
  intros [[Hl _] Hfit _ _]. apply (setItem_shorter _ _ _ _ Hl); [apply json_alarms_filter|done].
Qed.

(** When the selected alarm goes, ["default"] replaces its id: the item
    removed from the list holds that id and more than seven characters. *)
Lemma delete_selection_fits (w : AWorld (A:=A)) k :
  alarm_inv w -> Exists (fun x => id x = k) (customAlarms (alarms w)) -> selectedAlarm (alarms w) = k ->
  let st1 := <["customAlarms" := json_alarms (customAlarms (deleteAlarm k (alarms w)))]> (store w) in
  setItem "selectedAlarm" "default" st1 = Some (<["selectedAlarm" := "default"]> st1).
Proof.
  intros [[Hl Hs] Hfit _ _] Hex Hk st1. apply Exists_exists in Hex as [x [Hx Hid]].
  pose proof (json_alarms_filter_removed (fun a => id a <> k) _ x Hx ltac:(naive_solver)) as Hlen.
  pose proof (json_alarm_length x) as Hx'.
  pose proof (storage_size_replace _ _ _ (json_alarms (customAlarms (deleteAlarm k (alarms w)))) Hl) as E1.
  assert (Hs1 : st1 !! "selectedAlarm" = Some k) by (unfold st1; rewrite lookup_insert_ne by done; by rewrite Hs, Hk).
  pose proof (storage_size_replace _ _ _ "default" Hs1) as E2.
  unfold setItem. rewrite (proj2 (Nat.leb_le _ _)); [done|]. unfold st1 in *. simpl in *. lia.
Qed.

Lemma delete_never_throws_gen (w : AWorld (A:=A)) k :
  alarm_inv w -> enabled (ADelete k) (alarms w) = true -> alarm_throws (ADelete k) w = false.
Proof.
  intros Hi Hen. apply andb_prop in Hen as [_ Hex%bool_decide_eq_true].
  unfold alarm_throws, commit_alarms. cbn [handle fst]. rewrite delete_version, delete_list_fits by done.
  cbn [negb]. destruct (decide (selectedAlarm (alarms w) = selectedAlarm (deleteAlarm k (alarms w)))) as [E|E].
  - by rewrite bool_decide_true by done.
  - rewrite bool_decide_false by done.
    destruct (decide (selectedAlarm (alarms w) = k)) as [Hk|Hk].
    + assert (Hd : selectedAlarm (deleteAlarm k (alarms w)) = "default")
        by (simpl; by rewrite bool_decide_true).
      rewrite Hd, delete_selection_fits by done. done.
    + exfalso. apply E. simpl. by rewrite bool_decide_false.
Qed.

(** A render whose new list does not fit throws at the first save: the
    storage, the element and the rest of the effects are left as they
    were. *)
Lemma list_overflow (w : AWorld (A:=A)) ev :
  alarmsVersion (alarms w) <> alarmsVersion (handle ev (alarms w)).1 ->
  (quota < storage_size (<["customAlarms" := json_alarms (customAlarms (handle ev (alarms w)).1)]> (store w)))%nat ->
  commit_alarms (alarms w) (handle ev (alarms w)).1 (store w) (player w) = (store w, player w, true).
Proof.
  intros Hv Hq. unfold commit_alarms. rewrite (proj2 (Nat.eqb_neq _ _) Hv). simpl.
  unfold setItem. by rewrite (proj2 (Nat.leb_gt _ _) Hq).
Qed.

(** After a deletion the storage holds the new list, whatever the save
    of the selection does. *)
Lemma delete_saves_list (w : AWorld (A:=A)) k :
  alarm_inv w ->
  store (alarm_event (ADelete k) w) !! "customAlarms" =
    Some (json_alarms (customAlarms (deleteAlarm k (alarms w)))).
Proof.
  intros Hi. rewrite alarm_event_store. unfold commit_alarms. cbn [handle fst].
  rewrite delete_version, delete_list_fits by done. cbn [negb].
  destruct (negb _); [destruct (setItem _ _ _) as [st2|] eqn:E|]; simpl;
    [apply setItem_Some in E as [-> _]; rewrite lookup_insert_ne by done| |];
    by rewrite lookup_insert_eq.
Qed.

Lemma alarm_reach_inv_gen (w : AWorld) : alarm_reach w -> alarm_inv w.
Proof.
  induction 1 as [st a0 w Hm Hok Ha0|w w' _ IH Hst].
  - by eapply mount_world_inv.
  - destruct Hst as [ev w Hen Hth]. by apply alarm_event_inv.
Qed.

End Inv.



(** ** What the settings dialog guarantees *)

Section Claims.
Context {A : Type} `{AudioLaws A} `{Quota}.

(** C20: while the component stays mounted, the storage follows the
    state: every world reachable from a mount by events whose saves fit
    the quota (an event whose save throws unmounts the component, C12)
    keeps the storage equal to the state (both keys) and within the
    quota, keeps the selection on the default sound or a listed alarm
    with non-empty ids, and keeps the audio element on the selected
    sound. *)
Theorem alarm_reach_inv (w : AWorld (A:=A)) : alarm_reach w -> alarm_inv w.
Proof. apply alarm_reach_inv_gen. Qed.

(** C21: reloading the page in any world of the mounted component
    restores the alarm list and the selection the user left (after an
    upload that overflowed the quota, the reload restores the settings
    before it, C12). *)
Theorem reload_restores_settings (w : AWorld (A:=A)) :
  alarm_reach w ->
  mount_state (store w) =
    Some {| customAlarms := customAlarms (alarms w); alarmsVersion := 0;
            selectedAlarm := selectedAlarm (alarms w); isOptionsOpen := false; readers := [] |}.
Proof.
  intros Hr. destruct (alarm_reach_inv_gen w Hr) as [Hs _ Hset _].
  apply reload_synced; [done|]. by apply sel_nonempty.
Qed.

(** C22: deleting an alarm removes exactly the alarms with that id, keeps
    the selection unless it was the deleted alarm (then [default]), and
    the storage already holds the new list. *)
Theorem delete_persisted (w : AWorld (A:=A)) k :
  alarm_reach w ->
  let w' := alarm_event (ADelete k) w in
  (forall x, x ∈ customAlarms (alarms w') <-> x ∈ customAlarms (alarms w) /\ id x <> k) /\
  selectedAlarm (alarms w') =
    (if bool_decide (selectedAlarm (alarms w) = k) then "default" else selectedAlarm (alarms w)) /\
  store w' !! "customAlarms" = Some (json_alarms (customAlarms (alarms w'))) /\
  json_decode (json_alarms (customAlarms (alarms w'))) = Some (customAlarms (alarms w')).
Proof.
  intros Hr w'.
  assert (Hw' : alarms w' = deleteAlarm k (alarms w)) by exact (alarm_event_alarms (ADelete k) w).
  rewrite Hw', json_roundtrip. destruct (deleteAlarm_spec k (alarms w)) as [Hm Hsel].
  split; [done|split; [done|split; [|done]]].
  unfold w'. apply delete_saves_list, alarm_reach_inv_gen, Hr.
Qed.

End Claims.

Section Delete.
Context {A : Type} `{AudioLaws A} `{Quota}.

(** C13: a deletion never overflows the storage: in every reachable
    world, deleting a listed alarm (the only deletion the dialog offers)
    saves a list that is shorter than the stored one and, when the
    deleted alarm was selected, the word ['default'] in place of its id,
    which the removed item outweighs; no effect of its render throws, so
    a deletion never unmounts the component. *)
Theorem delete_never_throws (w : AWorld (A:=A)) k :
  alarm_reach w -> enabled (ADelete k) (alarms w) = true -> alarm_throws (ADelete k) w = false.
Proof. intros Hr Hen. apply delete_never_throws_gen; [by apply alarm_reach_inv_gen|done]. Qed.

End Delete.

(** C23: a file over 2 MB changes nothing but the alert it raises: no
    reader starts, the list, the selection, the storage and the audio
    element stay as they were. *)
Theorem oversized_upload_rejected {A} `{AudioDevice A} `{Quota} (w : AWorld (A:=A)) f :
  2 * 1024 * 1024 < fsize f ->
  alarm_event (AFile (Some f)) w =
    {| alarms := alarms w; store := store w; player := player w;
       alerts := alerts w ++ [too_large_message] |}.
Proof.
  intros Hf. unfold alarm_event. cbn -[handleFileChange commit_alarms].
  rewrite handleFileChange_too_large by done.
  by rewrite commit_alarms_same.
Qed.

(** C24: a reader appends the new alarm to the list of the render that
    started it: an alarm deleted while the file was being read comes back
    when the read ends. *)
Theorem stale_reader_restores {A} `{AudioDevice A} `{Quota} (w : AWorld (A:=A)) f k now :
  readers (alarms w) = [] -> fsize f <= 2 * 1024 * 1024 ->
  customAlarms (alarms (alarm_event (ALoad now 0)
    (alarm_event (ADelete k) (alarm_event (AFile (Some f)) w)))) =
  customAlarms (alarms w) ++ [mkAlarm (js_toString now) (fname f) (fdataURL f)].
Proof.
  intros Hr Hf. rewrite !alarm_event_alarms. simpl.
  unfold handleFileChange. z_cases; [lia|]. unfold reader_onload. simpl. by rewrite Hr.
Qed.

(** C25: a stored list that is not JSON text at all, because its first
    character can start no JSON text (a stored ["undefined"], ["NaN"] or
    an HTML page, for instance), makes [JSON.parse] throw in the first
    render: the mount produces no state at all. *)
Theorem malformed_storage_aborts_mount {A} `{AudioDevice A} `{Quota} (st : gmap string string) (a0 : A) c r :
  st !! "customAlarms" = Some (String c r) -> json_start c = false -> mount_world st a0 = None.
Proof.
  intros Hs Hc. unfold mount_world, mount, mount_state, load_customAlarms. rewrite Hs.
  rewrite bool_decide_false by done. unfold json_decode. cbn [expect].
  destruct (Ascii.eqb_spec "["%char c) as [<-|Hne]; [discriminate Hc|done].
Qed.

(** ** A session

    The first mount on an empty storage, the dialog opened, a file of
    48 kB chosen and read at the instant 1700000000000. *)

#[local] Existing Instance browser_quota.

Definition demo_file : File := mkFile "bell.mp3" 48000 "data:audio/mpeg;base64,SUQz".
Definition demo_big : File := mkFile "song.wav" (3 * 1024 * 1024) "data:audio/wav;base64,UklG".

Definition demo_aw0 : AWorld (A:=AudioEl) :=
  {| alarms := {| customAlarms := []; alarmsVersion := 0; selectedAlarm := "default";
                  isOptionsOpen := false; readers := [] |};
     store := <["selectedAlarm" := "default"]> (<["customAlarms" := "[]"]> ∅);
     player := el_set_src defaultAlarmSound audioRef_initial; alerts := [] |}.
Definition demo_aw1 := alarm_event AOpen demo_aw0.
Definition demo_aw2 := alarm_event (AFile (Some demo_file)) demo_aw1.
Definition demo_aw3 := alarm_event (ALoad 1700000000000 0) demo_aw2.

Lemma demo_aw1_reach : alarm_reach demo_aw1.
Proof.
  apply (alarm_reach_step demo_aw0).
  - apply (alarm_reach_init ∅ audioRef_initial); reflexivity.
  - apply (alarm_step_ev AOpen); reflexivity.
Qed.

Lemma demo_aw3_reach : alarm_reach demo_aw3.
Proof.
  apply (alarm_reach_step demo_aw2); [apply (alarm_reach_step demo_aw1)|].
  - apply demo_aw1_reach.
  - apply (alarm_step_ev (AFile (Some demo_file))); reflexivity.
  - apply (alarm_step_ev (ALoad 1700000000000 0)); vm_compute; reflexivity.
Qed.

Lemma demo_aw3_alarms :
  customAlarms (alarms demo_aw3) = [mkAlarm "1700000000000" "bell.mp3" "data:audio/mpeg;base64,SUQz"].
Proof. vm_compute. reflexivity. Qed.

Lemma alarm_reach_inv_witness : AudioLaws AudioEl /\ alarm_reach demo_aw3 /\ alarm_inv demo_aw3.
Proof. exact (conj AudioEl_laws (conj demo_aw3_reach (alarm_reach_inv demo_aw3 demo_aw3_reach))). Defined.

Lemma reload_restores_settings_witness :
  AudioLaws AudioEl /\ alarm_reach demo_aw3 /\
  mount_state (store demo_aw3) =
    Some {| customAlarms := customAlarms (alarms demo_aw3); alarmsVersion := 0;
            selectedAlarm := selectedAlarm (alarms demo_aw3); isOptionsOpen := false; readers := [] |}.
Proof.
  exact (conj AudioEl_laws (conj demo_aw3_reach (reload_restores_settings demo_aw3 demo_aw3_reach))).
Defined.

Lemma delete_persisted_witness :
  AudioLaws AudioEl /\ alarm_reach demo_aw3 /\
  (let w' := alarm_event (ADelete "1700000000000") demo_aw3 in
   (forall x, x ∈ customAlarms (alarms w') <-> x ∈ customAlarms (alarms demo_aw3) /\ id x <> "1700000000000") /\
   selectedAlarm (alarms w') =
     (if bool_decide (selectedAlarm (alarms demo_aw3) = "1700000000000") then "default"
      else selectedAlarm (alarms demo_aw3)) /\
   store w' !! "customAlarms" = Some (json_alarms (customAlarms (alarms w'))) /\
   json_decode (json_alarms (customAlarms (alarms w'))) = Some (customAlarms (alarms w'))).
Proof.
  exact (conj AudioEl_laws (conj demo_aw3_reach
    (delete_persisted demo_aw3 "1700000000000" demo_aw3_reach))).
Defined.

Lemma delete_never_throws_witness :
  AudioLaws AudioEl /\ alarm_reach demo_aw3 /\ enabled (ADelete "1700000000000") (alarms demo_aw3) = true /\
  alarm_throws (ADelete "1700000000000") demo_aw3 = false.
Proof.
  assert (Hen : enabled (ADelete "1700000000000") (alarms demo_aw3) = true) by (vm_compute; reflexivity).
  exact (conj AudioEl_laws (conj demo_aw3_reach (conj Hen
    (delete_never_throws demo_aw3 "1700000000000" demo_aw3_reach Hen)))).
Defined.

Lemma oversized_upload_rejected_witness :
  2 * 1024 * 1024 < fsize demo_big /\
  alarm_event (AFile (Some demo_big)) demo_aw1 =
    {| alarms := alarms demo_aw1; store := store demo_aw1; player := player demo_aw1;
       alerts := alerts demo_aw1 ++ [too_large_message] |}.
Proof.
  assert (Hb : 2 * 1024 * 1024 < fsize demo_big) by (simpl; lia).
  exact (conj Hb (oversized_upload_rejected demo_aw1 demo_big Hb)).
Defined.

Lemma stale_reader_restores_witness :
  readers (alarms demo_aw3) = [] /\ fsize demo_file <= 2 * 1024 * 1024 /\
  customAlarms (alarms (alarm_event (ALoad 1700000005000 0)
    (alarm_event (ADelete "1700000000000") (alarm_event (AFile (Some demo_file)) demo_aw3)))) =
  customAlarms (alarms demo_aw3) ++
    [mkAlarm (js_toString 1700000005000) (fname demo_file) (fdataURL demo_file)].
Proof.
  assert (Hr : readers (alarms demo_aw3) = []) by (vm_compute; reflexivity).
  assert (Hf : fsize demo_file <= 2 * 1024 * 1024) by (simpl; lia).
  exact (conj Hr (conj Hf (stale_reader_restores demo_aw3 demo_file "1700000000000" 1700000005000 Hr Hf))).
Defined.

Lemma malformed_storage_aborts_mount_witness :
  (<["customAlarms" := "undefined"]> (∅ : gmap string string)) !! "customAlarms" = Some "undefined" /\
  json_start "u"%char = false /\
  mount_world (<["customAlarms" := "undefined"]> (∅ : gmap string string)) audioRef_initial = None.
Proof.
  assert (Hs : (<["customAlarms" := "undefined"]> (∅ : gmap string string)) !! "customAlarms" = Some "undefined")
    by apply lookup_insert_eq.
  assert (Hc : json_start "u"%char = false) by reflexivity.
  exact (conj Hs (conj Hc (malformed_storage_aborts_mount _ audioRef_initial "u"%char "ndefined" Hs Hc))).
Defined.

End AlarmRun.
