(* ===== verification/App.v ===== *)
(** * The component: the timer engine and the alarm settings together

    [App] holds both halves of the state of the component: the world of
    the timer engine ([TimerRun.World], with the clock, the visibility and
    the audio element) and the alarm settings with the storage.  The one
    resource they share is the audio element in [audioRef]: the timer
    plays, pauses and rewinds it, the effect of lines 79-88 assigns its
    [src].  A step is a step of the timer engine or an event of the
    settings dialog (run at the world's clock, and a click only while the
    page is visible); neither half's render runs the other half's effects,
    whose dependencies it does not change.

    An event of the dialog whose commit throws (a [setItem] over the
    quota) is no step: React unmounts the component and runs the cleanup
    functions of its effects ([unmount_cleanup]: lines 95-98, 132 and
    147); [crash] is what is left, the storage and the world after the
    cleanups.

    The file proves that the two invariants hold together in every
    reachable state, that the shared element lets the dialog silence a
    ringing alarm that the timer still shows as ringing, and what an
    upload that overflows the storage leaves behind. *)

From S2P Require Import Prelude Modes Audio Timer TimerRun Json Alarms AlarmRun.
Open Scope Z_scope.
Import Timer Alarms AlarmRun.

Module App.

Section App.
Context {A : Type} `{AudioLaws A} `{Quota}.

Record App := mkApp {
  tw : World A;
  als : AlarmState;
  stg : gmap string string;
  app_alerts : list string
}.

Definition with_audio (a : A) (w : World A) : World A :=
  {| timer := timer w; audio := a; clock := clock w;
     hidden := hidden w; granted := granted w; notes := notes w |}.

(** The alarm half of the state, as [AlarmRun] sees it. *)
Definition to_aw (w : App) : AWorld (A:=A) :=
  {| alarms := als w; store := stg w; player := audio (tw w); alerts := app_alerts w |}.

Definition app_alarm_event (ev : AEvent) (w : App) : App :=
  let aw := alarm_event ev (to_aw w) in
  {| tw := with_audio (player aw) (tw w); als := alarms aw; stg := store aw; app_alerts := alerts aw |}.

(** A click of the dialog needs the page visible; a reader loads at the
    world's clock. *)
Definition event_ok (ev : AEvent) (w : App) : bool :=
  enabled ev (als w) &&
  match ev with
  | ALoad now _ => bool_decide (now = clock (tw w))
  | _ => negb (hidden (tw w))
  end.

Definition set_tw (w' : World A) (w : App) : App :=
  {| tw := w'; als := als w; stg := stg w; app_alerts := app_alerts w |}.

Inductive app_step : App -> App -> Prop :=
  | app_step_timer w w' : step (tw w) w' -> app_step w (set_tw w' w)
  | app_step_alarm ev w : event_ok ev w = true -> alarm_throws ev (to_aw w) = false ->
      app_step w (app_alarm_event ev w).

(** The unmount: the cleanup functions of the effects, in the order of
    the component: the audio effect's pauses the element and rewinds it
    (lines 95-98), the timer effect's clears the interval (line 132), the
    visibility effect's removes its listener (line 147), which the world
    does not hold. *)
Definition unmount_cleanup (w : World A) : World A :=
  let a := audio_rewind (audio_pause (audio w)) in
  let t := timer w in
  {| timer := {| mode := mode t; timeLeft := timeLeft t; customTime := customTime t;
                 isActive := isActive t; isAlarmRinging := isAlarmRinging t;
                 endTimeRef := endTimeRef t; timerRef := false |};
     audio := a; clock := clock w; hidden := hidden w; granted := granted w; notes := notes w |}.

(** An event whose commit throws: the storage the throw left and the
    world after the cleanups; the page shows nothing any more. *)
Definition crash (ev : AEvent) (w : App) : gmap string string * World A :=
  let w' := app_alarm_event ev w in (stg w', unmount_cleanup (tw w')).

(** The mount at instant [start]: the alarm settings read from the
    storage [st] and their effects run on the element [a0], then the timer
    engine starts idle with that element. *)
Inductive app_reach : App -> Prop :=
  | app_reach_init st a0 aw start h g :
      mount_world st a0 = Some aw -> settings_ok (alarms aw) = true ->
      audio_src a0 = defaultAlarmSound -> audio_playing a0 = false -> 0 <= start ->
      app_reach {| tw := init_world (player aw) start h g; als := alarms aw; stg := store aw;
                   app_alerts := alerts aw |}
  | app_reach_step w w' : app_reach w -> app_step w w' -> app_reach w'.

Definition app_inv (w : App) : Prop := world_inv (tw w) /\ alarm_inv (to_aw w).

(** ** The timer engine keeps the source, the dialog only silences *)

Lemma handle_intent_src i now t (a : A) : audio_src (handle_intent i now t a).2 = audio_src a.
Proof.
  destruct i; simpl; unfold toggleTimer, adjustTime; repeat case_match; simpl; by audio_simpl.
Qed.

Lemma tick_src now h g ok t (a : A) : audio_src (tick now h g ok t a).1.2 = audio_src a.
Proof. unfold tick. case_match; simpl; by audio_simpl. Qed.

Lemma step_src (w w' : World A) : step w w' -> audio_src (audio w') = audio_src (audio w).
Proof.
  destruct 1 as [i w _|ok w _|h w|d w _|g w]; try done.
  - unfold user_step. pose proof (handle_intent_src i (clock w) (timer w) (audio w)).
    destruct (handle_intent _ _ _ _). done.
  - unfold tick_step. pose proof (tick_src (clock w) (hidden w) (granted w) ok (timer w) (audio w)).
    destruct (tick _ _ _ _ _ _) as [[??]?]. done.
Qed.

Lemma src_effect_playing al (a : A) : audio_playing (src_effect al a) = true -> audio_playing a = true.
Proof. unfold src_effect. repeat case_match; by audio_simpl. Qed.

Lemma commit_alarms_playing old new st (a : A) :
  audio_playing (commit_alarms old new st a).1.2 = true -> audio_playing a = true.
Proof. unfold commit_alarms. repeat case_match; simpl; try done; apply src_effect_playing. Qed.

(** A commit that does not throw after a change of the list runs the
    effect of the audio source. *)
Lemma commit_list_src old new st (a : A) st' a' :
  alarmsVersion old <> alarmsVersion new ->
  commit_alarms old new st a = (st', a', false) -> a' = src_effect new a.
Proof.
  intros Hv. unfold commit_alarms. rewrite (proj2 (Nat.eqb_neq _ _) Hv). simpl.
  repeat case_match; simpl; congruence.
Qed.

Lemma timer_inv_quieter now t (a a' : A) :
  (audio_playing a' = true -> audio_playing a = true) -> timer_inv now t a -> timer_inv now t a'.
Proof. intros Hq []. constructor; auto. Qed.

Lemma app_alarm_event_aw ev (w : App) : to_aw (app_alarm_event ev w) = alarm_event ev (to_aw w).
Proof. unfold app_alarm_event, to_aw. simpl. by destruct (alarm_event ev _). Qed.

Lemma app_alarm_event_audio ev (w : App) :
  audio_playing (audio (tw (app_alarm_event ev w))) = true -> audio_playing (audio (tw w)) = true.
Proof.
  unfold app_alarm_event. simpl. rewrite alarm_event_player. apply commit_alarms_playing.
Qed.

Lemma app_step_inv (w w' : App) : app_inv w -> app_step w w' -> app_inv w'.
Proof.
  intros [Ht Ha] Hs. destruct Hs as [w tw' Hst|ev w Hok Hth].
  - split; [by eapply step_inv|]. destruct Ha. constructor; try done.
    simpl. by rewrite (step_src _ _ Hst).
  - apply andb_prop in Hok as [Hen _]. split.
    + apply (timer_inv_quieter _ _ (audio (tw w))); [apply app_alarm_event_audio|done].
    + rewrite app_alarm_event_aw. by apply alarm_event_inv.
Qed.

Lemma app_reach_inv_gen (w : App) : app_reach w -> app_inv w.
Proof.
  induction 1 as [st a0 aw start h g Hm Hok Hsrc Hsil Hst|w w' _ IH Hs].
  - assert (Hi : alarm_inv aw) by (eapply mount_world_inv; eauto).
    split.
    + apply init_inv; [|done]. destruct Hi as [_ _ _].
      rewrite (mount_world_player _ _ _ Hm).
      destruct (audio_playing (src_effect _ a0)) eqn:E; [|done].
      rewrite (src_effect_playing _ _ E) in Hsil. done.
    + by destruct aw.
  - by eapply app_step_inv.
Qed.

Lemma src_effect_silent al (a : A) : sel_valid al -> audio_playing (src_effect al a) = false.
Proof.
  intros Hv. unfold src_effect. destruct (decide (selectedAlarm al = "default")).
  - rewrite bool_decide_true by done. apply set_src_silent.
  - rewrite bool_decide_false by done. destruct Hv as [|Hex]; [done|].
    destruct (find_Exists _ _ Hex) as [x [-> _]]. apply set_src_silent.
Qed.

(** C26: in every reachable state of the mounted component both
    invariants hold: the timer engine's ([timer_inv]: the display never
    under-reports the time left, the interval runs exactly while active,
    the element plays only while the alarm rings) and the settings'
    ([alarm_inv]: storage in step and within the quota, selection valid,
    element on the selected sound).  The steps are the timer's and the
    dialog events whose saves fit; an event whose save throws unmounts
    the component (C12). *)
Theorem app_reach_inv (w : App) : app_reach w -> app_inv w.
Proof. apply app_reach_inv_gen. Qed.

(** C27: deleting an alarm in the dialog, even one that is not selected,
    reassigns the element's source, which stops the sound, while the
    timer state, and so a ringing alarm with its stop button, stays as
    it was. *)
Theorem delete_silences_alarm (w : App) k :
  app_reach w -> event_ok (ADelete k) w = true ->
  timer (tw (app_alarm_event (ADelete k) w)) = timer (tw w) /\
  audio_playing (audio (tw (app_alarm_event (ADelete k) w))) = false.
Proof.
  intros Hr Hok. split; [done|]. apply andb_prop in Hok as [Hen _].
  destruct (app_reach_inv_gen w Hr) as [_ Hi]. pose proof Hi as [_ _ Hset _].
  pose proof (handle_settings_inv (ADelete k) _ Hen Hset) as [Hsel _ _].
  pose proof (delete_never_throws_gen (to_aw w) k Hi Hen) as Hth. unfold alarm_throws in Hth.
  change (audio (tw (app_alarm_event (ADelete k) w))) with (player (alarm_event (ADelete k) (to_aw w))).
  rewrite alarm_event_player. cbn [handle fst] in *.
  destruct (commit_alarms _ _ _ _) as [[st' a'] b] eqn:Ec. simpl in Hth |- *. subst b.
  rewrite (commit_list_src _ _ _ _ _ _ (proj1 (Nat.eqb_neq _ _) (delete_version _ _)) Ec).
  by apply src_effect_silent.
Qed.


(** The cleanups leave no sound and no interval. *)
Lemma unmount_cleanup_quiet (tw0 : World A) :
  audio_playing (audio (unmount_cleanup tw0)) = false /\ timerRef (timer (unmount_cleanup tw0)) = false.
Proof. split; [|done]. simpl. by audio_simpl. Qed.

(** C12: an upload whose list does not fit the storage quota unmounts
    the component.  The [setItem] of the list throws (nothing catches it),
    so the selection is not saved and the audio effect does not run;
    React unmounts [App], whose cleanups pause the element, so no alarm
    keeps ringing, and clear the interval.  The storage keeps the settings
    of the state before the upload, so the reload brings them back
    without the uploaded alarm: the upload is lost. *)
Theorem upload_overflow_unmounts (w : App) now k :
  app_reach w -> event_ok (ALoad now k) w = true ->
  (quota < storage_size (<["customAlarms" := json_alarms (customAlarms (reader_onload now k (als w)))]> (stg w)))%nat ->
  alarm_throws (ALoad now k) (to_aw w) = true /\
  (crash (ALoad now k) w).1 = stg w /\
  audio_playing (audio (crash (ALoad now k) w).2) = false /\
  timerRef (timer (crash (ALoad now k) w).2) = false /\
  mount_state (crash (ALoad now k) w).1 =
    Some {| customAlarms := customAlarms (als w); alarmsVersion := 0;
            selectedAlarm := selectedAlarm (als w); isOptionsOpen := false; readers := [] |}.
Proof.
  intros Hr Hok Hq. destruct (app_reach_inv_gen w Hr) as [_ Hi]. pose proof Hi as [Hs _ Hset _].
  apply andb_prop in Hok as [Hen _]. simpl in Hen. apply bool_decide_eq_true in Hen.
  destruct (lookup_lt_is_Some_2 _ _ Hen) as [p Hp].
  assert (Hv : alarmsVersion (alarms (to_aw w)) <> alarmsVersion (handle (ALoad now k) (alarms (to_aw w))).1)
    by (simpl; unfold reader_onload; rewrite Hp; simpl; lia).
  pose proof (list_overflow (to_aw w) (ALoad now k) Hv Hq) as Ec.
  assert (Hst : (crash (ALoad now k) w).1 = stg w).
  { change (crash (ALoad now k) w).1 with (store (alarm_event (ALoad now k) (to_aw w))).
    by rewrite alarm_event_store, Ec. }
  split; [unfold alarm_throws; by rewrite Ec|]. split; [done|].
  destruct (unmount_cleanup_quiet (tw (app_alarm_event (ALoad now k) w))) as [Ha Ht].
  split; [done|]. split; [done|]. rewrite Hst. apply reload_synced; [done|]. by apply sel_nonempty.
Qed.

End App.

(** ** An upload past the quota

    The storage of [AlarmRun.demo_aw0] holds 34 characters; with a quota
    of 64 the dialog opens and a file is picked, and its read makes a list
    that does not fit. *)

Definition tiny_quota : Quota := 64%nat.

Section Overflow.
#[local] Existing Instance tiny_quota.

Definition demo_small0 : App (A:=AudioEl) :=
  {| tw := init_world (player demo_aw0) 0 false true; als := alarms demo_aw0;
     stg := store demo_aw0; app_alerts := [] |}.
Definition demo_small1 := app_alarm_event AOpen demo_small0.
Definition demo_small2 := app_alarm_event (AFile (Some demo_file)) demo_small1.

Lemma demo_small2_reach : app_reach demo_small2.
Proof.
  apply (app_reach_step demo_small1); [apply (app_reach_step demo_small0)|].
  - apply (app_reach_init ∅ audioRef_initial demo_aw0); (reflexivity || lia).
  - apply (app_step_alarm AOpen); reflexivity.
  - apply (app_step_alarm (AFile (Some demo_file))); reflexivity.
Qed.

Lemma upload_overflow_unmounts_witness :
  AudioLaws AudioEl /\ app_reach demo_small2 /\ event_ok (ALoad 0 0) demo_small2 = true /\
  (quota < storage_size (<["customAlarms" := json_alarms (customAlarms (reader_onload 0 0 (als demo_small2)))]>
                           (stg demo_small2)))%nat /\
  alarm_throws (ALoad 0 0) (to_aw demo_small2) = true /\
  (crash (ALoad 0 0) demo_small2).1 = stg demo_small2 /\
  audio_playing (audio (crash (ALoad 0 0) demo_small2).2) = false /\
  timerRef (timer (crash (ALoad 0 0) demo_small2).2) = false /\
  mount_state (crash (ALoad 0 0) demo_small2).1 =
    Some {| customAlarms := customAlarms (als demo_small2); alarmsVersion := 0;
            selectedAlarm := selectedAlarm (als demo_small2); isOptionsOpen := false; readers := [] |}.
Proof.
  assert (Hok : event_ok (ALoad 0 0) demo_small2 = true) by reflexivity.
  assert (Hq : (quota < storage_size (<["customAlarms" := json_alarms (customAlarms (reader_onload 0 0 (als demo_small2)))]>
                           (stg demo_small2)))%nat) by (vm_compute; lia).
  exact (conj AudioEl_laws (conj demo_small2_reach (conj Hok (conj Hq
    (upload_overflow_unmounts demo_small2 0 0 demo_small2_reach Hok Hq))))).
Defined.

End Overflow.

(** ** A session

    The mount on an empty storage at instant 0, a custom alarm uploaded
    and read at once, a 25-minute pomodoro started and run to its end; the
    alarm rings and plays. *)

#[local] Existing Instance browser_quota.

Definition demo_app0 : App (A:=AudioEl) :=
  {| tw := init_world (player demo_aw0) 0 false true; als := alarms demo_aw0;
     stg := store demo_aw0; app_alerts := [] |}.
Definition demo_app1 := app_alarm_event AOpen demo_app0.
Definition demo_app2 := app_alarm_event (AFile (Some demo_file)) demo_app1.
Definition demo_app3 := app_alarm_event (ALoad 0 0) demo_app2.
Definition demo_app4 := set_tw (user_step IToggle (tw demo_app3)) demo_app3.
Definition demo_app5 := set_tw (set_clock 1500000 (tw demo_app4)) demo_app4.
Definition demo_app6 := set_tw (tick_step true (tw demo_app5)) demo_app5.

Lemma demo_app6_reach : app_reach demo_app6.
Proof.
  apply (app_reach_step demo_app5); [apply (app_reach_step demo_app4)|].
  - apply (app_reach_step demo_app3); [apply (app_reach_step demo_app2)|].
    + apply (app_reach_step demo_app1); [apply (app_reach_step demo_app0)|].
      * apply (app_reach_init ∅ audioRef_initial demo_aw0); (reflexivity || lia).
      * apply (app_step_alarm AOpen); reflexivity.
      * apply (app_step_alarm (AFile (Some demo_file))); reflexivity.
    + apply (app_step_alarm (ALoad 0 0)); vm_compute; reflexivity.
    + apply app_step_timer, step_user. reflexivity.
  - apply app_step_timer.
    replace (set_clock 1500000 (tw demo_app4)) with (set_clock (clock (tw demo_app4) + 1500000) (tw demo_app4))
      by reflexivity.
    apply step_elapse. lia.
  - apply app_step_timer, step_tick. reflexivity.
Qed.

Lemma app_reach_inv_witness : AudioLaws AudioEl /\ app_reach demo_app6 /\ app_inv demo_app6.
Proof. exact (conj AudioEl_laws (conj demo_app6_reach (app_reach_inv demo_app6 demo_app6_reach))). Defined.

Lemma delete_silences_alarm_witness :
  AudioLaws AudioEl /\ app_reach demo_app6 /\ event_ok (ADelete "0") demo_app6 = true /\
  isAlarmRinging (timer (tw demo_app6)) = true /\ audio_playing (audio (tw demo_app6)) = true /\
  timer (tw (app_alarm_event (ADelete "0") demo_app6)) = timer (tw demo_app6) /\
  audio_playing (audio (tw (app_alarm_event (ADelete "0") demo_app6))) = false.
Proof.
  assert (Hok : event_ok (ADelete "0") demo_app6 = true) by (vm_compute; reflexivity).
  assert (Hring : isAlarmRinging (timer (tw demo_app6)) = true) by (vm_compute; reflexivity).
  assert (Hplay : audio_playing (audio (tw demo_app6)) = true) by (vm_compute; reflexivity).
  exact (conj AudioEl_laws (conj demo_app6_reach (conj Hok (conj Hring (conj Hplay
    (delete_silences_alarm demo_app6 "0" demo_app6_reach Hok)))))).
Defined.

End App.
