(* ===== verification/Electron.v ===== *)
(** * The Electron main process (src/electron/main.cjs)

    The main process runs the script of [main.cjs] once, then reacts to
    the events of the application ([ready], [activate],
    [second-instance], [window-all-closed]) and of its windows (minimise,
    close, a request of the page to open a new window).  [Proc] is the
    state of the process that the script and its listeners read and
    write: whether hardware acceleration is on, the result of
    [requestSingleInstanceLock()], whether [app.quit()] was called, the
    listeners registered with [app.on] and [app.whenReady().then], whether
    the application is ready, the list [BrowserWindow.getAllWindows()] and
    the URLs handed to [shell.openExternal].

    A listener list is run the way an [EventEmitter] runs it: every
    listener registered for the event, in the order of registration.
    [path.join] is kept symbolic ([Join dir rel]); [app.isPackaged],
    [__dirname] and [process.platform] are the variables of the section. *)

From S2P Require Import Prelude.
Open Scope Z_scope.

Module Electron.

Inductive Listener := LSecondInstance | LReady | LActivate | LAllClosed.

#[export] Instance Listener_eq_dec : EqDecision Listener.
Proof. solve_decision. Defined.

(** [path.join(dir, rel)]. *)
Inductive FilePath := Join (dir rel : string).

Record WebPreferences := mkPrefs {
  nodeIntegration : bool;
  contextIsolation : bool;
  backgroundThrottling : bool
}.

Record WindowOptions := mkOpts {
  width : Z;
  height : Z;
  webPreferences : WebPreferences;
  autoHideMenuBar : bool;
  frame : bool;
  resizable : bool;
  icon : FilePath
}.

(** What a window shows: [loadURL(url)] or [loadFile(path)]. *)
Inductive Content := LoadURL (url : string) | LoadFile (p : FilePath).

(** The answer of the window-open handler: [{ action: 'deny' }] or
    [{ action: 'allow' }]. *)
Inductive OpenAction := Deny | Allow.

Record Win := mkWin {
  wopts : WindowOptions;
  content : Content;
  minimized : bool;
  focused : bool;
  openHandler : bool   (** [setWindowOpenHandler] was called *)
}.

Record Proc := mkProc {
  hwAccel : bool;
  gotTheLock : bool;
  quitting : bool;
  listeners : list Listener;
  ready : bool;
  windows : list Win;
  external : list string
}.

(** The process before the script runs. *)
Definition proc0 : Proc :=
  {| hwAccel := true; gotTheLock := false; quitting := false; listeners := [];
     ready := false; windows := []; external := [] |}.

(** ** Operations of the [app] object and of windows *)

Definition set_windows (ws : list Win) (p : Proc) : Proc :=
  {| hwAccel := hwAccel p; gotTheLock := gotTheLock p; quitting := quitting p;
     listeners := listeners p; ready := ready p; windows := ws; external := external p |}.

(** [app.on(event, listener)] and [app.whenReady().then(listener)]. *)
Definition add_listener (l : Listener) (p : Proc) : Proc :=
  {| hwAccel := hwAccel p; gotTheLock := gotTheLock p; quitting := quitting p;
     listeners := listeners p ++ [l]; ready := ready p; windows := windows p; external := external p |}.

(** [app.quit()]. *)
Definition app_quit (p : Proc) : Proc :=
  {| hwAccel := hwAccel p; gotTheLock := gotTheLock p; quitting := true;
     listeners := listeners p; ready := ready p; windows := windows p; external := external p |}.

(** [shell.openExternal(url)]. *)
Definition open_external (url : string) (p : Proc) : Proc :=
  {| hwAccel := hwAccel p; gotTheLock := gotTheLock p; quitting := quitting p;
     listeners := listeners p; ready := ready p; windows := windows p; external := external p ++ [url] |}.

(** [win.restore()] and [win.focus()]. *)
Definition win_restore (w : Win) : Win :=
  {| wopts := wopts w; content := content w; minimized := false; focused := focused w;
     openHandler := openHandler w |}.

Definition win_focus (w : Win) : Win :=
  {| wopts := wopts w; content := content w; minimized := minimized w; focused := true;
     openHandler := openHandler w |}.

Definition win_minimize (w : Win) : Win :=
  {| wopts := wopts w; content := content w; minimized := true; focused := false;
     openHandler := openHandler w |}.

(** Emitting an event: every listener registered for it runs, in the
    order of registration, on the list as it was when the event fired. *)
Definition emit (l : Listener) (h : Proc -> Proc) (p : Proc) : Proc :=
  fold_left (fun q l' => if decide (l' = l) then h q else q) (listeners p) p.

(** The options Electron gives a window opened by a page when the
    window-open handler allows it: its defaults ([new BrowserWindow({})]),
    the page's URL, no handler of its own.  Only the [Allow] branch, which
    [main.cjs] never takes, creates such a window. *)
Definition default_options : WindowOptions :=
  {| width := 800; height := 600;
     webPreferences := {| nodeIntegration := false; contextIsolation := true; backgroundThrottling := true |};
     autoHideMenuBar := false; frame := true; resizable := true; icon := Join "" "" |}.

Definition child_window (url : string) : Win :=
  {| wopts := default_options; content := LoadURL url; minimized := false; focused := true;
     openHandler := false |}.

Section Main.
Variable isPackaged : bool.
Variable dirname : string.
Variable platform : string.

(** The options of [new BrowserWindow({...})] in [createWindow] (lines
    39-52). *)
Definition window_options : WindowOptions :=
  {| width := 720; height := 720;
     webPreferences := {| nodeIntegration := false; contextIsolation := true;
                          backgroundThrottling := false |};
     autoHideMenuBar := true; frame := true; resizable := false;
     icon := Join dirname (if isPackaged then "../dist/icon.png" else "../public/icon.png") |}.

(** The page the window loads (lines 54, 64-71): the dev server, or the
    built [index.html] next to the directory of [main.cjs]. *)
Definition window_content : Content :=
  let isDev := negb isPackaged in
  if isDev then LoadURL "http://localhost:5173"
  else LoadFile (Join dirname "../dist/index.html").

(** [createWindow] (lines 38-72): the window, its window-open handler,
    and the page it loads. *)
Definition createWindow (p : Proc) : Proc :=
  let win := {| wopts := window_options; content := window_content;
                minimized := false; focused := true; openHandler := true |} in
  set_windows (windows p ++ [win]) p.

(** The listener of [second-instance] (lines 16-24). *)
Definition on_second_instance (p : Proc) : Proc :=
  match windows p with
  | [] => p
  | win :: rest =>
      set_windows (win_focus (if minimized win then win_restore win else win) :: rest) p
  end.

(** The listener of [activate] (lines 30-34). *)
Definition on_activate (p : Proc) : Proc :=
  if bool_decide (length (windows p) = 0%nat) then createWindow p else p.

(** The callback of [app.whenReady()] (lines 27-35). *)
Definition on_ready (p : Proc) : Proc := add_listener LActivate (createWindow p).

(** The listener of [window-all-closed] (lines 74-78). *)
Definition on_all_closed (p : Proc) : Proc :=
  if bool_decide (platform <> "darwin") then app_quit p else p.

(** The window-open handler (lines 58-63). *)
Definition window_open_handler (url : string) (p : Proc) : Proc * OpenAction :=
  (if String.prefix "https:" url then open_external url p else p, Deny).

(** The script (lines 1-14, 26-27, 74): [disableHardwareAcceleration],
    the lock, then [app.quit()] or the two registrations, then the
    registration of [window-all-closed].  [lockFree] is the answer of
    [requestSingleInstanceLock()]. *)
Definition main_script (lockFree : bool) : Proc :=
  let p1 := {| hwAccel := false; gotTheLock := gotTheLock proc0; quitting := quitting proc0;
               listeners := listeners proc0; ready := ready proc0; windows := windows proc0;
               external := external proc0 |} in
  let gotTheLock := lockFree in
  let p2 := {| hwAccel := hwAccel p1; gotTheLock := gotTheLock; quitting := quitting p1;
               listeners := listeners p1; ready := ready p1; windows := windows p1;
               external := external p1 |} in
  let p3 := if negb gotTheLock then app_quit p2
            else add_listener LReady (add_listener LSecondInstance p2) in
  add_listener LAllClosed p3.

(** ** Events *)

Inductive EEvent :=
  | EReady
  | EActivate
  | ESecondInstance
  | EMinimize (i : nat)
  | EClose (i : nat)
  | EOpen (i : nat) (url : string).

Definition set_ready (p : Proc) : Proc :=
  {| hwAccel := hwAccel p; gotTheLock := gotTheLock p; quitting := quitting p;
     listeners := listeners p; ready := true; windows := windows p; external := external p |}.

(** The page of window [i] asks for a new window ([window.open], a link
    with [target="_blank"]). *)
Definition open_request (i : nat) (url : string) (p : Proc) : Proc :=
  match windows p !! i with
  | None => p
  | Some w =>
      if openHandler w then
        let '(p', act) := window_open_handler url p in
        match act with
        | Deny => p'
        | Allow => set_windows (windows p' ++ [child_window url]) p'
        end
      else set_windows (windows p ++ [child_window url]) p
  end.

(** The user closes window [i]; [window-all-closed] fires when it was
    the last one. *)
Definition close_window (i : nat) (p : Proc) : Proc :=
  let p' := set_windows (delete i (windows p)) p in
  if bool_decide (windows p' = []) then emit LAllClosed on_all_closed p' else p'.

Definition handle_event (e : EEvent) (p : Proc) : Proc :=
  match e with
  | EReady => emit LReady on_ready (set_ready p)
  | EActivate => emit LActivate on_activate p
  | ESecondInstance => emit LSecondInstance on_second_instance p
  | EMinimize i => set_windows (alter win_minimize i (windows p)) p
  | EClose i => close_window i p
  | EOpen i url => open_request i url p
  end.

(** [ready] fires once, also in a process that called [app.quit()]
    before it was ready (the quit completes later); the other events
    reach a process that has not quit: [activate] after [ready], window
    events name an open window. *)
Definition event_enabled (e : EEvent) (p : Proc) : bool :=
  match e with
  | EReady => negb (ready p)
  | EActivate => negb (quitting p) && ready p
  | ESecondInstance => negb (quitting p)
  | EMinimize i | EClose i | EOpen i _ => negb (quitting p) && bool_decide (i < length (windows p))%nat
  end.

Inductive ereach (lockFree : bool) : Proc -> Prop :=
  | ereach_init : ereach lockFree (main_script lockFree)
  | ereach_step e p : ereach lockFree p -> event_enabled e p = true -> ereach lockFree (handle_event e p).

End Main.

(** ** Emitting to the listeners of the script *)

Lemma fold_skip (l : Listener) (h : Proc -> Proc) ls q :
  l ∉ ls -> fold_left (fun q l' => if decide (l' = l) then h q else q) ls q = q.
Proof.
  revert q. induction ls as [|l' ls IH]; intros q Hn; [done|]. simpl.
  rewrite decide_False by (intros ->; apply Hn; left). apply IH. intros ?; apply Hn; by right.
Qed.

Lemma emit_once l h p l1 l2 :
  listeners p = l1 ++ l :: l2 -> l ∉ l1 -> l ∉ l2 -> emit l h p = h p.
Proof.
  intros Hl H1 H2. unfold emit. rewrite Hl, fold_left_app, (fold_skip l h l1) by done. simpl.
  rewrite decide_True by done. by apply fold_skip.
Qed.

Lemma emit_none l h p : l ∉ listeners p -> emit l h p = p.
Proof. apply fold_skip. Qed.

Lemma delete_length_le {T} i (l : list T) : (length (delete i l) <= length l)%nat.
Proof. revert i. induction l as [|x l IH]; intros [|i]; simpl; try lia. specialize (IH i). lia. Qed.

Section Props.
Variable isPackaged : bool.
Variable dirname platform : string.

(** The listeners the script registers, and [activate] once ready. *)
Definition base_listeners (got : bool) : list Listener :=
  if got then [LSecondInstance; LReady; LAllClosed] else [LAllClosed].

(** A window as [createWindow] opens it: its options, its page and its
    window-open handler. *)
Definition from_createWindow (w : Win) : Prop :=
  wopts w = window_options isPackaged dirname /\ content w = window_content isPackaged dirname /\
  openHandler w = true.

Record main_inv (p : Proc) : Prop := {
  mi_hw : hwAccel p = false;
  mi_listeners : listeners p = base_listeners (gotTheLock p) ++ (if ready p && gotTheLock p then [LActivate] else []);
  mi_quit : gotTheLock p = false -> quitting p = true;
  mi_quit_ready : quitting p = true -> ready p = false -> gotTheLock p = false;
  mi_idle : ready p = false -> windows p = [];
  mi_single : (length (windows p) <= 1)%nat;
  mi_opts : Forall from_createWindow (windows p);
  mi_external : Forall (fun u => String.prefix "https:" u = true) (external p)
}.

Lemma main_script_inv b : main_inv (main_script b).
Proof. destruct b; constructor; simpl; first [done | by constructor | lia]. Qed.

Lemma main_inv_got p : main_inv p -> quitting p = false -> gotTheLock p = true.
Proof. intros Hi Hq. destruct (gotTheLock p) eqn:E; [done|]. by rewrite (mi_quit _ Hi E) in Hq. Qed.

Lemma createWindow_windows p :
  windows (createWindow isPackaged dirname p) =
  windows p ++ [{| wopts := window_options isPackaged dirname;
                   content := window_content isPackaged dirname;
                   minimized := false; focused := true; openHandler := true |}].
Proof. done. Qed.

Lemma open_request_handled i url p w :
  windows p !! i = Some w -> openHandler w = true ->
  open_request i url p = if String.prefix "https:" url then open_external url p else p.
Proof. intros Hw Ho. unfold open_request. rewrite Hw, Ho. simpl. by destruct (String.prefix _ _). Qed.

Ltac not_in := repeat (rewrite not_elem_of_cons; split; [discriminate|]); apply not_elem_of_nil.

Lemma live_listeners p :
  main_inv p -> quitting p = false ->
  listeners p = [LSecondInstance; LReady; LAllClosed] ++ (if ready p then [LActivate] else []).
Proof. intros Hi Hq. by rewrite (mi_listeners _ Hi), (main_inv_got _ Hi Hq), andb_true_r. Qed.

Lemma emit_ready p (h : Proc -> Proc) :
  main_inv p -> quitting p = false -> ready p = false -> emit LReady h (set_ready p) = h (set_ready p).
Proof.
  intros Hi Hq Hr. apply (emit_once _ _ _ [LSecondInstance] [LAllClosed]); [|not_in|not_in].
  simpl. by rewrite (live_listeners _ Hi Hq), Hr.
Qed.

Lemma emit_activate p (h : Proc -> Proc) :
  main_inv p -> quitting p = false -> ready p = true -> emit LActivate h p = h p.
Proof.
  intros Hi Hq Hr. apply (emit_once _ _ _ [LSecondInstance; LReady; LAllClosed] []); [|not_in|not_in].
  by rewrite (live_listeners _ Hi Hq), Hr.
Qed.

Lemma emit_second p (h : Proc -> Proc) :
  main_inv p -> quitting p = false -> emit LSecondInstance h p = h p.
Proof.
  intros Hi Hq. rewrite (emit_once _ _ _ [] ([LReady; LAllClosed] ++ if ready p then [LActivate] else []));
    [done | by rewrite (live_listeners _ Hi Hq) | not_in |].
  destruct (ready p); simpl; not_in.
Qed.

Lemma emit_all_closed p (h : Proc -> Proc) :
  main_inv p -> quitting p = false -> emit LAllClosed h p = h p.
Proof.
  intros Hi Hq. rewrite (emit_once _ _ _ [LSecondInstance; LReady] (if ready p then [LActivate] else []));
    [done | by rewrite (live_listeners _ Hi Hq) | not_in |].
  destruct (ready p); simpl; not_in.
Qed.

(** A change of the window list that keeps it short and made of windows
    of [createWindow] keeps the invariant. *)
Lemma set_windows_inv ws p :
  main_inv p -> (ready p = false -> ws = []) -> (length ws <= 1)%nat ->
  Forall from_createWindow ws ->
  main_inv (set_windows ws p).
Proof. intros [] ???. by constructor. Qed.

(** [app.quit()] in a ready process, or in one without the lock. *)
Lemma app_quit_inv p : main_inv p -> ready p = true \/ gotTheLock p = false -> main_inv (app_quit p).
Proof.
  intros [] Hr. constructor; simpl; try done.
  intros _ Hf. destruct Hr as [Hr|Hg]; [congruence|done].
Qed.

Lemma ready_inv p :
  main_inv p -> quitting p = false -> ready p = false ->
  main_inv (handle_event isPackaged dirname platform EReady p).
Proof.
  intros Hi Hq Hr. simpl. rewrite emit_ready by done. pose proof (main_inv_got p Hi Hq) as Hg.
  destruct Hi as [? Hl ? ? Hw ? ? ?].
  constructor; simpl; try done; try congruence.
  - by rewrite Hl, Hr, Hg.
  - rewrite Hw by done. simpl. lia.
  - rewrite Hw by done. by repeat constructor.
Qed.

Lemma activate_inv p :
  main_inv p -> quitting p = false -> ready p = true ->
  main_inv (handle_event isPackaged dirname platform EActivate p).
Proof.
  intros Hi Hq Hr. simpl. rewrite emit_activate by done. unfold on_activate.
  case_bool_decide as Hn; [|done]. apply length_zero_iff_nil in Hn.
  apply set_windows_inv; [done|by rewrite Hr|rewrite Hn; simpl; lia|]. rewrite Hn. by repeat constructor.
Qed.

Lemma second_inv p :
  main_inv p -> quitting p = false -> main_inv (handle_event isPackaged dirname platform ESecondInstance p).
Proof.
  intros Hi Hq. simpl. rewrite emit_second by done. unfold on_second_instance.
  destruct (windows p) as [|w rest] eqn:Hw; [done|].
  pose proof (mi_opts _ Hi) as Ho. rewrite Hw in Ho. inversion Ho as [|? ? Hw1 Hrest]; subst.
  apply set_windows_inv; [done| |pose proof (mi_single _ Hi) as Hs; rewrite Hw in Hs; done|].
  - intros Hr. by rewrite (mi_idle _ Hi Hr) in Hw.
  - constructor; [|done]. by destruct (minimized w).
Qed.

Lemma minimize_inv i p : main_inv p -> main_inv (handle_event isPackaged dirname platform (EMinimize i) p).
Proof.
  intros Hi. simpl. apply set_windows_inv; [done| | |].
  - intros Hr. by rewrite (mi_idle _ Hi Hr).
  - rewrite length_alter. apply (mi_single _ Hi).
  - apply Forall_alter; [apply (mi_opts _ Hi)|]. by intros w _ (? & ? & ?).
Qed.

Lemma close_inv i p :
  main_inv p -> quitting p = false -> (i < length (windows p))%nat ->
  main_inv (handle_event isPackaged dirname platform (EClose i) p).
Proof.
  intros Hi Hq Hlt. simpl. unfold close_window.
  assert (Hready : ready p = true).
  { destruct (ready p) eqn:E; [done|]. rewrite (mi_idle _ Hi E) in Hlt. simpl in Hlt. lia. }
  assert (Hi' : main_inv (set_windows (delete i (windows p)) p)).
  { apply set_windows_inv; [done| | |].
    - intros Hr. by rewrite (mi_idle _ Hi Hr).
    - pose proof (delete_length_le i (windows p)). pose proof (mi_single _ Hi). lia.
    - apply Forall_delete, (mi_opts _ Hi). }
  case_bool_decide; [|done]. rewrite emit_all_closed by done. unfold on_all_closed.
  case_bool_decide; [apply app_quit_inv; [done|by left]|done].
Qed.

Lemma open_inv i url p :
  main_inv p -> (i < length (windows p))%nat -> main_inv (handle_event isPackaged dirname platform (EOpen i url) p).
Proof.
  intros Hi Hlt. simpl. destruct (lookup_lt_is_Some_2 _ _ Hlt) as [w Hw].
  destruct (Forall_lookup_1 _ _ _ _ (mi_opts _ Hi) Hw) as (_ & _ & Ho).
  rewrite (open_request_handled _ _ _ _ Hw Ho). destruct (String.prefix "https:" url) eqn:Hu; [|done].
  destruct Hi. constructor; try done. simpl. apply Forall_app. by repeat constructor.
Qed.

(** A process locked out of the lock holds only the listener of
    [window-all-closed]: [ready] changes nothing but the flag. *)
Lemma locked_ready p :
  listeners p = [LAllClosed] -> handle_event isPackaged dirname platform EReady p = set_ready p.
Proof. intros Hl. unfold handle_event, emit. simpl. by rewrite Hl. Qed.

Lemma ready_quit_inv p :
  main_inv p -> quitting p = true -> ready p = false -> main_inv (handle_event isPackaged dirname platform EReady p).
Proof.
  intros Hi Hq Hr. pose proof (mi_quit_ready _ Hi Hq Hr) as Hg.
  pose proof (mi_listeners _ Hi) as Hl. rewrite Hg, Hr in Hl. simpl in Hl.
  rewrite locked_ready by done. destruct Hi. constructor; simpl; try done. by rewrite Hl, Hg.
Qed.

Lemma event_inv e p :
  main_inv p -> event_enabled e p = true -> main_inv (handle_event isPackaged dirname platform e p).
Proof.
  intros Hi Hen. destruct e; simpl in Hen.
  - apply negb_true_iff in Hen. destruct (quitting p) eqn:Hq; [by apply ready_quit_inv|by apply ready_inv].
  - apply andb_prop in Hen as [Hq He]. apply negb_true_iff in Hq. by apply activate_inv.
  - apply negb_true_iff in Hen. by apply second_inv.
  - apply andb_prop in Hen as [Hq He]. apply negb_true_iff in Hq. by apply minimize_inv.
  - apply andb_prop in Hen as [Hq He]. apply negb_true_iff in Hq. apply bool_decide_eq_true in He.
    by apply close_inv.
  - apply andb_prop in Hen as [Hq He]. apply negb_true_iff in Hq. apply bool_decide_eq_true in He.
    by apply open_inv.
Qed.

Lemma ereach_inv_gen b p : ereach isPackaged dirname platform b p -> main_inv p.
Proof.
  induction 1 as [|e p _ IH Hen]; [apply main_script_inv|]. by apply event_inv.
Qed.

(** ** What the main process guarantees *)

(** C28: in every state the main process reaches, hardware acceleration
    is off, there is at most one window, every window has the options of
    [createWindow] (720 x 720, not resizable, no Node integration, context
    isolation, no background throttling, so the timer is not slowed down
    when hidden) and its window-open handler, and only [https:] URLs have
    been handed to the shell. *)
Theorem electron_inv b p : ereach isPackaged dirname platform b p -> main_inv p.
Proof. apply ereach_inv_gen. Qed.

(** C29: a process that does not get the single-instance lock calls
    [app.quit()] and registers nothing but the [window-all-closed]
    listener: even when [ready] still fires before the quit completes, it
    opens no window, and it stays quitting with that one listener. *)
Theorem locked_out_quits p :
  ereach isPackaged dirname platform false p ->
  quitting p = true /\ windows p = [] /\ listeners p = [LAllClosed].
Proof.
  induction 1 as [|e p _ IH Hen]; [done|]. destruct IH as (Hq & Hw & Hl).
  destruct e; simpl in Hen; rewrite ?Hq in Hen; simpl in Hen; try discriminate.
  by rewrite locked_ready.
Qed.

(** C30: a second launch brings the window of the running instance back
    (restored if minimised, focused) and opens nothing; with no window
    open it does nothing at all. *)
Theorem second_instance_spec b p :
  ereach isPackaged dirname platform b p -> quitting p = false ->
  handle_event isPackaged dirname platform ESecondInstance p =
    match windows p with
    | [] => p
    | w :: rest =>
        set_windows ({| wopts := wopts w; content := content w; minimized := false; focused := true;
                        openHandler := openHandler w |} :: rest) p
    end.
Proof.
  intros Hr Hq. simpl. rewrite emit_second by (done || by eapply ereach_inv_gen).
  unfold on_second_instance. destruct (windows p) as [|w rest]; [done|]. by destruct w as [? ? [] ? ?].
Qed.

Lemma window_open_spec b p i url :
  ereach isPackaged dirname platform b p -> (i < length (windows p))%nat ->
  windows (handle_event isPackaged dirname platform (EOpen i url) p) = windows p /\
  external (handle_event isPackaged dirname platform (EOpen i url) p) =
    external p ++ (if String.prefix "https:" url then [url] else []).
Proof.
  intros Hr Hlt. pose proof (ereach_inv_gen _ _ Hr) as Hi. simpl.
  destruct (lookup_lt_is_Some_2 _ _ Hlt) as [w Hw].
  destruct (Forall_lookup_1 _ _ _ _ (mi_opts _ Hi) Hw) as (_ & _ & Ho).
  rewrite (open_request_handled _ _ _ _ Hw Ho). destruct (String.prefix "https:" url); simpl; [done|].
  by rewrite app_nil_r.
Qed.

(** C31: a page that asks for a new window never gets one: the window
    list is unchanged, and the URL goes to the default browser exactly
    when it starts with [https:]. *)
Theorem window_open_denied b p i url :
  ereach isPackaged dirname platform b p -> (i < length (windows p))%nat ->
  windows (handle_event isPackaged dirname platform (EOpen i url) p) = windows p /\
  external (handle_event isPackaged dirname platform (EOpen i url) p) =
    external p ++ (if String.prefix "https:" url then [url] else []).
Proof. apply window_open_spec. Qed.

(** C32: closing the last window quits the application except on macOS,
    where the process stays and the next [activate] opens the window
    again as at start. *)
Theorem last_window_closed p w :
  ereach isPackaged dirname platform true p -> quitting p = false -> windows p = [w] ->
  let p' := handle_event isPackaged dirname platform (EClose 0) p in
  windows p' = [] /\ quitting p' = bool_decide (platform <> "darwin") /\
  (platform = "darwin" ->
   handle_event isPackaged dirname platform EActivate p' = createWindow isPackaged dirname p').
Proof.
  intros Hr Hq Hw p'. pose proof (ereach_inv_gen _ _ Hr) as Hi.
  assert (Hready : ready p = true) by (destruct (ready p) eqn:E; [done|]; by rewrite (mi_idle _ Hi E) in Hw).
  assert (Hp' : p' = on_all_closed platform (set_windows [] p)).
  { unfold p'. simpl. unfold close_window. rewrite Hw. simpl.
    try rewrite bool_decide_true by done. apply emit_all_closed; [|done].
    apply (set_windows_inv _ _ Hi); [|simpl; lia|done]. by rewrite Hready. }
  rewrite Hp'. unfold on_all_closed. case_bool_decide as Hd; simpl; [done|].
  split; [done|split; [done|]]. intros _.
  assert (Hi' : main_inv (set_windows [] p)) by (apply set_windows_inv; [done|by rewrite Hready|simpl; lia|done]).
  simpl. rewrite emit_activate by done. unfold on_activate. by rewrite bool_decide_true.
Qed.

End Props.

(** ** A session

    The packaged application on macOS and on Windows: the script with the
    lock free, [ready], a minimised window. *)

Definition demo_dir : string := "/Applications/Tomidoro.app/Contents/Resources/app.asar/electron".
Definition demo_p1 : Proc := main_script true.
Definition demo_p2 (platform : string) : Proc := handle_event true demo_dir platform EReady demo_p1.
Definition demo_p3 (platform : string) : Proc := handle_event true demo_dir platform (EMinimize 0) (demo_p2 platform).

(** The window [createWindow] opens in the packaged application. *)
Definition demo_win : Win :=
  {| wopts := window_options true demo_dir; content := LoadFile (Join demo_dir "../dist/index.html");
     minimized := false; focused := true; openHandler := true |}.

Lemma demo_p3_reach platform : ereach true demo_dir platform true (demo_p3 platform).
Proof.
  apply ereach_step; [apply ereach_step; [apply ereach_init|reflexivity]|reflexivity].
Qed.

Lemma demo_p2_reach platform : ereach true demo_dir platform true (demo_p2 platform).
Proof. apply ereach_step; [apply ereach_init|reflexivity]. Qed.

Lemma electron_inv_witness :
  ereach true demo_dir "win32" true (demo_p3 "win32") /\ main_inv true demo_dir (demo_p3 "win32").
Proof. exact (conj (demo_p3_reach "win32") (electron_inv true demo_dir "win32" true _ (demo_p3_reach "win32"))). Defined.

Definition demo_locked : Proc := handle_event true demo_dir "linux" EReady (main_script false).

Lemma locked_out_quits_witness :
  ereach true demo_dir "linux" false demo_locked /\ ready demo_locked = true /\
  quitting demo_locked = true /\ windows demo_locked = [] /\ listeners demo_locked = [LAllClosed].
Proof.
  assert (Hr : ereach true demo_dir "linux" false demo_locked)
    by (apply (ereach_step _ _ _ _ EReady); [constructor|reflexivity]).
  exact (conj Hr (conj eq_refl (locked_out_quits true demo_dir "linux" _ Hr))).
Defined.

Lemma second_instance_spec_witness :
  ereach true demo_dir "win32" true (demo_p3 "win32") /\ quitting (demo_p3 "win32") = false /\
  handle_event true demo_dir "win32" ESecondInstance (demo_p3 "win32") =
    match windows (demo_p3 "win32") with
    | [] => demo_p3 "win32"
    | w :: rest =>
        set_windows ({| wopts := wopts w; content := content w; minimized := false; focused := true;
                        openHandler := openHandler w |} :: rest) (demo_p3 "win32")
    end.
Proof.
  assert (Hq : quitting (demo_p3 "win32") = false) by reflexivity.
  exact (conj (demo_p3_reach "win32") (conj Hq
    (second_instance_spec true demo_dir "win32" true _ (demo_p3_reach "win32") Hq))).
Defined.

Lemma window_open_denied_witness :
  ereach true demo_dir "win32" true (demo_p2 "win32") /\ (0 < length (windows (demo_p2 "win32")))%nat /\
  windows (handle_event true demo_dir "win32" (EOpen 0 "https://github.com/ibrahimkorkut") (demo_p2 "win32")) =
    windows (demo_p2 "win32") /\
  external (handle_event true demo_dir "win32" (EOpen 0 "https://github.com/ibrahimkorkut") (demo_p2 "win32")) =
    external (demo_p2 "win32") ++
    (if String.prefix "https:" "https://github.com/ibrahimkorkut" then ["https://github.com/ibrahimkorkut"] else []).
Proof.
  assert (Hl : (0 < length (windows (demo_p2 "win32")))%nat) by (vm_compute; lia).
  exact (conj (demo_p2_reach "win32") (conj Hl
    (window_open_denied true demo_dir "win32" true _ 0 "https://github.com/ibrahimkorkut" (demo_p2_reach "win32") Hl))).
Defined.

Lemma last_window_closed_witness :
  ereach true demo_dir "darwin" true (demo_p2 "darwin") /\ quitting (demo_p2 "darwin") = false /\
  windows (demo_p2 "darwin") = [demo_win] /\
  (let p' := handle_event true demo_dir "darwin" (EClose 0) (demo_p2 "darwin") in
   windows p' = [] /\ quitting p' = bool_decide ("darwin" <> "darwin") /\
   ("darwin" = "darwin" -> handle_event true demo_dir "darwin" EActivate p' = createWindow true demo_dir p')).
Proof.
  assert (Hq : quitting (demo_p2 "darwin") = false) by reflexivity.
  assert (Hw : windows (demo_p2 "darwin") = [demo_win]) by reflexivity.
  exact (conj (demo_p2_reach "darwin") (conj Hq (conj Hw
    (last_window_closed true demo_dir "darwin" _ _ (demo_p2_reach "darwin") Hq Hw)))).
Defined.

End Electron.
