(* ===== verification/Build.v ===== *)
(** * The build configuration (src/vite.config.js)

    [vite.config.js] is the object [defineConfig] receives: the React
    plugin, [base: './'] and [esbuild.drop: ['console', 'debugger']]; the
    options it leaves out keep Vite's defaults (the dev server on port
    5173 without [strictPort], the output in [dist/], the files of
    [public/] copied to the top of [dist/]).  [ViteConfig] holds these
    options and [config] is the file.

    Three consequences of the configuration are modelled, each against the
    code that depends on it:
    - [base] decides the references [index.html] holds to the bundle.  The
      packaged window of [main.cjs] loads [dist/index.html] through
      [loadFile], so a reference resolves against the directory of that
      file.  [path_join] is POSIX [path.join] and [resolve] the resolution
      of a relative reference of RFC 3986 (section 5.2), both on lists of
      path segments; the semantics they give to [Electron.Join] is what
      relates the two programs.
    - The dev window loads [http://localhost:5173]; [dev_port] is the port
      the dev server takes when some ports are busy.
    - [esbuild.drop] removes statements from the bundle.  [Stmt] is the
      syntax of a handler body at the grain of that pass.  [trace] is
      what a run shows: the statements and calls that run, the lines
      written to the console, the stops at [debugger].  [drop_body] is
      the pass. *)

From S2P Require Import Prelude Format Electron.
From Stdlib Require Import Ascii.
Open Scope Z_scope.
Import Electron.

Module Build.

(** [@vitejs/plugin-react] (line 2). *)
Inductive Plugin := PluginReact.

(** What [esbuild.drop] can name. *)
Inductive Drop := DropConsole | DropDebugger.

#[export] Instance Drop_eq_dec : EqDecision Drop.
Proof. solve_decision. Defined.

Record ViteConfig := mkConfig {
  plugins : list Plugin;
  base : string;
  esbuild_drop : list Drop;
  server_port : option Z;   (** [server.port] *)
  strictPort : bool         (** [server.strictPort] *)
}.

(** [defineConfig({...})] (lines 5-11); the file sets no [server]
    options. *)
Definition config : ViteConfig :=
  {| plugins := [PluginReact]; base := "./"; esbuild_drop := [DropConsole; DropDebugger];
     server_port := None; strictPort := false |}.

(** ** Paths *)

(** The segments of a path or of a URL path, split at ['/']. *)
Fixpoint segments (s : string) : list string :=
  match s with
  | EmptyString => [""]
  | String c rest =>
      if Ascii.eqb c "/"%char then "" :: segments rest
      else match segments rest with
           | [] => [String c ""]
           | x :: xs => String c x :: xs
           end
  end.

(** The directories walked through, last first: empty segments and
    ['.'] stay, ['..'] goes up (never above the root), a name goes down. *)
Fixpoint walk (acc : list string) (segs : list string) : list string :=
  match segs with
  | [] => acc
  | s :: rest =>
      if String.eqb s "" || String.eqb s "." then walk acc rest
      else if String.eqb s ".." then walk (tail acc) rest
      else walk (s :: acc) rest
  end.

Definition normalize (segs : list string) : list string := rev (walk [] segs).

(** [path.join(dir, rel)] for an absolute [dir], as the segments of the
    absolute path it returns. *)
Definition path_join (dir rel : string) : list string := normalize (segments dir ++ segments rel).

Definition file_of (p : FilePath) : list string :=
  match p with Join d r => path_join d r end.

(** The file a reference [ref] of the page [file://page] designates: from
    the root when [ref] starts with ['/'], else from the directory of the
    page. *)
Definition resolve (page : list string) (ref : string) : list string :=
  match ref with
  | String c _ => if Ascii.eqb c "/"%char then normalize (segments ref)
                  else normalize (removelast page ++ segments ref)
  | EmptyString => page
  end.

(** ** What [vite build] writes and what the page asks for *)

(** Under the project root [root]: [dist/index.html], the bundle under
    [dist/assets/], the files of [public/] at the top of [dist/]. *)
Definition out_index (root : list string) : list string := root ++ ["dist"; "index.html"].
Definition out_asset (root : list string) (f : string) : list string := root ++ ["dist"; "assets"; f].
Definition out_public (root : list string) (f : string) : list string := root ++ ["dist"; f].

(** The reference [index.html] holds to the emitted asset [f]. *)
Definition asset_ref (c : ViteConfig) (f : string) : string := base c +:+ "assets/" +:+ f.

(** A file or directory name: not empty, not ['.'] or ['..'], no ['/']. *)
Fixpoint no_slash (s : string) : bool :=
  match s with
  | EmptyString => true
  | String c rest => negb (Ascii.eqb c "/"%char) && no_slash rest
  end.

Definition plain (s : string) : bool :=
  negb (String.eqb s "") && negb (String.eqb s ".") && negb (String.eqb s "..") && no_slash s.

(** [__dirname] of [main.cjs] in the project [root]: [root/electron]. *)
Definition electron_dir (root : list string) : string := "/" +:+ String.concat "/" (root ++ ["electron"]).

(** ** The dev server *)

(** The port [vite] listens on: [server.port], 5173 when it is not set.
    A port in use ([busy]) fails the start with [strictPort]; without it
    the server tries the next port, for at most [fuel] ports. *)
Fixpoint try_ports (fuel : nat) (busy : list Z) (port : Z) : option Z :=
  match fuel with
  | O => None
  | S n => if bool_decide (port ∈ busy) then try_ports n busy (port + 1) else Some port
  end.

Definition dev_port (c : ViteConfig) (busy : list Z) : option Z :=
  let port := default 5173 (server_port c) in
  if strictPort c then (if bool_decide (port ∈ busy) then None else Some port)
  else try_ports (S (length busy)) busy port.

(** The address of the dev server on [port]. *)
Definition dev_url (port : Z) : string := "http://localhost:" +:+ js_toString port.

(** ** [esbuild.drop] *)

(** An argument of a call: a literal, a variable, or a call whose
    evaluation runs [code]. *)
Inductive Arg := ALit (s : string) | AVar (x : string) | ACall (code : string).

(** A statement of a handler body at the grain of [drop]: a call of a
    [console] method, a [debugger] statement, any other statement (named
    by its text), a promise call with its [.catch] handler, an [if]. *)
Inductive Stmt :=
  | SConsole (method : string) (args : list Arg)
  | SDebugger
  | SDo (code : string)
  | SCatch (call : string) (handler : list Stmt)
  | SIf (cond : string) (body : list Stmt).

(** What a run shows: a statement or call that runs, a line written to
    the console, a stop at a [debugger] statement (the developer tools
    open). *)
Inductive Obs := ORun (code : string) | OLog (method : string) (args : list Arg) | OPause.

Definition arg_trace (x : Arg) : list Obs :=
  match x with ACall c => [ORun c] | _ => [] end.

(** The trace of a statement where [env] tells which conditions hold and
    which promises reject.  A console call evaluates its arguments, then
    writes the line. *)
Fixpoint trace (env : string -> bool) (s : Stmt) : list Obs :=
  match s with
  | SConsole m args => concat (map arg_trace args) ++ [OLog m args]
  | SDebugger => [OPause]
  | SDo c => [ORun c]
  | SCatch call h => ORun call :: (if env call then concat (map (trace env) h) else [])
  | SIf c b => if env c then concat (map (trace env) b) else []
  end.

Definition trace_body (env : string -> bool) (ss : list Stmt) : list Obs := concat (map (trace env) ss).

(** The pass: the statements [drop] names go, with the evaluation of
    their arguments; handlers and branches are rewritten inside. *)
Fixpoint drop_stmt (d : list Drop) (s : Stmt) : list Stmt :=
  match s with
  | SConsole _ _ => if bool_decide (DropConsole ∈ d) then [] else [s]
  | SDebugger => if bool_decide (DropDebugger ∈ d) then [] else [s]
  | SDo _ => [s]
  | SCatch call h => [SCatch call (concat (map (drop_stmt d) h))]
  | SIf c b => [SIf c (concat (map (drop_stmt d) b))]
  end.

Definition drop_body (d : list Drop) (ss : list Stmt) : list Stmt := concat (map (drop_stmt d) ss).

(** The console calls of a body evaluate no call in their arguments. *)
Fixpoint console_pure (s : Stmt) : bool :=
  match s with
  | SConsole _ args => forallb (fun x => match x with ACall _ => false | _ => true end) args
  | SDebugger | SDo _ => true
  | SCatch _ h => forallb console_pure h
  | SIf _ b => forallb console_pure b
  end.

Definition is_run (o : Obs) : bool := match o with ORun _ => true | _ => false end.

(** The body of [handleTimerFinished] (lines 150-163). *)
Definition handleTimerFinished_body : list Stmt :=
  [SDo "setIsActive(false)"; SDo "clearInterval(timerRef.current)"; SDo "setTimeLeft(0)";
   SDo "setIsAlarmRinging(true)";
   SCatch "audioRef.current.play()" [SConsole "error" [ALit "Error playing alarm:"; AVar "e"]];
   SDo "document.title = 'Tomidoro'";
   SIf "Notification.permission === 'granted'"
     [SDo "new Notification('Timer Finished!', { body: `${currentMode.label} is over.` })"]].

(** Nested induction on statements. *)
Section StmtInd.
Variable P : Stmt -> Prop.
Hypothesis HConsole : forall m args, P (SConsole m args).
Hypothesis HDebugger : P SDebugger.
Hypothesis HDo : forall c, P (SDo c).
Hypothesis HCatch : forall call h, Forall P h -> P (SCatch call h).
Hypothesis HIf : forall c b, Forall P b -> P (SIf c b).

Fixpoint Stmt_ind' (s : Stmt) : P s :=
  let fix go (l : list Stmt) : Forall P l :=
    match l with
    | [] => List.Forall_nil _
    | x :: l' => List.Forall_cons _ _ _ (Stmt_ind' x) (go l')
    end in
  match s with
  | SConsole m args => HConsole m args
  | SDebugger => HDebugger
  | SDo c => HDo c
  | SCatch call h => HCatch call h (go h)
  | SIf c b => HIf c b (go b)
  end.
End StmtInd.

(** ** Lemmas on paths *)

Lemma segments_app s t : no_slash s = true -> segments (s +:+ String "/"%char t) = s :: segments t.
Proof.
  induction s as [|c s IH]; [done|]. simpl. intros [Hc Hs]%andb_prop.
  apply negb_true_iff in Hc. rewrite Hc, (IH Hs). done.
Qed.

Lemma segments_name s : no_slash s = true -> segments s = [s].
Proof.
  induction s as [|c s IH]; [done|]. simpl. intros [Hc Hs]%andb_prop.
  apply negb_true_iff in Hc. by rewrite Hc, (IH Hs).
Qed.

Lemma plain_spec s :
  plain s = true -> String.eqb s "" = false /\ String.eqb s "." = false /\
                    String.eqb s ".." = false /\ no_slash s = true.
Proof. unfold plain. by destruct (s =? "")%string, (s =? ".")%string, (s =? "..")%string, (no_slash s). Qed.

Lemma segments_concat l :
  Forall (fun s => plain s = true) l -> l <> [] -> segments (String.concat "/" l) = l.
Proof.
  induction l as [|a [|b l] IH]; intros Hl Hne; [done| |].
  - apply Forall_inv, plain_spec in Hl as (_ & _ & _ & Ha). by apply segments_name.
  - apply Forall_cons in Hl as [Ha Hl]. apply plain_spec in Ha as (_ & _ & _ & Ha).
    change (String.concat "/" (a :: b :: l)) with (a +:+ String "/"%char (String.concat "/" (b :: l))).
    rewrite segments_app by done. by rewrite IH.
Qed.

Lemma plain_path root : forallb plain root = true -> Forall (fun s => plain s = true) root.
Proof. intros H. apply List.Forall_forall. by apply forallb_forall. Qed.

(** A plain name is a step down. *)
Lemma walk_name acc s r : plain s = true -> walk acc (s :: r) = walk (s :: acc) r.
Proof. intros (H1 & H2 & H3 & _)%plain_spec. simpl. by rewrite H1, H2, H3. Qed.

Lemma walk_names acc l r :
  Forall (fun s => plain s = true) l -> walk acc (l ++ r) = walk (rev l ++ acc) r.
Proof.
  revert acc. induction l as [|a l IH]; intros acc Hl; [done|].
  apply Forall_cons in Hl as [Ha Hl]. cbn [app rev]. rewrite walk_name, IH by done.
  by rewrite <- app_assoc.
Qed.

(** [path.join(__dirname, '../' + rel)] from [root/electron] is [rel]
    under [root]. *)
Lemma join_electron_up root rel :
  forallb plain root = true ->
  path_join (electron_dir root) (".." +:+ String "/"%char rel) = normalize (root ++ segments rel).
Proof.
  intros Hr%plain_path.
  unfold path_join, normalize, electron_dir.
  rewrite string_app_cons, string_app_nil_l, segments_app by done.
  change (segments (String "/"%char (String.concat "/" (root ++ ["electron"]))))
    with ("" :: segments (String.concat "/" (root ++ ["electron"]))).
  rewrite segments_concat; [|apply Forall_app; by repeat constructor|by destruct root].
  simpl. rewrite <- app_assoc, walk_names by done. simpl. by rewrite walk_names.
Qed.

Lemma normalize_names l : Forall (fun s => plain s = true) l -> normalize l = l.
Proof.
  intros Hl. unfold normalize. rewrite <- (app_nil_r l) at 1.
  rewrite walk_names by done. simpl. by rewrite app_nil_r, rev_involutive.
Qed.

(** An asset reference of [base './'] names the file under [dist/assets]
    next to the page. *)
Lemma resolve_relative_asset root f :
  forallb plain root = true -> plain f = true ->
  resolve (out_index root) ("./assets/" +:+ f) = out_asset root f.
Proof.
  intros Hr%plain_path Hf. pose proof (plain_spec _ Hf) as (H1 & H2 & H3 & Hs).
  unfold resolve, out_index, out_asset, normalize. simpl.
  rewrite removelast_app by done. simpl. rewrite segments_name by done.
  rewrite <- app_assoc, walk_names by done. simpl. rewrite string_app_nil_l, H1, H2, H3, app_nil_r. simpl.
  by rewrite rev_involutive, <- !app_assoc.
Qed.

(** With Vite's default [base '/'] the reference starts at the root of
    the file system, whatever the page. *)
Lemma resolve_root_asset page f :
  plain f = true -> resolve page ("/assets/" +:+ f) = ["assets"; f].
Proof.
  intros Hf. pose proof (plain_spec _ Hf) as (H1 & H2 & H3 & Hs).
  unfold resolve, normalize. simpl. rewrite segments_name by done. simpl. by rewrite string_app_nil_l, H1, H2, H3.
Qed.

Lemma join_dist root f :
  forallb plain root = true -> path_join (electron_dir root) ("../dist/" +:+ f) = normalize (root ++ "dist" :: segments f).
Proof. intros Hr. exact (join_electron_up root ("dist/" +:+ f) Hr). Qed.

Lemma plain_under root xs :
  forallb plain root = true -> forallb plain xs = true -> normalize (root ++ xs) = root ++ xs.
Proof. intros Hr%plain_path Hx%plain_path. apply normalize_names, Forall_app. by split. Qed.

(** With Vite's default [base '/'] every asset reference of a page loaded
    from [root/dist] misses the build: it names [/assets/f]. *)
Lemma root_base_misses root f :
  plain f = true -> resolve (out_index root) ("/assets/" +:+ f) <> out_asset root f.
Proof.
  intros Hf. rewrite resolve_root_asset by done. unfold out_asset.
  intros Heq. apply (f_equal length) in Heq. rewrite length_app in Heq. simpl in Heq. lia.
Qed.

(** A window that shows the build of the project [root]: its page is
    [dist/index.html], every asset reference of that page names the file
    the build wrote under [dist/assets], and its icon is the copy of
    [public/icon.png] at the top of [dist]. *)
Definition serves_build (root : list string) (w : Win) : Prop :=
  exists page, content w = LoadFile page /\ file_of page = out_index root /\
    (forall f, plain f = true -> resolve (file_of page) (asset_ref config f) = out_asset root f) /\
    file_of (icon (wopts w)) = out_public root "icon.png".

(** C10: in every state of the packaged application whose [main.cjs]
    lies in [root/electron], every window loads the built [index.html] of
    [root/dist] and finds each asset the page references at
    [root/dist/assets] and its icon at [root/dist/icon.png]: the
    [base './'] of the configuration and the paths of [createWindow] agree
    (with Vite's default [base '/'] the references would name [/assets],
    [root_base_misses]). *)
Theorem packaged_window_serves_build root platform b p :
  forallb plain root = true ->
  ereach true (electron_dir root) platform b p -> Forall (serves_build root) (windows p).
Proof.
  intros Hr Hreach. pose proof (mi_opts _ _ _ (ereach_inv_gen _ _ _ _ _ Hreach)) as Ho.
  eapply Forall_impl; [exact Ho|]. intros w (Hw & Hc & _).
  exists (Join (electron_dir root) "../dist/index.html"). rewrite Hc.
  assert (Hi : file_of (Join (electron_dir root) "../dist/index.html") = out_index root).
  { etrans; [exact (join_dist root "index.html" Hr)|]. by apply plain_under. }
  split; [reflexivity|]. split; [exact Hi|]. split.
  - intros f Hf. rewrite Hi. by apply resolve_relative_asset.
  - rewrite Hw. etrans; [exact (join_dist root "icon.png" Hr)|]. by apply plain_under.
Qed.

(** ** Lemmas on the dev server *)

Lemma try_ports_none n busy port :
  try_ports n busy port = None -> forall k, (k < n)%nat -> port + Z.of_nat k ∈ busy.
Proof.
  revert port. induction n as [|n IH]; intros port Hn k Hk; [lia|]. simpl in Hn.
  case_bool_decide as Hb; [|done]. destruct k as [|k]; [by rewrite Z.add_0_r|].
  replace (port + Z.of_nat (S k)) with ((port + 1) + Z.of_nat k) by lia. apply IH; [done|lia].
Qed.

Lemma try_ports_some n busy port q :
  try_ports n busy port = Some q -> (q ∉ busy) /\ port <= q.
Proof.
  revert port. induction n as [|n IH]; intros port Hq; [done|]. simpl in Hq.
  case_bool_decide; [apply IH in Hq as [? ?]; split; [done|lia]|]. simplify_eq. split; [done|lia].
Qed.

(** [length busy + 1] ports hold one that is free: the search always
    ends on a free port. *)
Lemma try_ports_enough busy port :
  exists q, try_ports (S (length busy)) busy port = Some q /\ (q ∉ busy) /\ port <= q.
Proof.
  destruct (try_ports (S (length busy)) busy port) as [q|] eqn:Hq; [eexists; split; [done|]|].
  - by apply (try_ports_some (S (length busy)) busy port).
  - exfalso. pose proof (try_ports_none _ _ _ Hq) as Hall.
    set (ports := (fun k => port + Z.of_nat k) <$> seq 0 (S (length busy))).
    assert (Hnd : NoDup ports).
    { apply NoDup_fmap_2; [intros x y ?; lia|apply NoDup_seq]. }
    assert (Hsub : ports ⊆ busy).
    { intros x (k & -> & Hk)%list_elem_of_fmap. apply elem_of_seq in Hk. apply Hall. lia. }
    pose proof (NoDup_submseteq _ _ Hnd Hsub) as Hle%submseteq_length.
    unfold ports in Hle. rewrite length_fmap, length_seq in Hle. lia.
Qed.

Lemma js_toString_inj z z' : 0 <= z -> 0 <= z' -> js_toString z = js_toString z' -> z = z'.
Proof.
  intros Hz Hz' E. apply (f_equal (fun s => parse_N (padStart s 0 "0"%char))) in E.
  rewrite !parse_padStart_digits in E by done. simplify_eq. lia.
Qed.

(** C14: the dev window of [main.cjs] loads [http://localhost:5173], the
    port the configuration leaves to Vite's default without
    [strictPort].  Whatever ports [busy] other programs hold, the dev
    server starts on a free port [q]; the window shows that server exactly
    when 5173 was free, and otherwise shows whatever listens on 5173. *)
Theorem dev_window_port dir platform b p busy w :
  ereach false dir platform b p -> w ∈ windows p ->
  exists q, dev_port config busy = Some q /\ (q ∉ busy) /\
    (content w = LoadURL (dev_url q) <-> 5173 ∉ busy).
Proof.
  intros Hreach Hw. pose proof (mi_opts _ _ _ (ereach_inv_gen _ _ _ _ _ Hreach)) as Ho.
  rewrite Forall_forall in Ho. destruct (Ho w Hw) as (_ & Hc & _).
  destruct (try_ports_enough busy 5173) as (q & Hq & Hnq & Hle).
  exists q. split; [exact Hq|]. split; [done|]. rewrite Hc. split.
  - intros [= E]. rewrite string_app_nil_l in E. change "5173" with (js_toString 5173) in E.
    apply js_toString_inj in E; [by subst|lia|lia].
  - intros Hn. simpl in Hq. rewrite bool_decide_false in Hq by done. by simplify_eq.
Qed.

(** ** Lemmas on [drop] *)

Section DropFacts.
Variable env : string -> bool.

Lemma trace_body_app l l' : trace_body env (l ++ l') = trace_body env l ++ trace_body env l'.
Proof. unfold trace_body. by rewrite map_app, concat_app. Qed.

Lemma filter_run_app (o o' : list Obs) : filter is_run (o ++ o') = filter is_run o ++ filter is_run o'.
Proof. apply filter_app. Qed.

Lemma pure_args_trace args :
  forallb (fun x => match x with ACall _ => false | _ => true end) args = true ->
  concat (map arg_trace args) = [].
Proof. induction args as [|[]]; simpl; try done; intros H; apply andb_prop in H as [_ H]; auto. Qed.

(** The pass with both kinds dropped keeps exactly the runs of a body
    whose console calls are pure. *)
Definition drop_sound (s : Stmt) : Prop :=
  console_pure s = true -> trace_body env (drop_stmt [DropConsole; DropDebugger] s) = filter is_run (trace env s).

Lemma drop_body_sound_gen h :
  Forall drop_sound h -> forallb console_pure h = true ->
  trace_body env (drop_body [DropConsole; DropDebugger] h) = filter is_run (trace_body env h).
Proof.
  induction 1 as [|x h Hx _ IH]; [done|]. simpl. intros [Hpx Hph]%andb_prop.
  change (drop_body _ (x :: h)) with (drop_stmt [DropConsole; DropDebugger] x ++ drop_body [DropConsole; DropDebugger] h).
  unfold trace_body at 2. simpl. fold (trace_body env h).
  by rewrite trace_body_app, filter_run_app, Hx, IH.
Qed.

Lemma drop_stmt_sound s : drop_sound s.
Proof.
  induction s as [m args| |c|call h IH|c b IH] using Stmt_ind'; unfold drop_sound; simpl; intros Hp.
  - by rewrite pure_args_trace.
  - done.
  - done.
  - unfold trace_body. simpl. rewrite app_nil_r, filter_cons_True by done. f_equal.
    destruct (env call); [|done]. exact (drop_body_sound_gen h IH Hp).
  - unfold trace_body. simpl. rewrite app_nil_r. destruct (env c); [|done].
    exact (drop_body_sound_gen b IH Hp).
Qed.

End DropFacts.

(** C19: the bundle of [esbuild.drop: ['console', 'debugger']] does what
    the source does, console and debugger apart: for every body whose
    console calls evaluate no call in their arguments and every outcome
    of its conditions and promises, the trace of the built body is the
    trace of the source restricted to the statements that run, in the
    same order; no line reaches the console and no [debugger] stops the
    page. *)
Theorem drop_keeps_behaviour env body :
  forallb console_pure body = true ->
  trace_body env (drop_body (esbuild_drop config) body) = filter is_run (trace_body env body).
Proof.
  intros Hp. apply drop_body_sound_gen; [|done]. apply Forall_forall. intros s _. apply drop_stmt_sound.
Qed.

(** [handleTimerFinished] when [play()] rejects: the source logs the
    error; the bundle keeps the [.catch] and runs the same statements. *)
Lemma rejected_play_silent_in_bundle :
  let env c := String.eqb c "audioRef.current.play()" in
  OLog "error" [ALit "Error playing alarm:"; AVar "e"] ∈ trace_body env handleTimerFinished_body /\
  trace_body env (drop_body (esbuild_drop config) handleTimerFinished_body) =
    [ORun "setIsActive(false)"; ORun "clearInterval(timerRef.current)"; ORun "setTimeLeft(0)";
     ORun "setIsAlarmRinging(true)"; ORun "audioRef.current.play()"; ORun "document.title = 'Tomidoro'"].
Proof. split; [vm_compute; set_solver|reflexivity]. Qed.

Lemma drop_keeps_behaviour_witness :
  forallb console_pure handleTimerFinished_body = true /\
  trace_body (fun c => String.eqb c "audioRef.current.play()")
    (drop_body (esbuild_drop config) handleTimerFinished_body) =
  filter is_run (trace_body (fun c => String.eqb c "audioRef.current.play()") handleTimerFinished_body).
Proof.
  assert (Hp : forallb console_pure handleTimerFinished_body = true) by reflexivity.
  exact (conj Hp (drop_keeps_behaviour _ handleTimerFinished_body Hp)).
Defined.

(** ** The packaged application of [Electron.demo_dir] *)

Definition demo_root : list string := ["Applications"; "Tomidoro.app"; "Contents"; "Resources"; "app.asar"].

Lemma packaged_window_serves_build_witness :
  forallb plain demo_root = true /\ ereach true (electron_dir demo_root) "win32" true (demo_p2 "win32") /\
  Forall (serves_build demo_root) (windows (demo_p2 "win32")).
Proof.
  assert (Hr : forallb plain demo_root = true) by reflexivity.
  assert (Hreach : ereach true (electron_dir demo_root) "win32" true (demo_p2 "win32")) by apply demo_p2_reach.
  exact (conj Hr (conj Hreach (packaged_window_serves_build demo_root "win32" true _ Hr Hreach))).
Defined.

(** ** A dev session while another program holds port 5173 *)

Definition demo_dev : Proc := handle_event false demo_dir "linux" EReady (main_script true).

Definition demo_dev_win : Win :=
  {| wopts := window_options false demo_dir; content := window_content false demo_dir;
     minimized := false; focused := true; openHandler := true |}.

Lemma demo_dev_reach : ereach false demo_dir "linux" true demo_dev.
Proof. apply (ereach_step _ _ _ _ EReady); [constructor|reflexivity]. Qed.

Lemma dev_window_port_witness :
  ereach false demo_dir "linux" true demo_dev /\ demo_dev_win ∈ windows demo_dev /\
  exists q, dev_port config [5173] = Some q /\ (q ∉ [5173]) /\
    (content demo_dev_win = LoadURL (dev_url q) <-> 5173 ∉ [5173]).
Proof.
  assert (Hw : demo_dev_win ∈ windows demo_dev) by (simpl; left).
  exact (conj demo_dev_reach (conj Hw (dev_window_port _ _ _ _ [5173] _ demo_dev_reach Hw))).
Defined.

End Build.
