(* ===== verification/View.v ===== *)
(** * The rendered view of App.jsx (lines 299-652)

    [render] is the JSX that [App] returns, as a tree of elements: each
    element has its tag, the attributes that carry behaviour or the state
    ([className], [aria-label], [key], [href], [target], ...), the message
    its [onClick] or [onChange] handler sends, and its children.  The
    inline icon components ([SettingsIcon], [PlayIcon], ...) are constant
    markup and stay named leaves ([Comp]); the CSS text of the [<style>]
    element is not behaviour and is left out.

    A message is what a handler does: a control of the timer
    ([TimerRun.Intent]) or an event of the settings dialog
    ([AlarmRun.AEvent]); the file input sends [MPick], which becomes
    [AFile f] for the file the user picked.  The file relates the messages
    of the tree to the guards the transition systems use, and the anchors
    of the tree to the window-open handler of the main process. *)

From S2P Require Import Prelude Modes Format Audio Timer TimerRun Json Alarms AlarmRun App Electron.
Open Scope Z_scope.
Import Timer Alarms AlarmRun App Electron.

Module View.

Inductive Msg :=
  | MTimer (i : Intent)
  | MDialog (ev : AEvent)
  | MPick.

Inductive Node :=
  | Text (s : string)
  | Comp (name : string)
  | El (tag : string) (attrs : list (string * string)) (on : option Msg) (children : list Node).

(** The messages of a tree, in document order. *)
Fixpoint msgs (n : Node) : list Msg :=
  match n with
  | Text _ | Comp _ => []
  | El _ _ on cs => option_list on ++ concat (map msgs cs)
  end.

Definition msgs_list (l : list Node) : list Msg := concat (map msgs l).

(** The anchors of a tree: [href] and [target]. *)
Definition attr (k : string) (attrs : list (string * string)) : option string :=
  snd <$> find (fun kv => String.eqb kv.1 k) attrs.

Fixpoint anchors (n : Node) : list (option string * option string) :=
  match n with
  | Text _ | Comp _ => []
  | El tag attrs _ cs =>
      (if String.eqb tag "a" then [(attr "href" attrs, attr "target" attrs)] else []) ++
      concat (map anchors cs)
  end.

(** The class names of a tree. *)
Fixpoint classes (n : Node) : list string :=
  match n with
  | Text _ | Comp _ => []
  | El _ attrs _ cs =>
      option_list (attr "className" attrs) ++ concat (map classes cs)
  end.

(** ** The JSX *)

(** [`${prefix} ${cond ? word : ''}`]. *)
Definition cls (prefix word : string) (b : bool) : string :=
  prefix +:+ " " +:+ (if b then word else "").

(** A tab (lines 318-324). *)
Definition tab (cur m : Mode) : Node :=
  El "button" [("key", mode_key m); ("className", cls "tab-btn" "active" (bool_decide (cur = m)))]
     (Some (MTimer (ISwitch m))) [Text (label (MODES m))].

Definition adj_button (amount : Z) (lbl : string) : Node :=
  El "button" [] (Some (MTimer (IAdjust amount))) [Text lbl].

(** The adjustment controls (lines 331-347). *)
Definition custom_controls : Node :=
  El "div" [("className", "custom-controls")] None
    [El "div" [("className", "adj-group")] None [adj_button (-3600) "-1h"; adj_button 3600 "+1h"];
     El "div" [("className", "adj-group")] None [adj_button (-60) "-1m"; adj_button 60 "+1m"];
     El "div" [("className", "adj-group")] None [adj_button (-10) "-10s"; adj_button 10 "+10s"]].

(** The primary control and the reset button (lines 349-363). *)
Definition controls (t : TimerState) : Node :=
  El "div" [("className", "controls")] None
    [if isAlarmRinging t
     then El "button" [("className", "control-btn big"); ("aria-label", "Stop Alarm")]
            (Some (MTimer IStopAlarm)) [Comp "StopAlarmIcon"]
     else El "button" [("className", "control-btn big");
                       ("aria-label", if isActive t then "Pause" else "Start")]
            (Some (MTimer IToggle)) [Comp (if isActive t then "PauseIcon" else "PlayIcon")];
     El "button" [("className", "control-btn small"); ("aria-label", "Reset")]
       (Some (MTimer IReset)) [Comp "ResetIcon"]].

(** The timer card (lines 311-364, without the CSS of lines 365-583). *)
Definition container (t : TimerState) : Node :=
  El "div" [("className", "container"); ("--theme-color", color (MODES (mode t)))] None
    ([El "header" [("className", "tabs")] None (map (tab (mode t)) mode_keys);
      El "div" [("className", "timer-display")] None [El "h1" [] None [Text (formatTime (timeLeft t))]]] ++
     (if bool_decide (mode t = Custom) && negb (isActive t) then [custom_controls] else []) ++
     [controls t; El "style" [] None []]).

(** An alarm of the list (lines 609-627); the delete button stops the
    click from reaching the item. *)
Definition alarm_item (sel : string) (x : Alarm) : Node :=
  El "div" [("key", id x); ("className", cls "alarm-item" "selected" (bool_decide (sel = id x)))]
     (Some (MDialog (ASelect (id x))))
     [El "span" [("className", "alarm-name")] None [Text (name x)];
      El "button" [("className", "delete-btn")] (Some (MDialog (ADelete (id x)))) [Comp "TrashIcon"]].

(** The settings dialog (lines 586-640).  The overlay closes the dialog
    only on a click on itself ([e.target === e.currentTarget]), which is
    the message it carries. *)
Definition dialog (t : TimerState) (al : AlarmState) : Node :=
  El "div" [("className", "modal-overlay")] (Some (MDialog AClose))
    [El "div" [("className", "modal-content"); ("--theme-color", color (MODES (mode t)))] None
      [El "div" [("className", "modal-header")] None
         [El "h2" [] None [Text "Settings"];
          El "button" [("className", "close-btn")] (Some (MDialog AClose)) [Comp "XIcon"]];
       El "div" [("className", "alarm-section")] None
         [El "h3" [] None [Text "Choose Alarm Sound"];
          El "div" [("className", "alarm-list")] None
            (El "div" [("className", cls "alarm-item" "selected"
                                        (bool_decide (selectedAlarm al = "default")))]
                (Some (MDialog (ASelect "default")))
                [El "span" [("className", "alarm-name")] None [Text "Default Alarm"]]
             :: map (alarm_item (selectedAlarm al)) (customAlarms al));
          El "label" [("className", "upload-btn")] None
            [Text "+ Add Custom Alarm (MP3/WAV)";
             El "input" [("type", "file"); ("accept", "audio/*")] (Some MPick) []]]]].

Definition link (href icon : string) : Node :=
  El "a" [("href", href); ("target", "_blank"); ("rel", "noopener noreferrer")] None [Comp icon].

(** The watermark (lines 643-649). *)
Definition watermark : Node :=
  El "div" [("className", "watermark")] None
    [El "div" [("className", "social-links")] None
       [link "https://github.com/ibrahimkorkut" "GithubIcon";
        link "https://www.linkedin.com/in/ibrahim-korkut-21845b335/" "LinkedinIcon"];
     El "div" [("className", "author-text")] None [Text "Made By İbrahim Korkut"]].

(** What [App] returns (lines 299-652): a fragment. *)
Definition render (t : TimerState) (al : AlarmState) : list Node :=
  [El "button" [("className", "settings-btn"); ("aria-label", "Settings")]
     (Some (MDialog AOpen)) [Comp "SettingsIcon"];
   container t] ++
  (if isOptionsOpen al then [dialog t al] else []) ++
  [watermark].

(** ** What the view dispatches *)

Definition adj_amounts : list Z := [-3600; 3600; -60; 60; -10; 10].

(** The messages of the timer card, in document order. *)
Definition timer_msgs (t : TimerState) : list Msg :=
  map (fun m => MTimer (ISwitch m)) mode_keys ++
  (if bool_decide (mode t = Custom) && negb (isActive t)
   then map (fun a => MTimer (IAdjust a)) adj_amounts else []) ++
  [MTimer (if isAlarmRinging t then IStopAlarm else IToggle); MTimer IReset].

(** The messages of the open dialog. *)
Definition dialog_msgs (al : AlarmState) : list Msg :=
  [MDialog AClose; MDialog AClose; MDialog (ASelect "default")] ++
  concat (map (fun x => [MDialog (ASelect (id x)); MDialog (ADelete (id x))]) (customAlarms al)) ++
  [MPick].

Lemma msgs_alarm_items sel l :
  concat (map msgs (map (alarm_item sel) l)) =
  concat (map (fun x => [MDialog (ASelect (id x)); MDialog (ADelete (id x))]) l).
Proof. induction l as [|x l IH]; [done|]. simpl. by rewrite IH. Qed.

Lemma msgs_render t al :
  msgs_list (render t al) =
  [MDialog AOpen] ++ timer_msgs t ++ (if isOptionsOpen al then dialog_msgs al else []).
Proof.
  unfold msgs_list, render, container, controls, dialog, timer_msgs, dialog_msgs.
  destruct (isOptionsOpen al), (bool_decide (mode t = Custom) && negb (isActive t)),
    (isAlarmRinging t); simpl; rewrite ?msgs_alarm_items, ?app_nil_r, <-?app_assoc; done.
Qed.

Lemma timer_msgs_timer m t : m ∈ timer_msgs t -> exists i, m = MTimer i.
Proof.
  unfold timer_msgs. simpl. intros Hm. case_match; simpl in Hm;
    repeat (apply elem_of_cons in Hm as [->|Hm]; [by eauto|]); by apply elem_of_nil in Hm.
Qed.

Lemma elem_item_msgs m (l : list Alarm) :
  m ∈ concat (map (fun x => [MDialog (ASelect (id x)); MDialog (ADelete (id x))]) l) <->
  exists x, x ∈ l /\ (m = MDialog (ASelect (id x)) \/ m = MDialog (ADelete (id x))).
Proof.
  induction l as [|x l IH]; simpl; [set_solver|]. rewrite !elem_of_cons, IH.
  setoid_rewrite elem_of_cons. naive_solver.
Qed.

Lemma dialog_in_render ev t al :
  MDialog ev ∈ msgs_list (render t al) <->
  ev = AOpen \/ (isOptionsOpen al = true /\ MDialog ev ∈ dialog_msgs al).
Proof.
  rewrite msgs_render, !elem_of_app, list_elem_of_singleton.
  pose proof (timer_msgs_timer (MDialog ev) t) as Ht.
  split.
  - intros [[= ->]|[Hm|Hm]]; [by left| destruct (Ht Hm); discriminate|]. right.
    destruct (isOptionsOpen al); [by split|by apply elem_of_nil in Hm].
  - intros [->|[-> Hm]]; [by left|by right; right].
Qed.

(** The clicks of the dialog, as opposed to the reader's [onload] and the
    file chosen in the input. *)
Definition is_click (ev : AEvent) : bool :=
  match ev with ALoad _ _ | AFile _ => false | _ => true end.

Lemma in_dialog_msgs ev al :
  MDialog ev ∈ dialog_msgs al <->
  ev = AClose \/ ev = ASelect "default" \/
  exists x, x ∈ customAlarms al /\ (ev = ASelect (id x) \/ ev = ADelete (id x)).
Proof.
  unfold dialog_msgs. simpl. rewrite !elem_of_cons, elem_of_app, elem_item_msgs, list_elem_of_singleton.
  naive_solver.
Qed.

Lemma pick_in_render t al : MPick ∈ msgs_list (render t al) <-> isOptionsOpen al = true.
Proof.
  rewrite msgs_render, !elem_of_app, list_elem_of_singleton.
  pose proof (timer_msgs_timer MPick t) as Ht. unfold dialog_msgs.
  destruct (isOptionsOpen al); rewrite ?elem_of_app, ?list_elem_of_singleton, ?elem_item_msgs.
  - split; [done|]. intros _. right. right. by right; right.
  - split; [|done]. intros [|[Hm|Hm]]; [done| destruct (Ht Hm); discriminate | by apply elem_of_nil in Hm].
Qed.

Lemma dialog_enabled_iff t al ev :
  is_click ev = true -> MDialog ev ∈ msgs_list (render t al) <-> enabled ev al = true.
Proof.
  intros Hc. rewrite dialog_in_render, in_dialog_msgs.
  destruct ev as [| |k|k|f|now k]; simpl in Hc; try done; simpl;
    rewrite ?andb_true_iff, ?bool_decide_eq_true, ?Exists_exists; naive_solver.
Qed.

(** C33: the settings dialog offers exactly the events [AlarmRun.enabled]
    admits: the settings button always, the close controls, the alarms
    to select or delete and the file input only while the dialog is open,
    and only the listed alarms (and the default sound) as targets. *)
Theorem dialog_matches_enabled t al :
  (forall ev, is_click ev = true -> MDialog ev ∈ msgs_list (render t al) <-> enabled ev al = true) /\
  (MPick ∈ msgs_list (render t al) <-> forall f, enabled (AFile f) al = true).
Proof.
  split; [apply dialog_enabled_iff|].
  rewrite pick_in_render. split; [by intros ? ?|intros Hf; exact (Hf None)].
Qed.

(** The controls of the timer card the view shows in state [t]. *)
Definition offered (t : TimerState) (i : Intent) : Prop :=
  match i with
  | ISwitch _ | IReset => True
  | IToggle => isAlarmRinging t = false
  | IStopAlarm => isAlarmRinging t = true
  | IAdjust a => mode t = Custom /\ isActive t = false /\ a ∈ adj_amounts
  end.

Lemma dialog_msgs_no_timer i al : MTimer i ∉ dialog_msgs al.
Proof.
  unfold dialog_msgs. simpl. rewrite !elem_of_cons, elem_of_app, elem_item_msgs, list_elem_of_singleton.
  naive_solver.
Qed.

Lemma timer_in_render i t al : MTimer i ∈ msgs_list (render t al) <-> MTimer i ∈ timer_msgs t.
Proof.
  rewrite msgs_render, !elem_of_app, list_elem_of_singleton.
  pose proof (dialog_msgs_no_timer i al).
  destruct (isOptionsOpen al); [naive_solver|]. rewrite elem_of_nil. naive_solver.
Qed.

(** C34: the timer card offers the tabs and the reset button always, the
    start/pause button only while no alarm rings and the stop button only
    while one does, and the six adjustment buttons exactly in custom mode
    while the timer is stopped, which is [adjustTime]'s own guard. *)
Theorem timer_controls_offered t al i : MTimer i ∈ msgs_list (render t al) <-> offered t i.
Proof.
  rewrite timer_in_render. unfold timer_msgs, offered, adj_amounts.
  destruct (mode t), (isActive t), (isAlarmRinging t); destruct i as [m| | | |a]; simpl;
    rewrite ?elem_of_cons, ?elem_of_nil; try destruct m; naive_solver.
Qed.

(** ** The selection marks of the dialog *)

Definition is_selected_class (c : string) : bool := String.eqb c "alarm-item selected".

Arguments is_selected_class : simpl never.

Definition selected_marks (l : list Node) : nat :=
  length (List.filter is_selected_class (concat (map classes l))).

Lemma cls_selected b : is_selected_class (cls "alarm-item" "selected" b) = b.
Proof. by destruct b. Qed.

Lemma classes_alarm_item sel x :
  classes (alarm_item sel x) = [cls "alarm-item" "selected" (bool_decide (sel = id x)); "alarm-name"; "delete-btn"].
Proof. reflexivity. Qed.

Lemma marks_alarm_items sel l :
  length (List.filter is_selected_class (concat (map classes (map (alarm_item sel) l)))) =
  length (filter (fun x => sel = id x) l).
Proof.
  induction l as [|x l IH]; [done|]. cbn [map concat]. rewrite classes_alarm_item. cbn [app List.filter].
  rewrite cls_selected, filter_cons.
  replace (is_selected_class "alarm-name") with false by reflexivity.
  replace (is_selected_class "delete-btn") with false by reflexivity.
  case_bool_decide; case_decide; cbn [length]; try done; by rewrite IH.
Qed.

Lemma classes_dialog t al :
  classes (dialog t al) =
  ["modal-overlay"; "modal-content"; "modal-header"; "close-btn"; "alarm-section"; "alarm-list";
   cls "alarm-item" "selected" (bool_decide (selectedAlarm al = "default")); "alarm-name"] ++
  concat (map classes (map (alarm_item (selectedAlarm al)) (customAlarms al))) ++ ["upload-btn"].
Proof. unfold dialog. cbn -[cls]. by rewrite ?app_nil_r. Qed.

Lemma marks_dialog t al :
  selected_marks [dialog t al] =
  ((if bool_decide (selectedAlarm al = "default") then 1 else 0) +
   length (filter (fun x => selectedAlarm al = id x) (customAlarms al)))%nat.
Proof.
  unfold selected_marks. cbn [map concat]. rewrite app_nil_r, classes_dialog, !List.filter_app, !length_app.
  rewrite marks_alarm_items. cbn [List.filter]. rewrite cls_selected.
  unfold is_selected_class. cbn [String.eqb Ascii.eqb Bool.eqb andb].
  destruct (bool_decide _); cbn [length]; lia.
Qed.

Lemma filter_id_absent k (l : list Alarm) : k ∉ map id l -> filter (fun y => k = id y) l = [].
Proof.
  induction l as [|y l IH]; intros Hk; [done|]. simpl in Hk. rewrite filter_cons, decide_False by set_solver.
  apply IH. set_solver.
Qed.

Lemma filter_id_unique (l : list Alarm) x :
  NoDup (map id l) -> x ∈ l -> length (filter (fun y => id x = id y) l) = 1%nat.
Proof.
  induction l as [|y l IH]; intros Hnd Hx; [by apply elem_of_nil in Hx|].
  simpl in Hnd. apply NoDup_cons in Hnd as [Hy Hnd]. rewrite filter_cons.
  apply elem_of_cons in Hx as [->|Hx].
  - rewrite decide_True by done. simpl. by rewrite filter_id_absent.
  - rewrite decide_False; [by apply IH|]. intros E. apply Hy. rewrite <- E. by apply list_elem_of_fmap_2.
Qed.

Lemma filter_id_present (l : list Alarm) k : Exists (fun x => id x = k) l -> (1 <= length (filter (fun y => k = id y) l))%nat.
Proof.
  induction 1 as [x l Hx|x l _ IH]; rewrite filter_cons; [rewrite decide_True by done; simpl; lia|].
  case_decide; simpl; lia.
Qed.

(** C35: in every reachable state the dialog marks the selection: at
    least one item carries the class [selected], and exactly one when the
    ids of the list and ['default'] are pairwise distinct (an alarm id
    repeated in the list marks every alarm that has it). *)
Theorem dialog_marks_selection {A} `{AudioLaws A} `{Quota} (w : App (A:=A)) :
  app_reach w ->
  (1 <= selected_marks [dialog (timer (tw w)) (als w)])%nat /\
  (NoDup ("default" :: map id (customAlarms (als w))) ->
   selected_marks [dialog (timer (tw w)) (als w)] = 1%nat).
Proof.
  intros Hr. destruct (app_reach_inv_gen w Hr) as [_ [_ _ [Hsel _ _] _]]. simpl in Hsel.
  rewrite marks_dialog. destruct (decide (selectedAlarm (als w) = "default")) as [E|E].
  - rewrite bool_decide_true by done. split; [lia|]. intros Hnd. apply NoDup_cons in Hnd as [Hd _].
    rewrite E, filter_id_absent by done. done.
  - rewrite bool_decide_false by done. destruct Hsel as [|Hex]; [done|].
    split; [by apply filter_id_present|]. intros Hnd. apply NoDup_cons in Hnd as [_ Hnd].
    apply Exists_exists in Hex as [x [Hx Hid]]. rewrite <- Hid. simpl. by apply filter_id_unique.
Qed.

(** ** The links of the view and the main process *)

Lemma anchors_alarm_items sel l : concat (map anchors (map (alarm_item sel) l)) = [].
Proof. induction l as [|x l IH]; [done|]. simpl. by rewrite IH. Qed.

Lemma anchors_render t al :
  concat (map anchors (render t al)) =
  [(Some "https://github.com/ibrahimkorkut", Some "_blank");
   (Some "https://www.linkedin.com/in/ibrahim-korkut-21845b335/", Some "_blank")].
Proof.
  unfold render, container, controls, dialog.
  destruct (isOptionsOpen al), (bool_decide (mode t = Custom) && negb (isActive t)), (isAlarmRinging t);
    simpl; rewrite ?anchors_alarm_items; reflexivity.
Qed.

(** C36: every link of the view opens in a new window ([target=_blank])
    at an [https:] address, so in the desktop application the main
    process's window-open handler hands it to the default browser and
    opens no window of its own. *)
Theorem links_open_in_browser t al href target isPackaged dirname platform b p i :
  (Some href, target) ∈ concat (map anchors (render t al)) ->
  ereach isPackaged dirname platform b p -> (i < length (windows p))%nat ->
  target = Some "_blank" /\ String.prefix "https:" href = true /\
  windows (handle_event isPackaged dirname platform (EOpen i href) p) = windows p /\
  external (handle_event isPackaged dirname platform (EOpen i href) p) = external p ++ [href].
Proof.
  rewrite anchors_render. intros Hl Hr Hi.
  assert (Hh : target = Some "_blank" /\ String.prefix "https:" href = true)
    by (rewrite !elem_of_cons, elem_of_nil in Hl; destruct Hl as [[= -> ->]|[[= -> ->]|[]]]; done).
  destruct Hh as [Ht Hp]. destruct (window_open_spec _ _ _ _ _ i href Hr Hi) as [Hw He].
  rewrite Hp in He. done.
Qed.

(** ** Witnesses on the session of [App] (the alarm ringing, the dialog
    open) and the packaged application on Windows *)

#[local] Existing Instance browser_quota.

Lemma dialog_marks_selection_witness :
  AudioLaws AudioEl /\ app_reach demo_app6 /\
  (1 <= selected_marks [dialog (timer (tw demo_app6)) (als demo_app6)])%nat /\
  (NoDup ("default" :: map id (customAlarms (als demo_app6))) ->
   selected_marks [dialog (timer (tw demo_app6)) (als demo_app6)] = 1%nat).
Proof. exact (conj AudioEl_laws (conj demo_app6_reach (dialog_marks_selection demo_app6 demo_app6_reach))). Defined.

Lemma links_open_in_browser_witness :
  (Some "https://github.com/ibrahimkorkut", Some "_blank")
    ∈ concat (map anchors (render initial (alarms demo_aw0))) /\
  ereach true demo_dir "win32" true (demo_p2 "win32") /\ (0 < length (windows (demo_p2 "win32")))%nat /\
  Some "_blank" = Some "_blank" /\ String.prefix "https:" "https://github.com/ibrahimkorkut" = true /\
  windows (handle_event true demo_dir "win32" (EOpen 0 "https://github.com/ibrahimkorkut") (demo_p2 "win32")) =
    windows (demo_p2 "win32") /\
  external (handle_event true demo_dir "win32" (EOpen 0 "https://github.com/ibrahimkorkut") (demo_p2 "win32")) =
    external (demo_p2 "win32") ++ ["https://github.com/ibrahimkorkut"].
Proof.
  assert (Ha : (Some "https://github.com/ibrahimkorkut", Some "_blank")
                 ∈ concat (map anchors (render initial (alarms demo_aw0))))
    by (rewrite anchors_render; left).
  assert (Hl : (0 < length (windows (demo_p2 "win32")))%nat) by (vm_compute; lia).
  exact (conj Ha (conj (demo_p2_reach "win32") (conj Hl
    (links_open_in_browser _ _ _ _ _ _ _ _ _ 0 Ha (demo_p2_reach "win32") Hl)))).
Defined.

End View.
