(* ===== verification/Title.v ===== *)
(** * The document title (App.jsx lines 113-114, 157-158, 165-170)

    Three places of the component write [document.title]: the interval
    callback on every tick (line 114), [handleTimerFinished] (line 158)
    and the effect of lines 166-170, which runs after a render in which
    [timeLeft], [currentMode] or [isActive] changed and writes the title
    when the timer is stopped.  [TApp] adds the title to the state of
    [App.App]; its steps are those of [App] with the writes of the title
    in the order the code makes them: a handler or the callback first,
    then the effect of the render.  The title before the mount is the one
    of the page that loads the bundle, any string. *)

From S2P Require Import Prelude Modes Format Audio Timer TimerRun Json Alarms AlarmRun App.
Open Scope Z_scope.
Import Timer Alarms AlarmRun App.

Module Title.

(** The title after the interval callback: the write of line 114, then
    the one of [handleTimerFinished] (line 158) when the countdown ends. *)
Definition tick_title (now : Z) (t : TimerState) (title : string) : string :=
  let title1 := "Tomidoro" in
  let secondsRemaining := seconds_remaining (ref_num (endTimeRef t) - now) in
  if secondsRemaining <=? 0 then "Tomidoro" else title1.

(** The body of the effect of lines 166-170. *)
Definition title_effect (t : TimerState) (title : string) : string :=
  if negb (isActive t) then "Tomidoro" else title.

(** The render after a step: the effect runs when one of its
    dependencies [timeLeft], [currentMode] (one object per mode) and
    [isActive] changed. *)
Definition commit_title (old new : TimerState) (title : string) : string :=
  if bool_decide (timeLeft old = timeLeft new) && bool_decide (mode old = mode new) &&
     Bool.eqb (isActive old) (isActive new)
  then title else title_effect new title.

Section Titled.
Context {A : Type} `{AudioLaws A} `{Quota}.

Record TApp := mkTApp { app : App (A:=A); title : string }.

(** A step of [App] to [a'] whose handler left the title [t], then the
    render. *)
Definition after (w : TApp) (a' : App (A:=A)) (t : string) : TApp :=
  {| app := a'; title := commit_title (timer (tw (app w))) (timer (tw a')) t |}.

Inductive tstep : TApp -> TApp -> Prop :=
  | ts_user i w : hidden (tw (app w)) = false ->
      tstep w (after w (set_tw (user_step i (tw (app w))) (app w)) (title w))
  | ts_tick ok w : timerRef (timer (tw (app w))) = true ->
      tstep w (after w (set_tw (tick_step ok (tw (app w))) (app w))
                 (tick_title (clock (tw (app w))) (timer (tw (app w))) (title w)))
  | ts_visibility h w : tstep w (after w (set_tw (visibility_step h (tw (app w))) (app w)) (title w))
  | ts_elapse d w : 0 <= d ->
      tstep w (after w (set_tw (set_clock (clock (tw (app w)) + d) (tw (app w))) (app w)) (title w))
  | ts_permission g w : tstep w (after w (set_tw (set_granted g (tw (app w))) (app w)) (title w))
  | ts_alarm ev w : event_ok ev (app w) = true -> alarm_throws ev (to_aw (app w)) = false ->
      tstep w (after w (app_alarm_event ev (app w)) (title w)).

(** The mount: the first run of every effect, the title effect among
    them, on the page title [title0]. *)
Inductive treach : TApp -> Prop :=
  | treach_init st a0 aw start h g title0 :
      mount_world st a0 = Some aw -> settings_ok (alarms aw) = true ->
      audio_src a0 = defaultAlarmSound -> audio_playing a0 = false -> 0 <= start ->
      treach {| app := {| tw := init_world (player aw) start h g; als := alarms aw; stg := store aw;
                          app_alerts := alerts aw |};
                title := title_effect (timer (init_world (player aw) start h g)) title0 |}
  | treach_step w w' : treach w -> tstep w w' -> treach w'.

Lemma tstep_app (w w' : TApp) : tstep w w' -> app_step (app w) (app w').
Proof.
  destruct 1 as [i w Hh|ok w Hr|h w|d w Hd|g w|ev w Hok Hth]; simpl; try (by apply app_step_alarm);
    apply app_step_timer; by constructor.
Qed.

Lemma treach_app (w : TApp) : treach w -> app_reach (app w).
Proof.
  induction 1 as [st a0 aw start h g title0 Hm Hok Hs Hp Hst|w w' _ IH Hs].
  - by apply (app_reach_init st a0 aw).
  - apply (app_reach_step _ _ IH), tstep_app, Hs.
Qed.

Lemma commit_title_keeps old new : commit_title old new "Tomidoro" = "Tomidoro".
Proof. unfold commit_title, title_effect. by repeat case_match. Qed.

Lemma tick_title_const now t title : tick_title now t title = "Tomidoro".
Proof. unfold tick_title. by case_match. Qed.

(** C37: the code diverges from the comments of the interval callback.
    Lines 113 and 126 announce a title updated for the minimised window,
    checked every 200 ms "for smoother title updates"; every write of
    [document.title] (lines 114, 158 and 169) stores the constant
    ["Tomidoro"].  From the first render on, whatever the timer does
    (running, hidden, finished, paused), the title is ["Tomidoro"]: it
    never shows the countdown.  The titled steps are steps of [App]. *)
Theorem title_constant (w : TApp) : treach w -> title w = "Tomidoro" /\ app_reach (app w).
Proof.
  intros Hr. split; [|by apply treach_app].
  induction Hr as [st a0 aw start h g title0 _ _ _ _ _|w w' _ IH Hs]; [done|].
  destruct Hs; simpl in *; rewrite ?IH, ?tick_title_const; apply commit_title_keeps.
Qed.

End Titled.

(** ** A session: the mount of [App.demo_app0] on a page titled
    ["Vite + React"], then the start of the pomodoro. *)

#[local] Existing Instance browser_quota.

Definition demo_t0 : TApp (A:=AudioEl) :=
  {| app := demo_app0; title := title_effect (timer (tw demo_app0)) "Vite + React" |}.
Definition demo_t1 : TApp (A:=AudioEl) :=
  after demo_t0 (set_tw (user_step IToggle (tw (app demo_t0))) (app demo_t0)) (title demo_t0).

Lemma demo_t1_reach : treach demo_t1.
Proof.
  apply (treach_step demo_t0).
  - apply (treach_init ∅ audioRef_initial demo_aw0 0 false true "Vite + React"); (reflexivity || lia).
  - by apply ts_user.
Qed.

Lemma title_constant_witness :
  AudioLaws AudioEl /\ treach demo_t1 /\ title demo_t1 = "Tomidoro" /\ app_reach (app demo_t1).
Proof. exact (conj AudioEl_laws (conj demo_t1_reach (title_constant demo_t1 demo_t1_reach))). Defined.

End Title.
