(* ===== verification/Schema.v ===== *)
(** * The schema of the settings in [localStorage]

    The component trusts what it reads back: [JSON.parse(saved)] is used
    as an array of [{id, name, data}] (line 50) and the selection as the
    id of one of them or ['default'] (line 53, lines 79-88).  [has_type]
    types the two stored strings: the text [JSON.stringify] writes for a
    list of alarms with non-empty ids, and a selection that is
    ['default'] or a non-empty id of that list.  A store whose two keys have these types is
    [store_typed]; the file shows that every reachable state of [App]
    leaves a typed store and that a typed store mounts into a state from
    which [AlarmRun] starts again, so the settings survive any number of
    sessions. *)

From S2P Require Import Prelude Audio Timer TimerRun Json Alarms AlarmRun App.
Open Scope Z_scope.
Import Alarms AlarmRun App.

Module Schema.

Inductive SType := TAlarms | TSelection (ids : list string).

Inductive has_type : string -> SType -> Prop :=
  | ht_alarms l : ids_nonempty l -> has_type (json_alarms l) TAlarms
  | ht_default ids : has_type "default" (TSelection ids)
  | ht_id k ids : k ∈ ids -> k <> "" -> has_type k (TSelection ids).

Definition store_typed (st : gmap string string) : Prop :=
  exists s l k, st !! "customAlarms" = Some s /\ json_decode s = Some l /\ has_type s TAlarms /\
    st !! "selectedAlarm" = Some k /\ has_type k (TSelection (map id l)).

Lemma has_type_alarms s l : json_decode s = Some l -> has_type s TAlarms -> s = json_alarms l /\ ids_nonempty l.
Proof. intros Hd Ht. inversion Ht as [l' Hn| |]; subst. rewrite json_roundtrip in Hd. by simplify_eq. Qed.

Lemma has_type_selection k l :
  has_type k (TSelection (map id l)) -> k <> "" /\ (k = "default" \/ Exists (fun x => id x = k) l).
Proof.
  inversion 1 as [|ids|k' ids Hk Hne]; subst; [by split; [|left]|].
  split; [done|right]. apply list_elem_of_fmap in Hk as (x & -> & Hx). apply Exists_exists. eauto.
Qed.

Lemma json_decode_empty : json_decode "" = None.
Proof. reflexivity. Qed.

(** A typed store within the quota mounts into a state that satisfies
    [settings_ok]: the first saves write back the values it holds. *)
Lemma typed_mount {A} `{AudioLaws A} `{Quota} st (a0 : A) :
  store_typed st -> (storage_size st <= quota)%nat ->
  exists w, mount_world st a0 = Some w /\ settings_ok (alarms w) = true.
Proof.
  intros (s & l & k & Hs & Hd & Ht & Hk & Hsel) Hfit.
  apply (has_type_alarms _ l) in Ht as [-> Ht]; [|done]. apply has_type_selection in Hsel as [Hne Hsel].
  unfold mount_world, mount, mount_state, load_customAlarms, load_selectedAlarm.
  rewrite Hs, Hk, (bool_decide_false (k = "")) by done.
  rewrite (bool_decide_false (json_alarms l = "")) by (intros E; by rewrite E, json_decode_empty in Hd).
  rewrite Hd. simpl. rewrite (setItem_same _ _ _ Hs Hfit). simpl.
  rewrite (setItem_same _ _ _ Hk Hfit). simpl.
  eexists; split; [reflexivity|]. by apply bool_decide_eq_true.
Qed.

Lemma synced_typed al st : synced al st -> settings_inv al -> store_typed st.
Proof.
  intros [Hl Hs] Hset. pose proof (sel_nonempty _ Hset) as Hne. destruct Hset as [Hsel Hids _].
  exists (json_alarms (customAlarms al)), (customAlarms al), (selectedAlarm al).
  rewrite json_roundtrip. repeat split; try done.
  - by apply ht_alarms.
  - destruct Hsel as [->|Hex]; [apply ht_default|]. apply ht_id; [|done].
    apply Exists_exists in Hex as [x [Hx <-]]. by apply list_elem_of_fmap_2.
Qed.

(** C38: the storage of every reachable state of the component is well
    typed: the list key holds the JSON text of an array of alarms with
    non-empty ids and the selection key ['default'] or one of their ids;
    and such a storage mounts the next session into a state that
    satisfies [AlarmRun.settings_ok], the starting condition of the
    settings invariant. *)
Theorem storage_well_typed {A} `{AudioLaws A} `{Quota} (w : App (A:=A)) (a0 : A) :
  app_reach w ->
  store_typed (stg w) /\ exists w', mount_world (stg w) a0 = Some w' /\ settings_ok (alarms w') = true.
Proof.
  intros Hr. destruct (app_reach_inv_gen w Hr) as [_ [Hs Hfit Hset _]].
  assert (Ht : store_typed (stg w)) by (by apply (synced_typed (als w))).
  split; [done|]. by apply typed_mount.
Qed.

#[local] Existing Instance browser_quota.

Lemma storage_well_typed_witness :
  AudioLaws AudioEl /\ app_reach demo_app6 /\
  store_typed (stg demo_app6) /\
  exists w', mount_world (stg demo_app6) audioRef_initial = Some w' /\ settings_ok (alarms w') = true.
Proof.
  exact (conj AudioEl_laws (conj demo_app6_reach (storage_well_typed demo_app6 audioRef_initial demo_app6_reach))).
Defined.

End Schema.
